(** * Flare runtime: a Rocq model of the animation core

    The development follows the TypeScript sources of the runtime package:
    the easing library, the property interpolator and the group/sequence
    orchestrator of [AnimationEngine], the [EventTriggerManager], the
    [PathManager] and [parseSVGPath].

    Conventions of the embedding.
    - A JavaScript [number] is an exact rational extended with [NaN] and the
      two infinities ([JsNum.num]).  The special values obey the IEEE rules
      the sources rely on ([0/0 = NaN], [NaN] is contagious, comparisons with
      [NaN] are false); binary64 rounding and the sign of zero are not
      represented.  The theorems are therefore stated where rounding plays
      no part: on comparisons, clamps and [NaN], on integer frames, on
      products with 0 and 1, or as identities between expressions of the
      program.
    - An object holds its own properties only.  Where the sources look a
      name up with [in] or by index, the names inherited from
      [Object.prototype] ([Spec.inheritedNames]) are outside the model and
      excluded by hypothesis.
    - The host functions [Math.cos], [Math.sin], [Math.sqrt], [Math.pow] and
      [Math.atan2] are parameters ([MathLib]).
    - JSON-shaped data ([any]) is the tree type [Json.value]; objects keep
      their keys in insertion order.
    - [Map<string, _>] is a [gmap string _], [Set<string>] a [gset string]. *)

From Stdlib Require Import QArith Qround Qabs Lia Lqa String Ascii List Bool.
From stdpp Require Import gmap strings.

Set Default Proof Using "Type".

(* ================================================================= *)
(** ** JavaScript numbers *)
(* ================================================================= *)

Module JsNum.

Inductive num : Type :=
| Fin (q : Q)
| PInf
| NInf
| NaN.

(** Finite results are kept in lowest terms, so that equal numbers are equal
    terms. *)
Definition fin (q : Q) : num := Fin (Qred q).

Definition ofZ (z : Z) : num := Fin (inject_Z z).
Definition ofNat (n : nat) : num := ofZ (Z.of_nat n).

(** Sign of a number: [Lt] negative, [Eq] zero (or [NaN]), [Gt] positive. *)
Definition sgn (x : num) : comparison :=
  match x with
  | Fin q => (q ?= 0)%Q
  | PInf => Gt
  | NInf => Lt
  | NaN => Eq
  end.

Definition sgn_mul (a b : comparison) : comparison :=
  match a with
  | Eq => Eq
  | Gt => b
  | Lt => CompOpp b
  end.

(** The infinity of a given sign; a zero sign stands for an invalid
    operation. *)
Definition inf_of (c : comparison) : num :=
  match c with
  | Gt => PInf
  | Lt => NInf
  | Eq => NaN
  end.

Definition neg (x : num) : num :=
  match x with
  | Fin q => fin (- q)
  | PInf => NInf
  | NInf => PInf
  | NaN => NaN
  end.

Definition add (x y : num) : num :=
  match x, y with
  | NaN, _ => NaN
  | _, NaN => NaN
  | Fin a, Fin b => fin (a + b)
  | PInf, NInf => NaN
  | NInf, PInf => NaN
  | PInf, _ => PInf
  | _, PInf => PInf
  | NInf, _ => NInf
  | _, NInf => NInf
  end.

Definition sub (x y : num) : num := add x (neg y).

Definition mul (x y : num) : num :=
  match x, y with
  | NaN, _ => NaN
  | _, NaN => NaN
  | Fin a, Fin b => fin (a * b)
  | _, _ => inf_of (sgn_mul (sgn x) (sgn y))
  end.

Definition div (x y : num) : num :=
  match x, y with
  | NaN, _ => NaN
  | _, NaN => NaN
  | Fin a, Fin b =>
      if Qeq_bool b 0 then inf_of (a ?= 0)%Q else fin (a / b)
  | Fin _, _ => Fin 0
  | _, Fin b =>
      inf_of (sgn_mul (sgn x) (if Qeq_bool b 0 then Gt else (b ?= 0)%Q))
  | _, _ => NaN
  end.

(** Ordering; [None] when one side is [NaN]. *)
Definition cmp (x y : num) : option comparison :=
  match x, y with
  | NaN, _ => None
  | _, NaN => None
  | Fin a, Fin b => Some (a ?= b)%Q
  | PInf, PInf => Some Eq
  | NInf, NInf => Some Eq
  | PInf, _ => Some Gt
  | _, PInf => Some Lt
  | NInf, _ => Some Lt
  | _, NInf => Some Gt
  end.

Definition ltb (x y : num) : bool :=
  match cmp x y with Some Lt => true | _ => false end.
Definition leb (x y : num) : bool :=
  match cmp x y with Some Lt | Some Eq => true | _ => false end.
Definition gtb (x y : num) : bool := ltb y x.
Definition geb (x y : num) : bool := leb y x.
(** [===] on numbers. *)
Definition eqb (x y : num) : bool :=
  match cmp x y with Some Eq => true | _ => false end.

(** [Math.min] and [Math.max]. *)
Definition min (x y : num) : num :=
  match cmp x y with
  | None => NaN
  | Some Gt => y
  | Some _ => x
  end.

Definition max (x y : num) : num :=
  match cmp x y with
  | None => NaN
  | Some Lt => y
  | Some _ => x
  end.

Definition abs (x : num) : num :=
  match x with
  | Fin q => fin (Qabs q)
  | NaN => NaN
  | _ => PInf
  end.

(** [Math.floor] and [Math.round] (halves round up). *)
Definition floor (x : num) : num :=
  match x with
  | Fin q => ofZ (Qfloor q)
  | _ => x
  end.

Definition round (x : num) : num :=
  match x with
  | Fin q => ofZ (Qfloor (q + (1 # 2)))
  | _ => x
  end.

(** The remainder operator [%]: the result has the sign of the dividend. *)
Definition rem (x y : num) : num :=
  match x, y with
  | Fin a, Fin b =>
      if Qeq_bool b 0 then NaN
      else
        let t := (a / b)%Q in
        let k := if Qle_bool 0 t then Qfloor t else Qceiling t in
        fin (a - b * inject_Z k)
  | Fin a, PInf => x
  | Fin a, NInf => x
  | _, _ => NaN
  end.

(** Truthiness of a number: [0] and [NaN] are falsy. *)
Definition truthy (x : num) : bool :=
  match x with
  | Fin q => negb (Qeq_bool q 0)
  | NaN => false
  | _ => true
  end.

Definition is_integer (x : num) : option Z :=
  match x with
  | Fin q => if Qeq_bool (inject_Z (Qfloor q)) q then Some (Qfloor q) else None
  | _ => None
  end.

End JsNum.

Export JsNum.

Declare Scope num_scope.
Delimit Scope num_scope with num.
Bind Scope num_scope with num.
Notation "x + y" := (JsNum.add x y) : num_scope.
Notation "x - y" := (JsNum.sub x y) : num_scope.
Notation "x * y" := (JsNum.mul x y) : num_scope.
Notation "x / y" := (JsNum.div x y) : num_scope.
Notation "- x" := (JsNum.neg x) : num_scope.
Notation "x <? y" := (JsNum.ltb x y) : num_scope.
Notation "x <=? y" := (JsNum.leb x y) : num_scope.
Notation "x >? y" := (JsNum.gtb x y) : num_scope.
Notation "x >=? y" := (JsNum.geb x y) : num_scope.
Notation "x =? y" := (JsNum.eqb x y) : num_scope.
(** Decimal literals of the sources. *)
Notation "'#' q" := (JsNum.fin q%Q) (at level 5, q at level 0, format "'#' q") : num_scope.

(** The host's [Math] object, as far as the sources use it beyond plain
    arithmetic. *)
Class MathLib : Type := {
  Math_cos : num -> num;
  Math_sin : num -> num;
  Math_sqrt : num -> num;
  Math_pow : num -> num -> num;
  Math_atan2 : num -> num -> num;
  Math_PI : num
}.

(** As in every ECMAScript host, the functions return [NaN] on a [NaN]
    argument. *)
Class MathNaN (M : MathLib) : Prop := {
  Math_cos_nan : Math_cos NaN = NaN;
  Math_sin_nan : Math_sin NaN = NaN;
  Math_sqrt_nan : Math_sqrt NaN = NaN;
  Math_pow_nan : forall b, Math_pow b NaN = NaN
}.

(* ================================================================= *)
(** ** Easing library ([class Easing]) *)
(* ================================================================= *)

Module Easing.
Section WithMath.
Context {M : MathLib}.
Local Open Scope num_scope.

Definition EasingFunction : Type := num -> num.

Definition linear : EasingFunction := fun t => t.

Definition easeInQuad : EasingFunction := fun t => t * t.
Definition easeOutQuad : EasingFunction := fun t => t * (#2 - t).
Definition easeInOutQuad : EasingFunction := fun t =>
  if t <? #0.5 then #2 * t * t else - #1 + (#4 - #2 * t) * t.

Definition easeInCubic : EasingFunction := fun t => t * t * t.
Definition easeOutCubic : EasingFunction := fun t =>
  let t := t - #1 in t * t * t + #1.
Definition easeInOutCubic : EasingFunction := fun t =>
  if t <? #0.5 then #4 * t * t * t
  else (t - #1) * (#2 * t - #2) * (#2 * t - #2) + #1.

Definition easeInQuart : EasingFunction := fun t => t * t * t * t.
Definition easeOutQuart : EasingFunction := fun t =>
  let t := t - #1 in #1 - t * t * t * t.
Definition easeInOutQuart : EasingFunction := fun t =>
  if t <? #0.5 then #8 * t * t * t * t
  else let t := t - #1 in #1 - #8 * t * t * t * t.

Definition easeInQuint : EasingFunction := fun t => t * t * t * t * t.
Definition easeOutQuint : EasingFunction := fun t =>
  let t := t - #1 in #1 + t * t * t * t * t.
Definition easeInOutQuint : EasingFunction := fun t =>
  if t <? #0.5 then #16 * t * t * t * t * t
  else let t := t - #1 in #1 + #16 * t * t * t * t * t.

Definition easeInSine : EasingFunction := fun t =>
  #1 - Math_cos (t * Math_PI / #2).
Definition easeOutSine : EasingFunction := fun t =>
  Math_sin (t * Math_PI / #2).
Definition easeInOutSine : EasingFunction := fun t =>
  - (Math_cos (Math_PI * t) - #1) / #2.

Definition easeInExpo : EasingFunction := fun t =>
  if t =? #0 then #0 else Math_pow #2 (#10 * (t - #1)).
Definition easeOutExpo : EasingFunction := fun t =>
  if t =? #1 then #1 else - (Math_pow #2 (- #10 * t)) + #1.
Definition easeInOutExpo : EasingFunction := fun t =>
  if t =? #0 then #0
  else if t =? #1 then #1
  else if t <? #0.5 then Math_pow #2 (#10 * (#2 * t - #1)) / #2
  else (- (Math_pow #2 (- #10 * (#2 * t - #1))) + #2) / #2.

Definition easeInCirc : EasingFunction := fun t =>
  #1 - Math_sqrt (#1 - t * t).
Definition easeOutCirc : EasingFunction := fun t =>
  let t := t - #1 in Math_sqrt (#1 - t * t).
Definition easeInOutCirc : EasingFunction := fun t =>
  let t := t * #2 in
  if t <? #1 then - #0.5 * (Math_sqrt (#1 - t * t) - #1)
  else let t := t - #2 in #0.5 * (Math_sqrt (#1 - t * t) + #1).

Definition easeInElastic : EasingFunction := fun t =>
  if t =? #0 then #0
  else if t =? #1 then #1
  else - (Math_pow #2 (#10 * (t - #1))) * Math_sin ((t - #1.1) * #5 * Math_PI).
Definition easeOutElastic : EasingFunction := fun t =>
  if t =? #0 then #0
  else if t =? #1 then #1
  else Math_pow #2 (- #10 * t) * Math_sin ((t - #0.1) * #5 * Math_PI) + #1.
Definition easeInOutElastic : EasingFunction := fun t =>
  if t =? #0 then #0
  else if t =? #1 then #1
  else
    let t := t * #2 in
    if t <? #1 then
      - #0.5 * Math_pow #2 (#10 * (t - #1)) * Math_sin ((t - #1.1) * #5 * Math_PI)
    else
      #0.5 * Math_pow #2 (- #10 * (t - #1)) * Math_sin ((t - #1.1) * #5 * Math_PI) + #1.

Definition easeInBack : EasingFunction := fun t =>
  let s := #1.70158 in
  t * t * ((s + #1) * t - s).
Definition easeOutBack : EasingFunction := fun t =>
  let s := #1.70158 in
  let t := t - #1 in
  t * t * ((s + #1) * t + s) + #1.
Definition easeInOutBack : EasingFunction := fun t =>
  let s := #1.70158 * #1.525 in
  let t := t * #2 in
  if t <? #1 then #0.5 * (t * t * ((s + #1) * t - s))
  else let t := t - #2 in #0.5 * (t * t * ((s + #1) * t + s) + #2).

Definition easeOutBounce : EasingFunction := fun t =>
  if t <? #1 / #2.75 then
    #7.5625 * t * t
  else if t <? #2 / #2.75 then
    let t := t - #1.5 / #2.75 in
    #7.5625 * t * t + #0.75
  else if t <? #2.5 / #2.75 then
    let t := t - #2.25 / #2.75 in
    #7.5625 * t * t + #0.9375
  else
    let t := t - #2.625 / #2.75 in
    #7.5625 * t * t + #0.984375.
Definition easeInBounce : EasingFunction := fun t =>
  #1 - easeOutBounce (#1 - t).
Definition easeInOutBounce : EasingFunction := fun t =>
  if t <? #0.5 then easeInBounce (t * #2) * #0.5
  else easeOutBounce (t * #2 - #1) * #0.5 + #0.5.

(** The name table of [getEasingFunction], in source order. *)
Definition easingMap : list (string * EasingFunction) :=
  [ ("linear", linear);
    ("ease-in", easeInQuad);
    ("ease-out", easeOutQuad);
    ("ease-in-out", easeInOutQuad);
    ("ease-in-quad", easeInQuad);
    ("ease-out-quad", easeOutQuad);
    ("ease-in-out-quad", easeInOutQuad);
    ("ease-in-cubic", easeInCubic);
    ("ease-out-cubic", easeOutCubic);
    ("ease-in-out-cubic", easeInOutCubic);
    ("ease-in-quart", easeInQuart);
    ("ease-out-quart", easeOutQuart);
    ("ease-in-out-quart", easeInOutQuart);
    ("ease-in-quint", easeInQuint);
    ("ease-out-quint", easeOutQuint);
    ("ease-in-out-quint", easeInOutQuint);
    ("ease-in-sine", easeInSine);
    ("ease-out-sine", easeOutSine);
    ("ease-in-out-sine", easeInOutSine);
    ("ease-in-expo", easeInExpo);
    ("ease-out-expo", easeOutExpo);
    ("ease-in-out-expo", easeInOutExpo);
    ("ease-in-circ", easeInCirc);
    ("ease-out-circ", easeOutCirc);
    ("ease-in-out-circ", easeInOutCirc);
    ("ease-in-elastic", easeInElastic);
    ("ease-out-elastic", easeOutElastic);
    ("ease-in-out-elastic", easeInOutElastic);
    ("ease-in-back", easeInBack);
    ("ease-out-back", easeOutBack);
    ("ease-in-out-back", easeInOutBack);
    ("ease-in-bounce", easeInBounce);
    ("ease-out-bounce", easeOutBounce);
    ("ease-in-out-bounce", easeInOutBounce) ]%string.

Fixpoint assoc {A : Type} (k : string) (l : list (string * A)) : option A :=
  match l with
  | [] => None
  | (k', v) :: l' => if String.eqb k k' then Some v else assoc k l'
  end.

(** [easingMap[name] || Easing.linear], for a [name] that is a key of the
    table or no property of the table object (the names the object inherits
    from [Object.prototype] are not looked up here). *)
Definition getEasingFunction (name : string) : EasingFunction :=
  match assoc name easingMap with
  | Some f => f
  | None => linear
  end.

End WithMath.
End Easing.

(* ================================================================= *)
(** ** Strings *)
(* ================================================================= *)

Module Str.
Local Open Scope string_scope.

Definition chars (s : string) : list ascii := list_ascii_of_string s.
Definition ofChars (l : list ascii) : string := string_of_list_ascii l.

(** [s.split(c)] for a one-character separator. *)
Fixpoint splitOn (c : ascii) (cur : list ascii) (l : list ascii) : list string :=
  match l with
  | [] => [ofChars (rev cur)]
  | a :: l' =>
      if Ascii.eqb a c then ofChars (rev cur) :: splitOn c [] l'
      else splitOn c (a :: cur) l'
  end.

Definition split (c : ascii) (s : string) : list string := splitOn c [] (chars s).

Definition isDigit (a : ascii) : bool :=
  let n := nat_of_ascii a in (48 <=? n)%nat && (n <=? 57)%nat.

Definition isUpper (a : ascii) : bool :=
  let n := nat_of_ascii a in (65 <=? n)%nat && (n <=? 90)%nat.

Definition isLower (a : ascii) : bool :=
  let n := nat_of_ascii a in (97 <=? n)%nat && (n <=? 122)%nat.

(** The class [[A-Za-z]]. *)
Definition isLetter (a : ascii) : bool := isUpper a || isLower a.

(** The white space of [\s] and of [trim], within ASCII: tab, line feed,
    vertical tab, form feed, carriage return and space. *)
Definition isSpace (a : ascii) : bool :=
  let n := nat_of_ascii a in
  ((9 <=? n)%nat && (n <=? 13)%nat) || (n =? 32)%nat.

Fixpoint dropSpaces (l : list ascii) : list ascii :=
  match l with
  | a :: l' => if isSpace a then dropSpaces l' else l
  | [] => []
  end.

Definition trimChars (l : list ascii) : list ascii :=
  rev (dropSpaces (rev (dropSpaces l))).

Definition digitVal (a : ascii) : Z := Z.of_nat (nat_of_ascii a - 48).

(** Value of a hexadecimal digit, if it is one. *)
Definition hexVal (a : ascii) : option Z :=
  let n := nat_of_ascii a in
  if isDigit a then Some (Z.of_nat (n - 48))
  else if (97 <=? n)%nat && (n <=? 102)%nat then Some (Z.of_nat (n - 87))
  else if (65 <=? n)%nat && (n <=? 70)%nat then Some (Z.of_nat (n - 55))
  else None.

Definition hexDigit (z : Z) : ascii :=
  if (z <? 10)%Z then ascii_of_nat (Z.to_nat z + 48)
  else ascii_of_nat (Z.to_nat z + 87).

(** Digits of a natural number in base [b], most significant first. *)
Fixpoint digitsFuel (fuel : nat) (b : Z) (z : Z) (acc : list ascii) : list ascii :=
  match fuel with
  | O => acc
  | S fuel' =>
      let acc' := hexDigit (z mod b) :: acc in
      if (z / b =? 0)%Z then acc' else digitsFuel fuel' b (z / b) acc'
  end.

Definition natDigits (b : Z) (z : Z) : list ascii :=
  digitsFuel (S (Z.to_nat (Z.log2 z))) b z [].

(** Decimal or hexadecimal numeral of an integer. *)
Definition ofInteger (b : Z) (z : Z) : string :=
  if (z <? 0)%Z then ofChars ("-"%char :: natDigits b (- z))
  else ofChars (natDigits b z).

(** Fractional digits of [r / d] (with [0 <= r < d]), at most [fuel] of
    them. *)
Fixpoint fracDigits (fuel : nat) (r d : Z) : list ascii :=
  match fuel with
  | O => []
  | S fuel' =>
      if (r =? 0)%Z then []
      else hexDigit ((10 * r) / d) :: fracDigits fuel' ((10 * r) mod d) d
  end.

(** [String(n)] as used by template literals.  Integers are printed in
    full (the sources never reach the exponent notation that starts at
    [1e21]); a fraction is printed with its decimal digits, cut after
    seventeen when the expansion does not terminate. *)
Definition ofNum (n : num) : string :=
  match n with
  | NaN => "NaN"
  | PInf => "Infinity"
  | NInf => "-Infinity"
  | Fin q =>
      let q := Qred q in
      let a := Z.abs (Qnum q) in
      let d := Zpos (Qden q) in
      let ip := ofChars (natDigits 10 (a / d)) in
      let fp := fracDigits 17 (a mod d) d in
      let body := match fp with [] => ip | _ => ip ++ "." ++ ofChars fp end in
      if (Qnum q <? 0)%Z then "-" ++ body else body
  end.

(** [n.toString(16)] for the values [interpolateColor] prints: an integer
    or [NaN] (the fractional part of any other value is not printed). *)
Definition ofNum16 (n : num) : string :=
  match n with
  | NaN => "NaN"
  | PInf => "Infinity"
  | NInf => "-Infinity"
  | Fin q => ofInteger 16 (Qnum q / Zpos (Qden q))
  end.

(** [s.padStart(2, '0')] *)
Definition padStart2 (s : string) : string :=
  match String.length s with
  | 0%nat => "00"
  | 1%nat => "0" ++ s
  | _ => s
  end.

(** [s.startsWith('#')] *)
Definition startsWithHash (s : string) : bool :=
  match s with
  | String a _ => Ascii.eqb a "#"%char
  | EmptyString => false
  end.

(** [s.replace('#', '')]: the first occurrence only. *)
Fixpoint removeFirstHash (l : list ascii) : list ascii :=
  match l with
  | [] => []
  | a :: l' => if Ascii.eqb a "#"%char then l' else a :: removeFirstHash l'
  end.

(** [s.substring(i, j)] for [i <= j]. *)
Definition substring (i j : nat) (s : string) : string :=
  ofChars (firstn (j - i) (skipn i (chars s))).

Fixpoint hexPrefix (l : list ascii) (acc : option Z) : option Z :=
  match l with
  | a :: l' =>
      match hexVal a with
      | Some d =>
          hexPrefix l' (Some (16 * match acc with Some v => v | None => 0 end + d)%Z)
      | None => acc
      end
  | [] => acc
  end.

(** [parseInt(s, 16)]: leading white space, a sign, an optional [0x], then
    the longest run of hexadecimal digits; [NaN] when there is none. *)
Definition parseInt16 (s : string) : num :=
  let l := dropSpaces (chars s) in
  let '(neg, l) :=
    match l with
    | "-"%char :: l' => (true, l')
    | "+"%char :: l' => (false, l')
    | _ => (false, l)
    end in
  let l :=
    match l with
    | "0"%char :: "x"%char :: l' => l'
    | "0"%char :: "X"%char :: l' => l'
    | _ => l
    end in
  match hexPrefix l None with
  | Some v => ofZ (if neg then - v else v)
  | None => NaN
  end.

Fixpoint decPrefix (l : list ascii) (acc : Z) (n : nat) : Z * nat * list ascii :=
  match l with
  | a :: l' =>
      if isDigit a then decPrefix l' (10 * acc + digitVal a)%Z (S n)
      else (acc, n, l)
  | [] => (acc, n, [])
  end.

Fixpoint isPrefix (p l : list ascii) : bool :=
  match p, l with
  | [], _ => true
  | a :: p', b :: l' => Ascii.eqb a b && isPrefix p' l'
  | _ :: _, [] => false
  end.

Definition matchesPrefix (p : string) (l : list ascii) : bool :=
  isPrefix (chars p) l.

(** [parseFloat(s)]: the longest prefix that is a decimal literal (digits
    with an optional fraction and exponent, or [Infinity]), after leading
    white space and a sign; [NaN] when there is none.  The literal is read
    exactly. *)
Definition parseFloat (s : string) : num :=
  let l := dropSpaces (chars s) in
  let '(neg, l) :=
    match l with
    | "-"%char :: l' => (true, l')
    | "+"%char :: l' => (false, l')
    | _ => (false, l)
    end in
  let sign (x : num) := if neg then JsNum.neg x else x in
  if matchesPrefix "Infinity" l then sign PInf
  else
    let '(ip, ni, l1) := decPrefix l 0 0 in
    let '(fp, nf, l2) :=
      match l1 with
      | "."%char :: l' => decPrefix l' 0 0
      | _ => (0%Z, 0%nat, l1)
      end in
    if ((ni + nf)%nat =? 0)%nat then NaN
    else
      let mant := (inject_Z ip + inject_Z fp / inject_Z (10 ^ Z.of_nat nf))%Q in
      let ex : Z :=
        match l2 with
        | a :: l' =>
            if Ascii.eqb a "e"%char || Ascii.eqb a "E"%char then
              let '(eneg, l'') :=
                match l' with
                | "-"%char :: r => (true, r)
                | "+"%char :: r => (false, r)
                | _ => (false, l')
                end in
              let '(ev, ne, _) := decPrefix l'' 0 0 in
              if (ne =? 0)%nat then 0%Z else if eneg then (- ev)%Z else ev
            else 0%Z
        | [] => 0%Z
        end in
      let scaled :=
        if (0 <=? ex)%Z then (mant * inject_Z (10 ^ ex))%Q
        else (mant / inject_Z (10 ^ (- ex)))%Q in
      sign (fin scaled).

End Str.

(* ================================================================= *)
(** ** Results of operations that may throw *)
(* ================================================================= *)

(** [Thrown] is a JavaScript exception.  [Beyond] marks a run that leaves
    the fragment of the language the model covers (a sparse array, a
    non-index property stored on an array). *)
Inductive res (A : Type) : Type :=
| Ret (a : A)
| Thrown (e : string)
| Beyond.
Arguments Ret {A} a.
Arguments Thrown {A} e.
Arguments Beyond {A}.

Definition rbind {A B : Type} (x : res A) (f : A -> res B) : res B :=
  match x with
  | Ret a => f a
  | Thrown e => Thrown e
  | Beyond => Beyond
  end.

Notation "'let*' x ':=' c 'in' k" := (rbind c (fun x => k))
  (at level 10, x name, c at level 100, k at level 200, only parsing).

Fixpoint rmap {A B : Type} (f : A -> res B) (l : list A) : res (list B) :=
  match l with
  | [] => Ret []
  | a :: l' =>
      rbind (f a) (fun b => rbind (rmap f l') (fun bs => Ret (b :: bs)))
  end.

Fixpoint rfold {A B : Type} (f : B -> A -> res B) (l : list A) (b : B) : res B :=
  match l with
  | [] => Ret b
  | a :: l' => rbind (f b a) (fun b' => rfold f l' b')
  end.

(* ================================================================= *)
(** ** JSON-shaped values *)
(* ================================================================= *)

Module Json.
Local Open Scope string_scope.

(** The values a timeline, an element's [properties] and an event's data
    are made of.  Only own properties are represented: names inherited from
    [Object.prototype] or [Array.prototype] are not property paths of the
    model. *)
#[local] Unset Elimination Schemes.
Inductive value : Type :=
| VUndef
| VNull
| VBool (b : bool)
| VNum (n : num)
| VStr (s : string)
| VArr (items : list value)
| VObj (fields : list (string * value)).
#[local] Set Elimination Schemes.

Definition truthy (v : value) : bool :=
  match v with
  | VUndef | VNull => false
  | VBool b => b
  | VNum n => JsNum.truthy n
  | VStr s => negb (String.eqb s "")
  | VArr _ | VObj _ => true
  end.

(** [a || b] *)
Definition orElse (a b : value) : value := if truthy a then a else b.

Fixpoint lookup (k : string) (fs : list (string * value)) : option value :=
  match fs with
  | [] => None
  | (k', v) :: fs' => if String.eqb k k' then Some v else lookup k fs'
  end.

(** Assignment to a key of an object: an existing key keeps its place, a
    new key goes last. *)
Fixpoint store (k : string) (v : value) (fs : list (string * value))
  : list (string * value) :=
  match fs with
  | [] => [(k, v)]
  | (k', v') :: fs' =>
      if String.eqb k k' then (k, v) :: fs' else (k', v') :: store k v fs'
  end.

(** An array index in canonical form: ["0"], ["1"], ..., without leading
    zeros. *)
Definition parseIndex (s : string) : option nat :=
  match Str.chars s with
  | [] => None
  | a :: l =>
      if forallb Str.isDigit (a :: l)
         && (negb (Ascii.eqb a "0"%char) || match l with [] => true | _ => false end)
      then Some (Z.to_nat (fst (fst (Str.decPrefix (a :: l) 0 0))))
      else None
  end.

(** [part in current] *)
Definition hasProperty (part : string) (current : value) : res bool :=
  match current with
  | VObj fs => Ret (match lookup part fs with Some _ => true | None => false end)
  | VArr items =>
      Ret (match parseIndex part with
           | Some i => (i <? List.length items)%nat
           | None => String.eqb part "length"
           end)
  | _ => Thrown "TypeError: cannot use 'in' operator"
  end.

(** [current[part]] *)
Definition getProperty (current : value) (part : string) : res value :=
  match current with
  | VObj fs => Ret (match lookup part fs with Some v => v | None => VUndef end)
  | VArr items =>
      Ret (match parseIndex part with
           | Some i => nth i items VUndef
           | None =>
               if String.eqb part "length" then VNum (ofNat (List.length items))
               else VUndef
           end)
  | VStr s =>
      Ret (match parseIndex part with
           | Some i =>
               match nth_error (Str.chars s) i with
               | Some c => VStr (String c EmptyString)
               | None => VUndef
               end
           | None =>
               if String.eqb part "length" then VNum (ofNat (String.length s))
               else VUndef
           end)
  | VUndef | VNull => Thrown "TypeError: cannot read properties"
  | VBool _ | VNum _ => Ret VUndef
  end.

Fixpoint setNth (i : nat) (v : value) (items : list value) : list value :=
  match i, items with
  | O, _ :: items' => v :: items'
  | O, [] => [v]
  | S i', x :: items' => x :: setNth i' v items'
  | S _, [] => []
  end.

(** [current[part] = v], in strict mode. *)
Definition setProperty (current : value) (part : string) (v : value) : res value :=
  match current with
  | VObj fs => Ret (VObj (store part v fs))
  | VArr items =>
      match parseIndex part with
      | Some i =>
          if (i <=? List.length items)%nat then Ret (VArr (setNth i v items))
          else Beyond
      | None => Beyond
      end
  | VUndef | VNull => Thrown "TypeError: cannot set properties"
  | _ => Thrown "TypeError: cannot create property"
  end.

(** [JSON.parse(JSON.stringify(v))]: a number that is not finite becomes
    [null], an [undefined] member of an object is dropped and an
    [undefined] item of an array becomes [null]. *)
Fixpoint clone (v : value) : value :=
  match v with
  | VUndef => VNull
  | VNull => VNull
  | VBool b => VBool b
  | VNum (Fin q) => VNum (Fin q)
  | VNum _ => VNull
  | VStr s => VStr s
  | VArr items => VArr (map clone items)
  | VObj fs =>
      VObj ((fix members (fs : list (string * value)) : list (string * value) :=
               match fs with
               | [] => []
               | (k, VUndef) :: fs' => members fs'
               | (k, v') :: fs' => (k, clone v') :: members fs'
               end) fs)
  end.

(** [getNestedProperty(obj, path)] *)
Fixpoint getNested (current : value) (parts : list string) : res value :=
  match parts with
  | [] => Ret current
  | part :: parts' =>
      match current with
      | VNull | VUndef => Ret VUndef
      | _ =>
          let* has := hasProperty part current in
          if negb has then Ret VUndef
          else let* next := getProperty current part in getNested next parts'
      end
  end.

Definition getNestedProperty (obj : value) (path : string) : res value :=
  getNested obj (Str.split "." path).

(** [setNestedProperty(obj, path, value)].  The sources walk references and
    assign in place; on a tree the updated child is stored back into its
    parent. *)
Fixpoint setNested (current : value) (parts : list string) (v : value) : res value :=
  match parts with
  | [] => Ret current
  | [last] => setProperty current last v
  | part :: parts' =>
      let* has := hasProperty part current in
      let* current1 :=
        (if has then Ret current else setProperty current part (VObj [])) in
      let* next := getProperty current1 part in
      let* next' := setNested next parts' v in
      setProperty current1 part next'
  end.

Definition setNestedProperty (obj : value) (path : string) (v : value) : res value :=
  setNested obj (Str.split "." path) v.

End Json.
Export Json.

(* ================================================================= *)
(** ** The timeline ([@flare/shared]) *)
(* ================================================================= *)

Module Timeline.
Local Open Scope string_scope.

Inductive ElementType : Type :=
| RECTANGLE | CIRCLE | ELLIPSE | POLYGON | PATH | TEXT | IMAGE | GROUP.

Definition ElementType_name (t : ElementType) : string :=
  match t with
  | RECTANGLE => "rectangle"
  | CIRCLE => "circle"
  | ELLIPSE => "ellipse"
  | POLYGON => "polygon"
  | PATH => "path"
  | TEXT => "text"
  | IMAGE => "image"
  | GROUP => "group"
  end.

Record Keyframe : Type := {
  kf_frame : num;
  kf_value : value;
  kf_easing : option string
}.

Record PropertyAnimation : Type := {
  property : string;
  keyframes : list Keyframe
}.

#[local] Unset Elimination Schemes.
Inductive Element : Type := mkElement {
  el_id : string;
  el_type : ElementType;
  properties : value;
  children : option (list Element);
  animations : option (list PropertyAnimation)
}.
#[local] Set Elimination Schemes.

Record Frame : Type := {
  startFrame : num;
  fr_duration : num;
  elements : list Element
}.

Record Layer : Type := {
  la_id : string;
  la_type : string;
  frames : list Frame;
  locked : bool;
  visible : bool
}.

Record Timeline : Type := {
  version : string;
  frameRate : num;
  duration : num;
  dimensions : value;
  layers : list Layer;
  scripts : list value
}.

(** The object a typed record stands for, with the optional members left
    out when absent. *)
Definition optional (k : string) (o : option value) : list (string * value) :=
  match o with
  | Some v => [(k, v)]
  | None => []
  end.

Definition Keyframe_object (k : Keyframe) : value :=
  VObj ([("frame", VNum (kf_frame k)); ("value", kf_value k)]
        ++ optional "easing" (option_map VStr (kf_easing k))).

Definition PropertyAnimation_object (a : PropertyAnimation) : value :=
  VObj [("property", VStr (property a));
        ("keyframes", VArr (map Keyframe_object (keyframes a)))].

Fixpoint Element_object (e : Element) : value :=
  VObj ([("id", VStr (el_id e));
         ("type", VStr (ElementType_name (el_type e)));
         ("properties", properties e)]
        ++ optional "children"
             (option_map (fun cs => VArr (map Element_object cs)) (children e))
        ++ optional "animations"
             (option_map (fun l => VArr (map PropertyAnimation_object l))
                (animations e))).

Definition Frame_object (f : Frame) : value :=
  VObj [("startFrame", VNum (startFrame f));
        ("duration", VNum (fr_duration f));
        ("elements", VArr (map Element_object (elements f)))].

Definition Layer_object (l : Layer) : value :=
  VObj [("id", VStr (la_id l));
        ("type", VStr (la_type l));
        ("frames", VArr (map Frame_object (frames l)));
        ("locked", VBool (locked l));
        ("visible", VBool (visible l))].

Definition Timeline_object (t : Timeline) : value :=
  VObj [("version", VStr (version t));
        ("frameRate", VNum (frameRate t));
        ("duration", VNum (duration t));
        ("dimensions", dimensions t);
        ("layers", VArr (map Layer_object (layers t)));
        ("scripts", VArr (scripts t))].

End Timeline.
Export Timeline.

(* ================================================================= *)
(** ** Path-based animation ([pathing]) *)
(* ================================================================= *)

Module Pathing.
Local Open Scope string_scope.

(** A coordinate read from parsed parameters is a number or [undefined]. *)
Definition coord : Type := option num.

(** In arithmetic [undefined] is [NaN]. *)
Definition cnum (c : coord) : num :=
  match c with
  | Some n => n
  | None => NaN
  end.

Inductive PathCommandType : Type :=
| MOVE_TO | LINE_TO | CURVE_TO | QUAD_TO | ARC_TO | CLOSE.

Inductive AnyPathCommand : Type :=
| MoveToCommand (x y : coord)
| LineToCommand (x y : coord)
| CurveToCommand (x1 y1 x2 y2 x y : coord)
| QuadToCommand (x1 y1 x y : coord)
| ArcToCommand (rx ry rotation : coord) (largeArc sweep : bool) (x y : coord)
| CloseCommand.

Definition command_type (c : AnyPathCommand) : PathCommandType :=
  match c with
  | MoveToCommand _ _ => MOVE_TO
  | LineToCommand _ _ => LINE_TO
  | CurveToCommand _ _ _ _ _ _ => CURVE_TO
  | QuadToCommand _ _ _ _ => QUAD_TO
  | ArcToCommand _ _ _ _ _ _ _ => ARC_TO
  | CloseCommand => CLOSE
  end.

Record Path : Type := {
  path_id : string;
  commands : list AnyPathCommand;
  closed : bool
}.

Record Point : Type := { px : num; py : num }.

Record PathAnimationOptions : Type := {
  pathId : string;
  startOffset : num;
  endOffset : num;
  orient : bool;
  alignOrigin : option Point;
  pa_easing : string
}.

Record PathAnimation : Type := {
  elementId : string;
  pa_startFrame : num;
  pa_duration : num;
  options : PathAnimationOptions
}.

Record PathManager : Type := {
  paths : gmap string Path;
  pathAnimations : list PathAnimation
}.

Inductive PathSegment : Type :=
| SegLine (x0 y0 x1 y1 : coord) (length : num)
| SegCubic (x0 y0 x1 y1 x2 y2 x3 y3 : coord) (length : num)
| SegQuadratic (x0 y0 x1 y1 x2 y2 : coord) (length : num)
| SegArc (x0 y0 x1 y1 rx ry rotation : coord) (largeArc sweep : bool) (length : num).

Definition seg_length (s : PathSegment) : num :=
  match s with
  | SegLine _ _ _ _ l => l
  | SegCubic _ _ _ _ _ _ _ _ l => l
  | SegQuadratic _ _ _ _ _ _ l => l
  | SegArc _ _ _ _ _ _ _ _ _ l => l
  end.

Section WithMath.
Context {M : MathLib}.
Local Open Scope num_scope.

Definition registerPath (path : Path) (pm : PathManager) : PathManager :=
  {| paths := <[path_id path := path]> (paths pm);
     pathAnimations := pathAnimations pm |}.

Definition registerPathAnimation (animation : PathAnimation) (pm : PathManager)
  : PathManager :=
  {| paths := paths pm;
     pathAnimations := pathAnimations pm ++ [animation] |}.

Definition distance (x1 y1 x2 y2 : num) : num :=
  let dx := x2 - x1 in
  let dy := y2 - y1 in
  Math_sqrt (dx * dx + dy * dy).

(** The sampling loop of [estimateCubicBezierLength], for [i] from
    [samples - n + 1] to [samples]. *)
Fixpoint cubicSamples (n : nat) (x0 y0 x1 y1 x2 y2 x3 y3 : num)
    (length prevX prevY : num) : num :=
  match n with
  | O => length
  | S n' =>
      let i := ofNat (10 - n') in
      let t := i / #10 in
      let mt := #1 - t in
      let mt2 := mt * mt in
      let mt3 := mt2 * mt in
      let t2 := t * t in
      let t3 := t2 * t in
      let x := mt3 * x0 + #3 * mt2 * t * x1 + #3 * mt * t2 * x2 + t3 * x3 in
      let y := mt3 * y0 + #3 * mt2 * t * y1 + #3 * mt * t2 * y2 + t3 * y3 in
      cubicSamples n' x0 y0 x1 y1 x2 y2 x3 y3
        (length + distance prevX prevY x y) x y
  end.

Definition estimateCubicBezierLength (x0 y0 x1 y1 x2 y2 x3 y3 : num) : num :=
  cubicSamples 10 x0 y0 x1 y1 x2 y2 x3 y3 #0 x0 y0.

Fixpoint quadraticSamples (n : nat) (x0 y0 x1 y1 x2 y2 : num)
    (length prevX prevY : num) : num :=
  match n with
  | O => length
  | S n' =>
      let i := ofNat (10 - n') in
      let t := i / #10 in
      let mt := #1 - t in
      let mt2 := mt * mt in
      let t2 := t * t in
      let x := mt2 * x0 + #2 * mt * t * x1 + t2 * x2 in
      let y := mt2 * y0 + #2 * mt * t * y1 + t2 * y2 in
      quadraticSamples n' x0 y0 x1 y1 x2 y2
        (length + distance prevX prevY x y) x y
  end.

Definition estimateQuadraticBezierLength (x0 y0 x1 y1 x2 y2 : num) : num :=
  quadraticSamples 10 x0 y0 x1 y1 x2 y2 #0 x0 y0.

(** Chord length times 1.5; the radii and flags are not used. *)
Definition estimateArcLength (x0 y0 x1 y1 : num) : num :=
  distance x0 y0 x1 y1 * #1.5.

(** The loop of [calculatePathSegments]; [currentX], [currentY], [startX]
    and [startY] are its running variables. *)
Fixpoint segmentsFrom (cmds : list AnyPathCommand)
    (currentX currentY startX startY : coord) : list PathSegment :=
  match cmds with
  | [] => []
  | MoveToCommand x y :: cmds' => segmentsFrom cmds' x y x y
  | LineToCommand x y :: cmds' =>
      SegLine currentX currentY x y
        (distance (cnum currentX) (cnum currentY) (cnum x) (cnum y))
      :: segmentsFrom cmds' x y startX startY
  | CurveToCommand x1 y1 x2 y2 x y :: cmds' =>
      SegCubic currentX currentY x1 y1 x2 y2 x y
        (estimateCubicBezierLength (cnum currentX) (cnum currentY)
           (cnum x1) (cnum y1) (cnum x2) (cnum y2) (cnum x) (cnum y))
      :: segmentsFrom cmds' x y startX startY
  | QuadToCommand x1 y1 x y :: cmds' =>
      SegQuadratic currentX currentY x1 y1 x y
        (estimateQuadraticBezierLength (cnum currentX) (cnum currentY)
           (cnum x1) (cnum y1) (cnum x) (cnum y))
      :: segmentsFrom cmds' x y startX startY
  | ArcToCommand rx ry rotation largeArc sweep x y :: cmds' =>
      SegArc currentX currentY x y rx ry rotation largeArc sweep
        (estimateArcLength (cnum currentX) (cnum currentY) (cnum x) (cnum y))
      :: segmentsFrom cmds' x y startX startY
  | CloseCommand :: cmds' =>
      SegLine currentX currentY startX startY
        (distance (cnum currentX) (cnum currentY) (cnum startX) (cnum startY))
      :: segmentsFrom cmds' startX startY startX startY
  end.

Definition calculatePathSegments (path : Path) : list PathSegment :=
  segmentsFrom (commands path) (Some #0) (Some #0) (Some #0) (Some #0).

Definition getPointOnCubicBezier (x0 y0 x1 y1 x2 y2 x3 y3 t : num)
  : Point * option num :=
  let mt := #1 - t in
  let mt2 := mt * mt in
  let mt3 := mt2 * mt in
  let t2 := t * t in
  let t3 := t2 * t in
  let x := mt3 * x0 + #3 * mt2 * t * x1 + #3 * mt * t2 * x2 + t3 * x3 in
  let y := mt3 * y0 + #3 * mt2 * t * y1 + #3 * mt * t2 * y2 + t3 * y3 in
  let dx := #3 * mt2 * (x1 - x0) + #6 * mt * t * (x2 - x1) + #3 * t2 * (x3 - x2) in
  let dy := #3 * mt2 * (y1 - y0) + #6 * mt * t * (y2 - y1) + #3 * t2 * (y3 - y2) in
  ({| px := x; py := y |}, Some (Math_atan2 dy dx)).

Definition getPointOnQuadraticBezier (x0 y0 x1 y1 x2 y2 t : num)
  : Point * option num :=
  let mt := #1 - t in
  let mt2 := mt * mt in
  let t2 := t * t in
  let x := mt2 * x0 + #2 * mt * t * x1 + t2 * x2 in
  let y := mt2 * y0 + #2 * mt * t * y1 + t2 * y2 in
  let dx := #2 * (mt * (x1 - x0) + t * (x2 - x1)) in
  let dy := #2 * (mt * (y1 - y0) + t * (y2 - y1)) in
  ({| px := x; py := y |}, Some (Math_atan2 dy dx)).

(** [getPointOnSegment]: the point and the tangent angle ([None] is
    [null]).  The Bézier branches require every coordinate to be defined. *)
Definition getPointOnSegment (segment : PathSegment) (offset : num)
  : Point * option num :=
  let offset := JsNum.max #0 (JsNum.min #1 offset) in
  match segment with
  | SegLine x0 y0 x1 y1 _ =>
      ({| px := cnum x0 + (cnum x1 - cnum x0) * offset;
          py := cnum y0 + (cnum y1 - cnum y0) * offset |},
       Some (Math_atan2 (cnum y1 - cnum y0) (cnum x1 - cnum x0)))
  | SegCubic (Some x0) (Some y0) (Some x1) (Some y1)
             (Some x2) (Some y2) (Some x3) (Some y3) _ =>
      getPointOnCubicBezier x0 y0 x1 y1 x2 y2 x3 y3 offset
  | SegCubic x0 y0 _ _ _ _ _ _ _ =>
      ({| px := cnum x0; py := cnum y0 |}, None)
  | SegQuadratic (Some x0) (Some y0) (Some x1) (Some y1) (Some x2) (Some y2) _ =>
      getPointOnQuadraticBezier x0 y0 x1 y1 x2 y2 offset
  | SegQuadratic x0 y0 _ _ _ _ _ =>
      ({| px := cnum x0; py := cnum y0 |}, None)
  | SegArc x0 y0 x1 y1 _ _ _ _ _ _ =>
      ({| px := cnum x0 + (cnum x1 - cnum x0) * offset;
          py := cnum y0 + (cnum y1 - cnum y0) * offset |},
       None)
  end.

(** The search loop of [getPointAtOffset]. *)
Fixpoint findSegment (segs : list PathSegment) (distanceTraveled targetDistance : num)
  : option (Point * option num) :=
  match segs with
  | [] => None
  | segment :: segs' =>
      if distanceTraveled + seg_length segment >=? targetDistance then
        let segmentOffset := (targetDistance - distanceTraveled) / seg_length segment in
        Some (getPointOnSegment segment segmentOffset)
      else findSegment segs' (distanceTraveled + seg_length segment) targetDistance
  end.

(** Coordinates of the last command for the fallback of
    [getPointAtOffset]: ['x' in lastCommand ? lastCommand.x : 0]. *)
Definition command_xy (c : AnyPathCommand) : coord * coord :=
  match c with
  | MoveToCommand x y => (x, y)
  | LineToCommand x y => (x, y)
  | CurveToCommand _ _ _ _ x y => (x, y)
  | QuadToCommand _ _ x y => (x, y)
  | ArcToCommand _ _ _ _ _ x y => (x, y)
  | CloseCommand => (Some #0, Some #0)
  end.

Definition getPointAtOffset (path : Path) (offset : num) : res (Point * option num) :=
  let pathSegments := calculatePathSegments path in
  let totalLength := fold_left (fun sum segment => sum + seg_length segment) pathSegments #0 in
  let targetDistance := totalLength * JsNum.max #0 (JsNum.min #1 offset) in
  match findSegment pathSegments #0 targetDistance with
  | Some r => Ret r
  | None =>
      match last (commands path) with
      | Some lastCommand =>
          let '(x, y) := command_xy lastCommand in
          Ret ({| px := cnum x; py := cnum y |}, None)
      | None => Thrown "TypeError: cannot use 'in' operator"
      end
  end.

(** The easing switch of [PathManager.applyEasing]. *)
Definition applyEasing (progress : num) (easingName : string) : num :=
  if String.eqb easingName "linear" then progress
  else if String.eqb easingName "ease-in" then progress * progress
  else if String.eqb easingName "ease-out" then progress * (#2 - progress)
  else if String.eqb easingName "ease-in-out" then
    (if progress <? #0.5 then #2 * progress * progress
     else - #1 + (#4 - #2 * progress) * progress)
  else progress.

End WithMath.
End Pathing.
Export Pathing.

(* ================================================================= *)
(** ** SVG path strings ([parseSVGPath]) *)
(* ================================================================= *)

Module SvgPath.
Local Open Scope string_scope.

Definition flush (cur : option (list ascii)) : list string :=
  match cur with
  | Some c => [Str.ofChars (rev c)]
  | None => []
  end.

(** The matches of the global pattern of [parseSVGPath], a letter followed
    by the longest run of characters that are not letters: each match
    starts at a letter and runs up to the next letter; [cur] is the match
    under construction, reversed. *)
Fixpoint matches (l : list ascii) (cur : option (list ascii)) : list string :=
  match l with
  | [] => flush cur
  | a :: l' =>
      if Str.isLetter a then flush cur ++ matches l' (Some [a])
      else matches l' (option_map (cons a) cur)
  end.

(** The match array, or the empty array when there is no match. *)
Definition pathData (pathString : string) : list string :=
  matches (Str.chars pathString) None.

Definition isSeparator (a : ascii) : bool :=
  Str.isSpace a || Ascii.eqb a ","%char.

(** [s.split(/[\s,]+/)]; [inRun] tells that the previous character was a
    separator. *)
Fixpoint splitRuns (l : list ascii) (cur : list ascii) (inRun : bool) : list string :=
  match l with
  | [] => [Str.ofChars (rev cur)]
  | a :: l' =>
      if isSeparator a then
        (if inRun then splitRuns l' cur true
         else Str.ofChars (rev cur) :: splitRuns l' [] true)
      else splitRuns l' (a :: cur) false
  end.

(** [segment.substring(1).trim().split(/[\s,]+/).map(parseFloat)] *)
Definition paramsOf (segment : string) : list num :=
  map Str.parseFloat
    (splitRuns (Str.trimChars (tl (Str.chars segment))) [] false).

(** [params[i]]: [None] is [undefined]. *)
Definition param (params : list num) (i : nat) : coord := nth_error params i.

(** [params[i] !== 0] *)
Definition notZero (c : coord) : bool :=
  match c with
  | Some n => negb (JsNum.eqb n (ofZ 0))
  | None => true
  end.

(** The [switch] on the command letter: the command pushed for a segment,
    if any. *)
Definition commandOf (segment : string) : option AnyPathCommand :=
  let params := paramsOf segment in
  match Str.chars segment with
  | "M"%char :: _ => Some (MoveToCommand (param params 0) (param params 1))
  | "L"%char :: _ => Some (LineToCommand (param params 0) (param params 1))
  | "C"%char :: _ =>
      Some (CurveToCommand (param params 0) (param params 1) (param params 2)
              (param params 3) (param params 4) (param params 5))
  | "Q"%char :: _ =>
      Some (QuadToCommand (param params 0) (param params 1) (param params 2)
              (param params 3))
  | "A"%char :: _ =>
      Some (ArcToCommand (param params 0) (param params 1) (param params 2)
              (notZero (param params 3)) (notZero (param params 4))
              (param params 5) (param params 6))
  | "Z"%char :: _ => Some CloseCommand
  | _ => None
  end.

Definition parseSVGPath (pathString : string) : list AnyPathCommand :=
  omap commandOf (pathData pathString).

(** The letters the [switch] has a case for. *)
Definition recognised (segment : string) : bool :=
  match Str.chars segment with
  | a :: _ =>
      existsb (Ascii.eqb a)
        ["M"%char; "L"%char; "C"%char; "Q"%char; "A"%char; "Z"%char]
  | [] => false
  end.

End SvgPath.

(* ================================================================= *)
(** ** The property interpolator ([AnimationEngine.applyAnimations]) *)
(* ================================================================= *)

Module Interpolator.
Section WithMath.
Context {M : MathLib}.
Local Open Scope string_scope.
Local Open Scope num_scope.

(** [parseColor] inside [interpolateColor]. *)
Definition parseColor (hex : string) : list num :=
  let hex := Str.removeFirstHash (Str.chars hex) in
  match hex with
  | [h0; h1; h2] =>
      [ Str.parseInt16 (Str.ofChars [h0; h0]);
        Str.parseInt16 (Str.ofChars [h1; h1]);
        Str.parseInt16 (Str.ofChars [h2; h2]) ]
  | _ =>
      let hex := Str.ofChars hex in
      [ Str.parseInt16 (Str.substring 0 2 hex);
        Str.parseInt16 (Str.substring 2 4 hex);
        Str.parseInt16 (Str.substring 4 6 hex) ]
  end.

Definition interpolateColor (color1 color2 : string) (progress : num) : string :=
  let rgb1 := parseColor color1 in
  let rgb2 := parseColor color2 in
  let result :=
    map (fun '(component, target) =>
           let interpolated := JsNum.round (component + (target - component) * progress) in
           JsNum.max #0 (JsNum.min #255 interpolated))
        (combine rgb1 rgb2) in
  "#" ++ String.concat "" (map (fun c => Str.padStart2 (Str.ofNum16 c)) result).

(** The search for the keyframes that bracket the current frame: the first
    adjacent pair with
    [startFrame + k_i.frame <= currentFrame <= startFrame + k_(i+1).frame]. *)
Fixpoint findBracket (currentFrame frameStart : num) (kfs : list Keyframe)
  : option (Keyframe * Keyframe) :=
  match kfs with
  | currentKeyframe :: kfs' =>
      match kfs' with
      | nextKeyframe :: _ =>
          let absoluteCurrentFrame := frameStart + kf_frame currentKeyframe in
          let absoluteNextFrame := frameStart + kf_frame nextKeyframe in
          if (currentFrame >=? absoluteCurrentFrame)
             && (currentFrame <=? absoluteNextFrame)
          then Some (currentKeyframe, nextKeyframe)
          else findBracket currentFrame frameStart kfs'
      | [] => None
      end
  | [] => None
  end.

(** [(currentFrame - absoluteStartFrame) / (absoluteEndFrame - absoluteStartFrame)] *)
Definition progressOf (currentFrame frameStart : num) (startKeyframe endKeyframe : Keyframe)
  : num :=
  let absoluteStartFrame := frameStart + kf_frame startKeyframe in
  let absoluteEndFrame := frameStart + kf_frame endKeyframe in
  (currentFrame - absoluteStartFrame) / (absoluteEndFrame - absoluteStartFrame).

(** [startKeyframe.easing || 'linear'] *)
Definition easingName (k : Keyframe) : string :=
  match kf_easing k with
  | Some e => if String.eqb e "" then "linear" else e
  | None => "linear"
  end.

(** The value an animation writes, by the types of the two keyframe
    values; [None] when the pairing is not interpolated. *)
Definition interpolateValue (startValue endValue : value) (easedProgress : num)
  : option value :=
  match startValue, endValue with
  | VNum s, VNum e => Some (VNum (s + (e - s) * easedProgress))
  | VStr s, VStr e =>
      if Str.startsWithHash s && Str.startsWithHash e
      then Some (VStr (interpolateColor s e easedProgress))
      else None
  | VArr ss, VArr es =>
      if (List.length ss =? List.length es)%nat then
        Some (VArr (map (fun '(start, end_) =>
                           match start, end_ with
                           | VNum a, VNum b => VNum (a + (b - a) * easedProgress)
                           | _, _ => end_
                           end)
                        (combine ss es)))
      else None
  | _, _ => None
  end.

(** The body of the loop over [element.animations]: one animation applied
    to the copy [animatedElement]. *)
Definition applyAnimation (currentFrame : num) (frame : Frame)
    (animatedElement : value) (animation : PropertyAnimation) : res value :=
  match findBracket currentFrame (startFrame frame) (keyframes animation) with
  | None => Ret animatedElement
  | Some (startKeyframe, endKeyframe) =>
      let progress := progressOf currentFrame (startFrame frame) startKeyframe endKeyframe in
      let easingFunction := Easing.getEasingFunction (easingName startKeyframe) in
      let easedProgress := easingFunction progress in
      match interpolateValue (kf_value startKeyframe) (kf_value endKeyframe) easedProgress with
      | None => Ret animatedElement
      | Some v =>
          let* props := Json.getProperty animatedElement "properties" in
          let* props' := Json.setNestedProperty props (property animation) v in
          Json.setProperty animatedElement "properties" props'
      end
  end.

(** [applyAnimations(elements, frame)]: every element is first copied
    through JSON, then its animations write into the copy. *)
Definition applyAnimations (currentFrame : num) (elements : list Element)
    (frame : Frame) : res (list value) :=
  rmap (fun element =>
          let animatedElement := Json.clone (Element_object element) in
          match animations element with
          | None => Ret animatedElement
          | Some anims => rfold (applyAnimation currentFrame frame) anims animatedElement
          end)
       elements.

(** [findActiveFrame(layer)] *)
Definition findActiveFrame (currentFrame : num) (layer : Layer) : option Frame :=
  List.find (fun frame =>
               let frameEnd := startFrame frame + fr_duration frame in
               (currentFrame >=? startFrame frame) && (currentFrame <? frameEnd))
            (frames layer).

(** Number conversion of the operand of [*] in [applyPathAnimations]; the
    conversion of strings and objects is outside the model. *)
Definition toNumber (v : value) : res num :=
  match v with
  | VNum n => Ret n
  | VUndef => Ret NaN
  | VNull => Ret #0
  | VBool b => Ret (if b then #1 else #0)
  | _ => Beyond
  end.

(** Index of the element the [Map] of [applyPathAnimations] holds for an
    id: the last one with that id. *)
Fixpoint lastWithId (id : string) (els : list value) (i : nat) (found : option nat)
  : option nat :=
  match els with
  | [] => found
  | e :: els' =>
      let found' :=
        match e with
        | VObj fs =>
            match Json.lookup "id" fs with
            | Some (VStr s) => if String.eqb s id then Some i else found
            | _ => found
            end
        | _ => found
        end in
      lastWithId id els' (S i) found'
  end.

(** The writes of one path animation to its element. *)
Definition placeOnPath (animation : PathAnimation) (point : Point) (angle : option num)
    (element : value) : res value :=
  let alignX := match alignOrigin (options animation) with
                | Some p => if JsNum.truthy (px p) then px p else #0
                | None => #0
                end in
  let alignY := match alignOrigin (options animation) with
                | Some p => if JsNum.truthy (py p) then py p else #0
                | None => #0
                end in
  let* props0 := Json.getProperty element "properties" in
  let* element := (if Json.truthy props0 then Ret element
                   else Json.setProperty element "properties" (VObj [])) in
  let* props := Json.getProperty element "properties" in
  let* width := Json.getProperty props "width" in
  let* w := toNumber (Json.orElse width (VNum #0)) in
  let* props := Json.setProperty props "x" (VNum (px point - w * alignX)) in
  let* height := Json.getProperty props "height" in
  let* h := toNumber (Json.orElse height (VNum #0)) in
  let* props := Json.setProperty props "y" (VNum (py point - h * alignY)) in
  let* props :=
    (match angle with
     | Some a =>
         if orient (options animation)
         then Json.setProperty props "rotation" (VNum (a * (#180 / Math_PI)))
         else Ret props
     | None => Ret props
     end) in
  Json.setProperty element "properties" props.

(** [PathManager.applyPathAnimations(elements, currentFrame)] *)
Definition applyPathAnimations (pm : PathManager) (elements : list value)
    (currentFrame : num) : res (list value) :=
  rfold (fun elements animation =>
           if (currentFrame >=? pa_startFrame animation)
              && (currentFrame <? pa_startFrame animation + pa_duration animation)
           then
             match lastWithId (elementId animation) elements 0 None with
             | None => Ret elements
             | Some i =>
                 match paths pm !! pathId (options animation) with
                 | None => Ret elements
                 | Some path =>
                     let timeProgress :=
                       (currentFrame - pa_startFrame animation) / pa_duration animation in
                     let name := pa_easing (options animation) in
                     let easedTimeProgress :=
                       applyEasing timeProgress
                         (if String.eqb name "" then "linear" else name) in
                     let pathOffset :=
                       startOffset (options animation)
                       + (endOffset (options animation) - startOffset (options animation))
                         * easedTimeProgress in
                     let* pa := getPointAtOffset path pathOffset in
                     let* element' :=
                       placeOnPath animation (fst pa) (snd pa) (nth i elements VUndef) in
                     Ret (<[i := element']> elements)
                 end
             end
           else Ret elements)
        (pathAnimations pm) elements.

(** [getCurrentElements()] *)
Definition getCurrentElements (timeline : Timeline) (pm : PathManager)
    (currentFrame : num) : res (list value) :=
  rfold (fun elements layer =>
           if negb (visible layer) then Ret elements
           else
             match findActiveFrame currentFrame layer with
             | None => Ret elements
             | Some activeFrame =>
                 let* animatedElements :=
                   applyAnimations currentFrame (Timeline.elements activeFrame) activeFrame in
                 let* animatedElements :=
                   applyPathAnimations pm animatedElements currentFrame in
                 Ret (elements ++ animatedElements)%list
             end)
        (layers timeline) [].

End WithMath.
End Interpolator.

(* ================================================================= *)
(** ** Groups and sequences ([groups]) *)
(* ================================================================= *)

Module Groups.

Inductive AnimationGroupType : Type := PARALLEL | SEQUENCE | STAGGER.

Record AnimationGroup : Type := {
  gr_id : string;
  gr_type : AnimationGroupType;
  elementIds : list string;
  gr_properties : list string;
  gr_startFrame : num;
  gr_duration : num;
  staggerDelay : option num;
  gr_easing : option string
}.

Record AnimationStep : Type := {
  groupId : string;
  waitForComplete : bool;
  onComplete : option string
}.

Record AnimationSequence : Type := {
  seq_id : string;
  steps : list AnimationStep;
  repeat : num;
  autoPlay : bool
}.

(** The runtime state of one playback, an object shared by the
    [activeSequences] map and by the completion listeners of its steps.
    The two counters are natural numbers; the sources count in a [number],
    which is exact up to 2^53. *)
Record ActiveSequence : Type := {
  sequence : AnimationSequence;
  currentStep : nat;
  iterations : nat
}.

End Groups.
Export Groups.

(* ================================================================= *)
(** ** Event triggers ([events]) *)
(* ================================================================= *)

Module Events.
Local Open Scope string_scope.

Inductive FrameTriggerType : Type := FRAME_ENTER | FRAME_EXIT.
Inductive RangeTriggerType : Type := RANGE_ENTER | RANGE_EXIT.
Inductive PlaybackTriggerType : Type := PLAY | PAUSE | STOP | LOOP.
Inductive InteractionTriggerType : Type := CLICK | HOVER | DRAG_START | DRAG_END.

Definition PlaybackTriggerType_name (t : PlaybackTriggerType) : string :=
  match t with
  | PLAY => "play"
  | PAUSE => "pause"
  | STOP => "stop"
  | LOOP => "loop"
  end.

Definition InteractionTriggerType_name (t : InteractionTriggerType) : string :=
  match t with
  | CLICK => "click"
  | HOVER => "hover"
  | DRAG_START => "dragStart"
  | DRAG_END => "dragEnd"
  end.

(** The members every trigger has; [parameters] is [VUndef] when absent. *)
Record EventTrigger : Type := {
  tr_id : string;
  action : string;
  parameters : value
}.

(** [AnyEventTrigger], a union tagged by [type]. *)
Inductive AnyEventTrigger : Type :=
| FrameEventTrigger (base : EventTrigger) (type : FrameTriggerType) (frame : num)
| RangeEventTrigger (base : EventTrigger) (type : RangeTriggerType)
    (startFrame endFrame : num)
| PlaybackEventTrigger (base : EventTrigger) (type : PlaybackTriggerType)
| InteractionEventTrigger (base : EventTrigger) (type : InteractionTriggerType)
    (elementId : string)
| CustomEventTrigger (base : EventTrigger) (eventName : string).

Definition trigger_base (t : AnyEventTrigger) : EventTrigger :=
  match t with
  | FrameEventTrigger b _ _ => b
  | RangeEventTrigger b _ _ _ => b
  | PlaybackEventTrigger b _ => b
  | InteractionEventTrigger b _ _ => b
  | CustomEventTrigger b _ => b
  end.

(** A listener.  Function identity is equality of these descriptions.
    - [External name throws] is a function supplied by the host program: it
      is called with the event data and returns, or throws when [throws].
    - The nine default actions are the listeners installed by
      [setupDefaultEventActions].
    - [GroupCompletion] is the frame listener [playGroup] creates and
      [StepCompletion] the [onComplete] closure of [executeSequenceStep];
      [closure] numbers the function objects in order of creation, and
      [activeSequence] is the captured runtime object. *)
Inductive EventHandler : Type :=
| External (name : string) (throws : bool)
| GotoFrame
| GotoAndPlay
| GotoAndStop
| Play
| Pause
| Stop
| TogglePlay
| PlaySequence
| StopSequence
| GroupCompletion (closure : nat) (groupId : string)
| StepCompletion (closure : nat) (sequenceId : string) (currentStep : nat)
    (onComplete : option string) (activeSequence : nat).

#[export] Instance EventHandler_eq_dec : EqDecision EventHandler.
Proof. solve_decision. Defined.

Record EventTriggerManager : Type := {
  triggers : list AnyEventTrigger;
  handlers : gmap string (list EventHandler);
  activeRangeTriggers : gset string;
  em_currentFrame : num;
  em_previousFrame : num
}.

(** [new EventTriggerManager()] *)
Definition newEventTriggerManager : EventTriggerManager :=
  {| triggers := [];
     handlers := ∅;
     activeRangeTriggers := ∅;
     em_currentFrame := ofZ 0;
     em_previousFrame := ofZ 0 |}.

End Events.
Export Events.

(* ================================================================= *)
(** ** The engine ([AnimationEngine] with its [EventTriggerManager]) *)
(* ================================================================= *)

(** How a run of a method ends: normally, with an exception ([Abrupt],
    keeping the mutations made so far), outside the model, or with the
    recursion budget exhausted. *)
Inductive outcome (S : Type) : Type :=
| Normal (s : S)
| Abrupt (e : string) (s : S)
| Unmodelled
| OutOfFuel.
Arguments Normal {S} s.
Arguments Abrupt {S} e s.
Arguments Unmodelled {S}.
Arguments OutOfFuel {S}.

Definition andThen {S : Type} (o : outcome S) (k : S -> outcome S) : outcome S :=
  match o with
  | Normal s => k s
  | _ => o
  end.

Definition sequ {S : Type} (m1 m2 : S -> outcome S) : S -> outcome S :=
  fun s => andThen (m1 s) m2.

Notation "m1 ;; m2" := (sequ m1 m2)
  (at level 100, m2 at level 200, right associativity, only parsing).

Module Engine.
Local Open Scope string_scope.
Local Open Scope list_scope.

(** What the host can observe of a run.  [Dispatched] records a call of
    [dispatchEvent]; it has no counterpart in the sources and serves to
    state which events were dispatched. *)
Inductive Effect : Type :=
| HandlerCalled (name : string) (data : value)
| ConsoleError (message : string)
| Dispatched (event : string) (data : value).

(** The host: its two clocks, which stand still while a method runs, the
    pending [requestAnimationFrame] callbacks, and the effects so far. *)
Record Host : Type := {
  performance_now : num;
  Date_now : num;
  nextRequest : nat;
  frameRequests : list nat;
  log : list Effect
}.

Record AnimationEngine : Type := {
  timeline : Timeline;
  currentFrame : num;
  isPlaying : bool;
  lastFrameTime : num;
  animationFrameId : nat;
  pathManager : PathManager;
  eventManager : EventTriggerManager;
  groups : gmap string AnimationGroup;
  sequences : gmap string AnimationSequence;
  activeSequences : gmap string nat;
  (** the [ActiveSequence] objects created so far; [activeSequences] and
      the step listeners refer to them by position *)
  objects : list ActiveSequence;
  (** number of listener closures created so far *)
  closures : nat;
  host : Host
}.

Definition method : Type := AnimationEngine -> outcome AnimationEngine.

(** A call that may re-enter the engine: a listener invoked by
    [dispatchEvent], or [executeSequenceStep] calling itself. *)
Inductive Call : Type :=
| Invoke (handler : EventHandler) (data : value)
| ExecuteSequenceStep (sequenceId : string).

(** *** Field updates *)

Definition set_timeline (v : Timeline) (s : AnimationEngine) : AnimationEngine :=
  {| timeline := v; currentFrame := currentFrame s; isPlaying := isPlaying s;
     lastFrameTime := lastFrameTime s; animationFrameId := animationFrameId s;
     pathManager := pathManager s; eventManager := eventManager s;
     groups := groups s; sequences := sequences s;
     activeSequences := activeSequences s; objects := objects s;
     closures := closures s; host := host s |}.

Definition set_currentFrame (v : num) (s : AnimationEngine) : AnimationEngine :=
  {| timeline := timeline s; currentFrame := v; isPlaying := isPlaying s;
     lastFrameTime := lastFrameTime s; animationFrameId := animationFrameId s;
     pathManager := pathManager s; eventManager := eventManager s;
     groups := groups s; sequences := sequences s;
     activeSequences := activeSequences s; objects := objects s;
     closures := closures s; host := host s |}.

Definition set_isPlaying (v : bool) (s : AnimationEngine) : AnimationEngine :=
  {| timeline := timeline s; currentFrame := currentFrame s; isPlaying := v;
     lastFrameTime := lastFrameTime s; animationFrameId := animationFrameId s;
     pathManager := pathManager s; eventManager := eventManager s;
     groups := groups s; sequences := sequences s;
     activeSequences := activeSequences s; objects := objects s;
     closures := closures s; host := host s |}.

Definition set_lastFrameTime (v : num) (s : AnimationEngine) : AnimationEngine :=
  {| timeline := timeline s; currentFrame := currentFrame s; isPlaying := isPlaying s;
     lastFrameTime := v; animationFrameId := animationFrameId s;
     pathManager := pathManager s; eventManager := eventManager s;
     groups := groups s; sequences := sequences s;
     activeSequences := activeSequences s; objects := objects s;
     closures := closures s; host := host s |}.

Definition set_animationFrameId (v : nat) (s : AnimationEngine) : AnimationEngine :=
  {| timeline := timeline s; currentFrame := currentFrame s; isPlaying := isPlaying s;
     lastFrameTime := lastFrameTime s; animationFrameId := v;
     pathManager := pathManager s; eventManager := eventManager s;
     groups := groups s; sequences := sequences s;
     activeSequences := activeSequences s; objects := objects s;
     closures := closures s; host := host s |}.

Definition set_pathManager (v : PathManager) (s : AnimationEngine) : AnimationEngine :=
  {| timeline := timeline s; currentFrame := currentFrame s; isPlaying := isPlaying s;
     lastFrameTime := lastFrameTime s; animationFrameId := animationFrameId s;
     pathManager := v; eventManager := eventManager s;
     groups := groups s; sequences := sequences s;
     activeSequences := activeSequences s; objects := objects s;
     closures := closures s; host := host s |}.

Definition set_eventManager (v : EventTriggerManager) (s : AnimationEngine)
  : AnimationEngine :=
  {| timeline := timeline s; currentFrame := currentFrame s; isPlaying := isPlaying s;
     lastFrameTime := lastFrameTime s; animationFrameId := animationFrameId s;
     pathManager := pathManager s; eventManager := v;
     groups := groups s; sequences := sequences s;
     activeSequences := activeSequences s; objects := objects s;
     closures := closures s; host := host s |}.

Definition set_groups (v : gmap string AnimationGroup) (s : AnimationEngine)
  : AnimationEngine :=
  {| timeline := timeline s; currentFrame := currentFrame s; isPlaying := isPlaying s;
     lastFrameTime := lastFrameTime s; animationFrameId := animationFrameId s;
     pathManager := pathManager s; eventManager := eventManager s;
     groups := v; sequences := sequences s;
     activeSequences := activeSequences s; objects := objects s;
     closures := closures s; host := host s |}.

Definition set_sequences (v : gmap string AnimationSequence) (s : AnimationEngine)
  : AnimationEngine :=
  {| timeline := timeline s; currentFrame := currentFrame s; isPlaying := isPlaying s;
     lastFrameTime := lastFrameTime s; animationFrameId := animationFrameId s;
     pathManager := pathManager s; eventManager := eventManager s;
     groups := groups s; sequences := v;
     activeSequences := activeSequences s; objects := objects s;
     closures := closures s; host := host s |}.

Definition set_activeSequences (v : gmap string nat) (s : AnimationEngine)
  : AnimationEngine :=
  {| timeline := timeline s; currentFrame := currentFrame s; isPlaying := isPlaying s;
     lastFrameTime := lastFrameTime s; animationFrameId := animationFrameId s;
     pathManager := pathManager s; eventManager := eventManager s;
     groups := groups s; sequences := sequences s;
     activeSequences := v; objects := objects s;
     closures := closures s; host := host s |}.

Definition set_objects (v : list ActiveSequence) (s : AnimationEngine)
  : AnimationEngine :=
  {| timeline := timeline s; currentFrame := currentFrame s; isPlaying := isPlaying s;
     lastFrameTime := lastFrameTime s; animationFrameId := animationFrameId s;
     pathManager := pathManager s; eventManager := eventManager s;
     groups := groups s; sequences := sequences s;
     activeSequences := activeSequences s; objects := v;
     closures := closures s; host := host s |}.

Definition set_closures (v : nat) (s : AnimationEngine) : AnimationEngine :=
  {| timeline := timeline s; currentFrame := currentFrame s; isPlaying := isPlaying s;
     lastFrameTime := lastFrameTime s; animationFrameId := animationFrameId s;
     pathManager := pathManager s; eventManager := eventManager s;
     groups := groups s; sequences := sequences s;
     activeSequences := activeSequences s; objects := objects s;
     closures := v; host := host s |}.

Definition set_host (v : Host) (s : AnimationEngine) : AnimationEngine :=
  {| timeline := timeline s; currentFrame := currentFrame s; isPlaying := isPlaying s;
     lastFrameTime := lastFrameTime s; animationFrameId := animationFrameId s;
     pathManager := pathManager s; eventManager := eventManager s;
     groups := groups s; sequences := sequences s;
     activeSequences := activeSequences s; objects := objects s;
     closures := closures s; host := v |}.

Definition set_log (v : list Effect) (h : Host) : Host :=
  {| performance_now := performance_now h; Date_now := Date_now h;
     nextRequest := nextRequest h; frameRequests := frameRequests h; log := v |}.

Definition set_frameRequests (next : nat) (v : list nat) (h : Host) : Host :=
  {| performance_now := performance_now h; Date_now := Date_now h;
     nextRequest := next; frameRequests := v; log := log h |}.

Definition set_clocks (perf date : num) (h : Host) : Host :=
  {| performance_now := perf; Date_now := date;
     nextRequest := nextRequest h; frameRequests := frameRequests h; log := log h |}.

Definition set_triggers (v : list AnyEventTrigger) (em : EventTriggerManager)
  : EventTriggerManager :=
  {| triggers := v; handlers := handlers em;
     activeRangeTriggers := activeRangeTriggers em;
     em_currentFrame := em_currentFrame em; em_previousFrame := em_previousFrame em |}.

Definition set_handlers (v : gmap string (list EventHandler)) (em : EventTriggerManager)
  : EventTriggerManager :=
  {| triggers := triggers em; handlers := v;
     activeRangeTriggers := activeRangeTriggers em;
     em_currentFrame := em_currentFrame em; em_previousFrame := em_previousFrame em |}.

Definition set_activeRangeTriggers (v : gset string) (em : EventTriggerManager)
  : EventTriggerManager :=
  {| triggers := triggers em; handlers := handlers em;
     activeRangeTriggers := v;
     em_currentFrame := em_currentFrame em; em_previousFrame := em_previousFrame em |}.

Definition set_frames (cur prev : num) (em : EventTriggerManager)
  : EventTriggerManager :=
  {| triggers := triggers em; handlers := handlers em;
     activeRangeTriggers := activeRangeTriggers em;
     em_currentFrame := cur; em_previousFrame := prev |}.

Definition emit (e : Effect) (s : AnimationEngine) : AnimationEngine :=
  set_host (set_log (log (host s) ++ [e]) (host s)) s.

(** [forEach] over an array that the callbacks do not modify. *)
Fixpoint forEach {A : Type} (f : A -> method) (l : list A) : method :=
  fun s =>
    match l with
    | [] => Normal s
    | a :: l' => andThen (f a s) (forEach f l')
    end.

Section Methods.
Context {M : MathLib}.
(** The re-entrant calls; [run] below closes the recursion. *)
Variable call : Call -> method.
Local Open Scope num_scope.

(** *** [EventTriggerManager] *)

Definition registerTrigger (trigger : AnyEventTrigger) : method := fun s =>
  let em := eventManager s in
  Normal (set_eventManager (set_triggers (triggers em ++ [trigger]) em) s).

Definition registerTriggers (ts : list AnyEventTrigger) : method := fun s =>
  let em := eventManager s in
  Normal (set_eventManager (set_triggers (triggers em ++ ts) em) s).

Definition addEventListener (event : string) (handler : EventHandler) : method := fun s =>
  let em := eventManager s in
  let hs := default [] (handlers em !! event) in
  Normal (set_eventManager (set_handlers (<[event := hs ++ [handler]]> (handlers em)) em) s).

(** [handlers.indexOf(handler)] *)
Fixpoint indexOf (handler : EventHandler) (hs : list EventHandler) (i : nat) : option nat :=
  match hs with
  | [] => None
  | h :: hs' => if decide (h = handler) then Some i else indexOf handler hs' (S i)
  end.

Definition removeEventListener (event : string) (handler : EventHandler) : method := fun s =>
  let em := eventManager s in
  match handlers em !! event with
  | None => Normal s
  | Some hs =>
      match indexOf handler hs 0 with
      | None => Normal s
      | Some index =>
          Normal (set_eventManager
                    (set_handlers (<[event := delete index hs]> (handlers em)) em) s)
      end
  end.

(** The [forEach] of [dispatchEvent].  The array is the live listener
    list: the callback runs for the indices below the initial length, on
    whatever the list holds at that index when it is reached; an index
    beyond the current length is skipped.  An exception of a listener is
    caught and logged. *)
Fixpoint forEachHandler (n : nat) (k : nat) (event : string) (data : value) : method :=
  fun s =>
    match n with
    | O => Normal s
    | S n' =>
        match handlers (eventManager s) !! event ≫= (fun hs => hs !! k) with
        | None => forEachHandler n' (S k) event data s
        | Some handler =>
            match call (Invoke handler data) s with
            | Normal s' => forEachHandler n' (S k) event data s'
            | Abrupt e s' =>
                forEachHandler n' (S k) event data
                  (emit (ConsoleError ("Error in event handler for " ++ event ++ ": " ++ e)%string) s')
            | Unmodelled => Unmodelled
            | OutOfFuel => OutOfFuel
            end
        end
    end.

Definition dispatchEvent (event : string) (data : value) : method := fun s =>
  let s := emit (Dispatched event data) s in
  match handlers (eventManager s) !! event with
  | None => Normal s
  | Some hs => forEachHandler (List.length hs) 0 event data s
  end.

(** The [forEach] of [checkFrameEvents]: the listeners are called without
    a [try]. *)
Fixpoint forEachListener (n : nat) (k : nat) (event : string) (data : value) : method :=
  fun s =>
    match n with
    | O => Normal s
    | S n' =>
        match handlers (eventManager s) !! event ≫= (fun hs => hs !! k) with
        | None => forEachListener n' (S k) event data s
        | Some handler =>
            andThen (call (Invoke handler data) s) (forEachListener n' (S k) event data)
        end
    end.

(** [checkFrameEvents()]: calls and then clears the listeners registered
    under [frame_<currentFrame>].  It is a private method of the manager
    that no method calls; in particular [updateFrame] below does not. *)
Definition checkFrameEvents : method := fun s =>
  let eventName := ("frame_" ++ Str.ofNum (em_currentFrame (eventManager s)))%string in
  match handlers (eventManager s) !! eventName with
  | None => Normal s
  | Some listeners =>
      (forEachListener (List.length listeners) 0 eventName
         (VObj [ ("triggerId", VStr eventName);
                 ("timestamp", VNum (Date_now (host s))) ]) ;;
       (fun s =>
          let em := eventManager s in
          Normal (set_eventManager
                    (set_handlers (<[eventName := []]> (handlers em)) em) s))) s
  end.

(** [{ ...data, parameters: trigger.parameters }] *)
Definition executeTriggerAction (trigger : EventTrigger) (data : list (string * value))
  : method :=
  dispatchEvent (action trigger) (VObj (Json.store "parameters" (parameters trigger) data)).

Definition isFrameTrigger (t : AnyEventTrigger) : bool :=
  match t with FrameEventTrigger _ _ _ => true | _ => false end.

Definition isRangeTrigger (t : AnyEventTrigger) : bool :=
  match t with RangeEventTrigger _ _ _ _ => true | _ => false end.

Definition frameData (base : EventTrigger) (s : AnimationEngine) : list (string * value) :=
  [ ("triggerId", VStr (tr_id base));
    ("timestamp", VNum (Date_now (host s)));
    ("currentFrame", VNum (em_currentFrame (eventManager s)));
    ("previousFrame", VNum (em_previousFrame (eventManager s))) ]%string.

Definition rangeData (base : EventTrigger) (startFrame endFrame : num)
    (s : AnimationEngine) : list (string * value) :=
  (frameData base s
   ++ [ ("startFrame", VNum startFrame); ("endFrame", VNum endFrame) ]%string)%list.

Definition checkFrameTriggers : method := fun s =>
  let em := eventManager s in
  if em_currentFrame em =? em_previousFrame em then Normal s
  else
    forEach
      (fun trigger s =>
         let em := eventManager s in
         match trigger with
         | FrameEventTrigger base FRAME_ENTER frame =>
             if (em_currentFrame em =? frame) && negb (em_previousFrame em =? frame)
             then executeTriggerAction base (frameData base s) s
             else Normal s
         | FrameEventTrigger base FRAME_EXIT frame =>
             if (em_previousFrame em =? frame) && negb (em_currentFrame em =? frame)
             then executeTriggerAction base (frameData base s) s
             else Normal s
         | _ => Normal s
         end)
      (List.filter isFrameTrigger (triggers em)) s.

Definition inRange (frame startFrame endFrame : num) : bool :=
  (frame >=? startFrame) && (frame <=? endFrame).

Definition checkRangeTriggers : method := fun s =>
  let em := eventManager s in
  if em_currentFrame em =? em_previousFrame em then Normal s
  else
    let rangeTriggers := List.filter isRangeTrigger (triggers em) in
    (forEach
       (fun trigger s =>
          let em := eventManager s in
          match trigger with
          | RangeEventTrigger base RANGE_ENTER startFrame endFrame =>
              let isIn := inRange (em_currentFrame em) startFrame endFrame in
              let wasIn := inRange (em_previousFrame em) startFrame endFrame in
              if isIn && negb wasIn then
                let s := set_eventManager
                           (set_activeRangeTriggers
                              ({[tr_id base]} ∪ activeRangeTriggers em) em) s in
                executeTriggerAction base (rangeData base startFrame endFrame s) s
              else if negb isIn && wasIn then
                Normal (set_eventManager
                          (set_activeRangeTriggers
                             (activeRangeTriggers em ∖ {[tr_id base]}) em) s)
              else Normal s
          | _ => Normal s
          end)
       rangeTriggers ;;
     forEach
       (fun trigger s =>
          let em := eventManager s in
          match trigger with
          | RangeEventTrigger base RANGE_EXIT startFrame endFrame =>
              let isIn := inRange (em_currentFrame em) startFrame endFrame in
              let wasIn := inRange (em_previousFrame em) startFrame endFrame in
              if negb isIn && wasIn then
                let s := set_eventManager
                           (set_activeRangeTriggers
                              (activeRangeTriggers em ∖ {[tr_id base]}) em) s in
                executeTriggerAction base (rangeData base startFrame endFrame s) s
              else Normal s
          | _ => Normal s
          end)
       rangeTriggers) s.

Definition updateFrame (frame : num) : method :=
  (fun s =>
     let em := eventManager s in
     Normal (set_eventManager (set_frames frame (em_currentFrame em) em) s)) ;;
  checkFrameTriggers ;;
  checkRangeTriggers.

Definition isPlaybackTrigger (type : PlaybackTriggerType) (t : AnyEventTrigger) : bool :=
  match t with
  | PlaybackEventTrigger _ type' =>
      String.eqb (PlaybackTriggerType_name type') (PlaybackTriggerType_name type)
  | _ => false
  end.

Definition triggerPlaybackEvent (type : PlaybackTriggerType) : method := fun s =>
  forEach
    (fun trigger s =>
       let base := trigger_base trigger in
       executeTriggerAction base
         [ ("triggerId", VStr (tr_id base));
           ("timestamp", VNum (Date_now (host s)));
           ("currentFrame", VNum (em_currentFrame (eventManager s)));
           ("playbackType", VStr (PlaybackTriggerType_name type)) ]%string s)
    (List.filter (isPlaybackTrigger type) (triggers (eventManager s))) s.

(** [isInRange(startFrame, endFrame)] *)
Definition isInRange (startFrame endFrame : num) (s : AnimationEngine) : bool :=
  inRange (em_currentFrame (eventManager s)) startFrame endFrame.

Definition clearTriggers : method := fun s =>
  let em := eventManager s in
  Normal (set_eventManager (set_activeRangeTriggers ∅ (set_triggers [] em)) s).

(** *** [AnimationEngine]: the frame clock *)

(** [requestAnimationFrame(() => this.animationLoop())] *)
Definition requestAnimationFrame : method := fun s =>
  let h := host s in
  let id := nextRequest h in
  Normal (set_animationFrameId id
            (set_host (set_frameRequests (S id) (frameRequests h ++ [id]) h) s)).

Definition cancelAnimationFrame (id : nat) : method := fun s =>
  let h := host s in
  Normal (set_host
            (set_frameRequests (nextRequest h)
               (List.filter (fun r => negb (r =? id)%nat) (frameRequests h)) h) s).

Definition pause : method :=
  (fun s => Normal (set_isPlaying false s)) ;;
  (fun s =>
     if (animationFrameId s =? 0)%nat then Normal s
     else andThen (cancelAnimationFrame (animationFrameId s) s)
            (fun s => Normal (set_animationFrameId 0 s))) ;;
  triggerPlaybackEvent PAUSE.

Definition advanceFrames (frames : num) : method :=
  (fun s => Normal (set_currentFrame (currentFrame s + frames) s)) ;;
  (fun s =>
     if currentFrame s >=? duration (timeline s) then
       triggerPlaybackEvent LOOP
         (set_currentFrame (JsNum.rem (currentFrame s) (duration (timeline s))) s)
     else Normal s).

Definition animationLoop : method := fun s =>
  let now := performance_now (host s) in
  let elapsed := now - lastFrameTime s in
  let frameTime := #1000 / frameRate (timeline s) in
  let framesToAdvance := JsNum.floor (elapsed / frameTime) in
  ((fun s =>
      if framesToAdvance >? #0 then
        ((fun s => Normal (set_lastFrameTime (now - JsNum.rem elapsed frameTime) s)) ;;
         advanceFrames framesToAdvance ;;
         (fun s => updateFrame (currentFrame s) s)) s
      else Normal s) ;;
   (fun s => if isPlaying s then requestAnimationFrame s else Normal s)) s.

Definition play : method := fun s =>
  if isPlaying s then Normal s
  else
    ((fun s => Normal (set_lastFrameTime (performance_now (host s)) (set_isPlaying true s))) ;;
     animationLoop ;;
     triggerPlaybackEvent PLAY) s.

Definition stop : method :=
  pause ;;
  (fun s => Normal (set_activeSequences ∅ (set_currentFrame #0 s))) ;;
  (fun s => updateFrame (currentFrame s) s) ;;
  triggerPlaybackEvent STOP.

Definition seekToFrame (frame : num) : method :=
  (fun s =>
     Normal (set_currentFrame
               (JsNum.max #0 (JsNum.min frame (duration (timeline s) - #1))) s)) ;;
  (fun s => updateFrame (currentFrame s) s).

(** The host runs a pending animation-frame callback. *)
Definition animationFrame (id : nat) : method := fun s =>
  if existsb (Nat.eqb id) (frameRequests (host s)) then
    (cancelAnimationFrame id ;; animationLoop) s
  else Normal s.

(** *** Groups *)

Definition registerGroup (group : AnimationGroup) : method := fun s =>
  Normal (set_groups (<[gr_id group := group]> (groups s)) s).

(** Position of the first element with the given id: layer, frame and
    element index.  The position stands for the reference the sources
    return. *)
Definition findIndex {A : Type} (p : A -> bool) (l : list A) : option nat :=
  (fix go (l : list A) (i : nat) : option nat :=
     match l with
     | [] => None
     | a :: l' => if p a then Some i else go l' (S i)
     end) l 0%nat.

Fixpoint findInFrames (id : string) (fs : list Frame) (fi : nat) : option (nat * nat) :=
  match fs with
  | [] => None
  | f :: fs' =>
      match findIndex (fun e => String.eqb (el_id e) id) (elements f) with
      | Some ei => Some (fi, ei)
      | None => findInFrames id fs' (S fi)
      end
  end.

Fixpoint findInLayers (id : string) (ls : list Layer) (li : nat)
  : option (nat * nat * nat) :=
  match ls with
  | [] => None
  | l :: ls' =>
      match findInFrames id (frames l) 0 with
      | Some (fi, ei) => Some (li, fi, ei)
      | None => findInLayers id ls' (S li)
      end
  end.

Definition findElementById (id : string) (t : Timeline) : option (nat * nat * nat) :=
  findInLayers id (layers t) 0.

Definition elementAt (pos : nat * nat * nat) (t : Timeline) : option Element :=
  let '(li, fi, ei) := pos in
  l ← layers t !! li; f ← frames l !! fi; elements f !! ei.

Definition storeElementAt (pos : nat * nat * nat) (e : Element) (t : Timeline) : Timeline :=
  let '(li, fi, ei) := pos in
  {| version := version t; frameRate := frameRate t; duration := duration t;
     dimensions := dimensions t;
     layers :=
       alter (fun l =>
                {| la_id := la_id l; la_type := la_type l;
                   frames :=
                     alter (fun f =>
                              {| startFrame := startFrame f;
                                 fr_duration := fr_duration f;
                                 elements := <[ei := e]> (elements f) |})
                           fi (frames l);
                   locked := locked l; visible := visible l |})
             li (layers t);
     scripts := scripts t |}.

Definition set_animations (l : list PropertyAnimation) (e : Element) : Element :=
  {| el_id := el_id e; el_type := el_type e; properties := properties e;
     children := children e; animations := Some l |}.

(** [group.easing || 'ease-in-out'] *)
Definition groupEasing (group : AnimationGroup) : string :=
  match gr_easing group with
  | Some e => if String.eqb e "" then "ease-in-out" else e
  | None => "ease-in-out"
  end.

(** The two keyframes synthesised for a property. *)
Definition groupKeyframes (group : AnimationGroup) (delayFrames : num)
    (currentValue : value) : list Keyframe :=
  let startFrame := gr_startFrame group + delayFrames in
  let endFrame := startFrame + gr_duration group in
  [ {| kf_frame := startFrame;
       kf_value := currentValue;
       kf_easing := Some (groupEasing group) |};
    {| kf_frame := endFrame;
       kf_value := match currentValue with
                   | VNum n => VNum (n * #2)
                   | _ => currentValue
                   end;
       kf_easing := Some (groupEasing group) |} ].

(** The body of [group.properties.forEach] in
    [applyGroupAnimationToElement]: the animation of [property] is found
    or appended, the current value is read, the keyframes are replaced. *)
Definition animateProperty (group : AnimationGroup) (delayFrames : num)
    (property : string) (element : Element) : outcome Element :=
  let anims := default [] (animations element) in
  let '(index, anims) :=
    match findIndex (fun a => String.eqb (Timeline.property a) property) anims with
    | Some i => (i, anims)
    | None =>
        (List.length anims,
         anims ++ [ {| Timeline.property := property; keyframes := [] |} ])
    end in
  let element := set_animations anims element in
  match Json.getNestedProperty (properties element) property with
  | Ret v =>
      let currentValue := Json.orElse v (VNum #0) in
      Normal (set_animations
                (alter (fun a =>
                          {| Timeline.property := Timeline.property a;
                             keyframes := groupKeyframes group delayFrames currentValue |})
                       index anims)
                element)
  | Thrown e => Abrupt e element
  | Beyond => Unmodelled
  end.

Fixpoint forEachProperty (group : AnimationGroup) (delayFrames : num)
    (props : list string) (element : Element) : outcome Element :=
  match props with
  | [] => Normal element
  | property :: props' =>
      andThen (animateProperty group delayFrames property element)
              (forEachProperty group delayFrames props')
  end.

Definition applyGroupAnimationToElement (element : Element) (group : AnimationGroup)
    (delayFrames : num) : outcome Element :=
  let element :=
    match animations element with
    | Some _ => element
    | None => set_animations [] element
    end in
  forEachProperty group delayFrames (gr_properties group) element.

(** [applyGroupAnimationToElement] on the element a reference points to. *)
Definition applyGroupAnimationAt (pos : nat * nat * nat) (group : AnimationGroup)
    (delayFrames : num) : method := fun s =>
  match elementAt pos (timeline s) with
  | None => Normal s
  | Some element =>
      match applyGroupAnimationToElement element group delayFrames with
      | Normal e' => Normal (set_timeline (storeElementAt pos e' (timeline s)) s)
      | Abrupt err e' => Abrupt err (set_timeline (storeElementAt pos e' (timeline s)) s)
      | Unmodelled => Unmodelled
      | OutOfFuel => OutOfFuel
      end
  end.

(** [elements.forEach((element, index) => ...)] with the delay of each
    index. *)
Fixpoint forEachIndexed (f : nat * nat * nat -> nat -> method)
    (l : list (nat * nat * nat)) (index : nat) : method :=
  fun s =>
    match l with
    | [] => Normal s
    | pos :: l' => andThen (f pos index s) (forEachIndexed f l' (S index))
    end.

(** A new listener closure gets the next number. *)
Definition newClosure (s : AnimationEngine) : nat * AnimationEngine :=
  (closures s, set_closures (S (closures s)) s).

Definition addFrameListener (frame : num) (callback : EventHandler) : method :=
  addEventListener ("frame_" ++ Str.ofNum frame)%string callback.

Definition playGroup (group : AnimationGroup) : method := fun s =>
  let elements := omap (fun id => findElementById id (timeline s)) (elementIds group) in
  ((match gr_type group with
    | PARALLEL =>
        forEachIndexed (fun pos _ => applyGroupAnimationAt pos group #0) elements 0
    | SEQUENCE =>
        forEachIndexed
          (fun pos index =>
             let delay := (gr_duration group / ofNat (List.length elements)) * ofNat index in
             applyGroupAnimationAt pos group delay)
          elements 0
    | STAGGER =>
        let staggerDelay :=
          match staggerDelay group with
          | Some d => if JsNum.truthy d then d else #5
          | None => #5
          end in
        forEachIndexed
          (fun pos index => applyGroupAnimationAt pos group (staggerDelay * ofNat index))
          elements 0
    end) ;;
   (fun s =>
      let completionFrame := gr_startFrame group + gr_duration group in
      let '(c, s) := newClosure s in
      addFrameListener completionFrame (GroupCompletion c (gr_id group)) s)) s.

(** *** Sequences *)

Definition stopSequence (sequenceId : string) : method := fun s =>
  Normal (set_activeSequences (delete sequenceId (activeSequences s)) s).

(** Assignments to the members of a runtime object. *)
Definition set_currentStep (ref : nat) (f : nat -> nat) : method := fun s =>
  Normal (set_objects
            (alter (fun a => {| sequence := sequence a;
                                currentStep := f (currentStep a);
                                iterations := iterations a |}) ref (objects s)) s).

Definition set_iterations (ref : nat) (f : nat -> nat) : method := fun s =>
  Normal (set_objects
            (alter (fun a => {| sequence := sequence a;
                                currentStep := currentStep a;
                                iterations := f (iterations a) |}) ref (objects s)) s).

(** [executeSequenceStep(sequenceId)]; its calls of itself go through
    [call]. *)
Definition executeSequenceStep (sequenceId : string) : method := fun s =>
  match activeSequences s !! sequenceId with
  | None => Normal s
  | Some ref =>
      match objects s !! ref with
      | None => Unmodelled
      | Some activeSequence =>
          let sequence := Groups.sequence activeSequence in
          let currentStep := Groups.currentStep activeSequence in
          match steps sequence !! currentStep with
          | None =>
              (set_iterations ref S ;;
               (fun s =>
                  let iterations :=
                    match objects s !! ref with
                    | Some a => Groups.iterations a
                    | None => O
                    end in
                  if (repeat sequence =? - #1) || (ofNat iterations <? repeat sequence)
                  then
                    (set_currentStep ref (fun _ => O) ;;
                     call (ExecuteSequenceStep sequenceId)) s
                  else
                    (dispatchEvent "sequenceComplete"
                       (VObj [ ("triggerId", VStr ("sequence_" ++ sequenceId)%string);
                               ("timestamp", VNum (Date_now (host s)));
                               ("sequenceId", VStr sequenceId) ]) ;;
                     stopSequence sequenceId) s)) s
          | Some step =>
              match groups s !! groupId step with
              | None =>
                  ((fun s =>
                      Normal (emit (ConsoleError
                                      ("Animation group " ++ groupId step ++ " not found")%string) s)) ;;
                   set_currentStep ref S ;;
                   call (ExecuteSequenceStep sequenceId)) s
              | Some group =>
                  (playGroup group ;;
                   (fun s =>
                      if negb (waitForComplete step) then
                        (set_currentStep ref S ;;
                         call (ExecuteSequenceStep sequenceId)) s
                      else
                        let '(c, s) := newClosure s in
                        addEventListener "animationComplete"
                          (StepCompletion c sequenceId currentStep (onComplete step) ref) s)) s
              end
          end
      end
  end.

Definition playSequence (sequenceId : string) : method := fun s =>
  match sequences s !! sequenceId with
  | None => Normal s
  | Some sequence =>
      ((fun s =>
          let ref := List.length (objects s) in
          Normal (set_activeSequences (<[sequenceId := ref]> (activeSequences s))
                    (set_objects
                       (objects s ++ [ {| Groups.sequence := sequence;
                                          currentStep := O;
                                          iterations := O |} ]) s))) ;;
       executeSequenceStep sequenceId ;;
       play) s
  end.

Definition registerSequence (sequence : AnimationSequence) : method :=
  (fun s => Normal (set_sequences (<[seq_id sequence := sequence]> (sequences s)) s)) ;;
  (fun s => if autoPlay sequence then playSequence (seq_id sequence) s else Normal s).

(** *** Listeners *)

(** [data.parameters && typeof data.parameters.frame === 'number'] *)
Definition frameParameter (data : value) : res (option num) :=
  let* parameters := Json.getProperty data "parameters" in
  if Json.truthy parameters then
    let* frame := Json.getProperty parameters "frame" in
    Ret (match frame with VNum n => Some n | _ => None end)
  else Ret None.

(** [data.parameters && data.parameters.sequenceId]; an id that is not a
    string is not a key of the maps. *)
Definition sequenceParameter (data : value) : res (option (option string)) :=
  let* parameters := Json.getProperty data "parameters" in
  if Json.truthy parameters then
    let* sequenceId := Json.getProperty parameters "sequenceId" in
    Ret (if Json.truthy sequenceId
         then Some (match sequenceId with VStr id => Some id | _ => None end)
         else None)
  else Ret None.

Definition lift {A : Type} (r : res A) (k : A -> method) : method := fun s =>
  match r with
  | Ret a => k a s
  | Thrown e => Abrupt e s
  | Beyond => Unmodelled
  end.

(** The body of a listener. *)
Definition invoke (handler : EventHandler) (data : value) : method :=
  match handler with
  | External name throws =>
      fun s =>
        let s := emit (HandlerCalled name data) s in
        if throws then Abrupt ("Error thrown by " ++ name)%string s else Normal s
  | GotoFrame =>
      lift (frameParameter data)
        (fun p => match p with Some frame => seekToFrame frame | None => Normal end)
  | GotoAndPlay =>
      lift (frameParameter data)
        (fun p => match p with Some frame => seekToFrame frame ;; play | None => Normal end)
  | GotoAndStop =>
      lift (frameParameter data)
        (fun p => match p with Some frame => seekToFrame frame ;; pause | None => Normal end)
  | Play => play
  | Pause => pause
  | Stop => stop
  | TogglePlay => fun s => if isPlaying s then pause s else play s
  | PlaySequence =>
      lift (sequenceParameter data)
        (fun p => match p with
                  | Some (Some id) => playSequence id
                  | _ => Normal
                  end)
  | StopSequence =>
      lift (sequenceParameter data)
        (fun p => match p with
                  | Some (Some id) => stopSequence id
                  | _ => Normal
                  end)
  | GroupCompletion _ groupId =>
      fun s =>
        dispatchEvent "animationComplete"
          (VObj [ ("triggerId", VStr ("group_" ++ groupId)%string);
                  ("timestamp", VNum (Date_now (host s)));
                  ("groupId", VStr groupId) ]) s
  | StepCompletion _ sequenceId currentStep onComplete ref =>
      (fun s =>
         match onComplete with
         | Some event =>
             if String.eqb event "" then Normal s
             else
               dispatchEvent event
                 (VObj [ ("triggerId",
                          VStr ("sequenceStep_" ++ sequenceId ++ "_"
                                ++ Str.ofNum (ofNat currentStep))%string);
                         ("timestamp", VNum (Date_now (host s)));
                         ("sequenceId", VStr sequenceId);
                         ("stepIndex", VNum (ofNat currentStep)) ]) s
         | None => Normal s
         end) ;;
      set_currentStep ref S ;;
      executeSequenceStep sequenceId ;;
      removeEventListener "animationComplete" handler
  end.

(** *** Triggers and listeners of the public interface *)

Definition addFrameTrigger (frame : num) (action : string) (parameters : value)
  : method := fun s =>
  registerTrigger
    (FrameEventTrigger
       {| tr_id := ("frame_" ++ Str.ofNum frame ++ "_" ++ action ++ "_"
                    ++ Str.ofNum (Date_now (host s)))%string;
          Events.action := action; Events.parameters := parameters |}
       FRAME_ENTER frame) s.

Definition addFrameExitTrigger (frame : num) (action : string) (parameters : value)
  : method := fun s =>
  registerTrigger
    (FrameEventTrigger
       {| tr_id := ("frameExit_" ++ Str.ofNum frame ++ "_" ++ action ++ "_"
                    ++ Str.ofNum (Date_now (host s)))%string;
          Events.action := action; Events.parameters := parameters |}
       FRAME_EXIT frame) s.

Definition addRangeTrigger (startFrame endFrame : num) (action : string)
    (parameters : value) : method := fun s =>
  registerTrigger
    (RangeEventTrigger
       {| tr_id := ("range_" ++ Str.ofNum startFrame ++ "_" ++ Str.ofNum endFrame
                    ++ "_" ++ action ++ "_" ++ Str.ofNum (Date_now (host s)))%string;
          Events.action := action; Events.parameters := parameters |}
       RANGE_ENTER startFrame endFrame) s.

Definition addRangeExitTrigger (startFrame endFrame : num) (action : string)
    (parameters : value) : method := fun s =>
  registerTrigger
    (RangeEventTrigger
       {| tr_id := ("rangeExit_" ++ Str.ofNum startFrame ++ "_" ++ Str.ofNum endFrame
                    ++ "_" ++ action ++ "_" ++ Str.ofNum (Date_now (host s)))%string;
          Events.action := action; Events.parameters := parameters |}
       RANGE_EXIT startFrame endFrame) s.

End Methods.

(** *** Closing the recursion *)

(** [run fuel] performs a re-entrant call with at most [fuel] nested
    listener invocations and sequence steps. *)
Fixpoint run {M : MathLib} (fuel : nat) (c : Call) : method :=
  match fuel with
  | O => fun _ => OutOfFuel
  | S fuel' =>
      match c with
      | Invoke handler data => invoke (run fuel') handler data
      | ExecuteSequenceStep sequenceId => executeSequenceStep (run fuel') sequenceId
      end
  end.

(** The listeners [setupDefaultEventActions] installs, in order. *)
Definition defaultEventActions : list (string * EventHandler) :=
  [ ("gotoFrame", GotoFrame);
    ("gotoAndPlay", GotoAndPlay);
    ("gotoAndStop", GotoAndStop);
    ("play", Play);
    ("pause", Pause);
    ("stop", Stop);
    ("togglePlay", TogglePlay);
    ("playSequence", PlaySequence);
    ("stopSequence", StopSequence) ].

Definition newHost : Host :=
  {| performance_now := ofZ 0; Date_now := ofZ 0; nextRequest := 1;
     frameRequests := []; log := [] |}.

(** [new AnimationEngine(timeline)] *)
Definition newAnimationEngine (timeline : Timeline) : AnimationEngine :=
  {| timeline := timeline;
     currentFrame := ofZ 0;
     isPlaying := false;
     lastFrameTime := ofZ 0;
     animationFrameId := 0;
     pathManager := {| paths := ∅; pathAnimations := [] |};
     eventManager :=
       set_handlers
         (list_to_map (map (fun '(e, h) => (e, [h])) defaultEventActions))
         newEventTriggerManager;
     groups := ∅;
     sequences := ∅;
     activeSequences := ∅;
     objects := [];
     closures := 0;
     host := newHost |}.

(** An engine whose only part in use is a fresh [EventTriggerManager]. *)
Definition newManager : AnimationEngine :=
  set_eventManager newEventTriggerManager
    (newAnimationEngine
       {| version := ""; frameRate := ofZ 60; duration := ofZ 1;
          dimensions := VObj []; layers := []; scripts := [] |}).

(** [getCurrentElements()] of the engine. *)
Definition getCurrentElements {M : MathLib} (s : AnimationEngine) : res (list value) :=
  Interpolator.getCurrentElements (timeline s) (pathManager s) (currentFrame s).

End Engine.

(* ================================================================= *)
(** ** References: the interpolator on the object graph *)
(* ================================================================= *)

(** The tree model above cannot tell a copy from a shared object.  This
    module runs [getCurrentElements] on a store of objects: a value is a
    primitive or a reference, an assignment updates the referenced object
    in place, and a new object or array gets the next free address. *)
Module Refs.
Local Open Scope string_scope.
Local Open Scope list_scope.

Inductive rval : Type :=
| RUndef
| RNull
| RBool (b : bool)
| RNum (n : num)
| RStr (s : string)
| RRef (address : nat).

Inductive object : Type :=
| RObject (fields : list (string * rval))
| RArray (items : list rval).

Definition store : Type := list object.

Definition alloc (o : object) (h : store) : rval * store :=
  (RRef (List.length h), h ++ [o]).

(** The object graph [JSON.parse] builds for a tree: one new object per
    object or array of the tree. *)
Fixpoint build (v : value) (h : store) : rval * store :=
  match v with
  | VUndef => (RUndef, h)
  | VNull => (RNull, h)
  | VBool b => (RBool b, h)
  | VNum n => (RNum n, h)
  | VStr s => (RStr s, h)
  | VArr items =>
      let '(rs, h') :=
        (fix items_ (l : list value) (h : store) : list rval * store :=
           match l with
           | [] => ([], h)
           | v' :: l' =>
               let '(r, h1) := build v' h in
               let '(rs, h2) := items_ l' h1 in
               (r :: rs, h2)
           end) items h in
      alloc (RArray rs) h'
  | VObj fs =>
      let '(rfs, h') :=
        (fix fields_ (l : list (string * value)) (h : store)
           : list (string * rval) * store :=
           match l with
           | [] => ([], h)
           | (k, v') :: l' =>
               let '(r, h1) := build v' h in
               let '(rs, h2) := fields_ l' h1 in
               ((k, r) :: rs, h2)
           end) fs h in
      alloc (RObject rfs) h'
  end.

(** The tree [JSON.stringify] serialises, or [None] when the depth budget
    runs out (a circular structure). *)
Fixpoint tree (fuel : nat) (h : store) (r : rval) : option value :=
  match r with
  | RUndef => Some VUndef
  | RNull => Some VNull
  | RBool b => Some (VBool b)
  | RNum n => Some (VNum n)
  | RStr s => Some (VStr s)
  | RRef l =>
      match fuel with
      | O => None
      | S fuel' =>
          match h !! l with
          | Some (RArray items) =>
              option_map VArr
                ((fix items_ (l : list rval) : option (list value) :=
                    match l with
                    | [] => Some []
                    | r' :: l' =>
                        match tree fuel' h r', items_ l' with
                        | Some v, Some vs => Some (v :: vs)
                        | _, _ => None
                        end
                    end) items)
          | Some (RObject fs) =>
              option_map VObj
                ((fix fields_ (l : list (string * rval)) : option (list (string * value)) :=
                    match l with
                    | [] => Some []
                    | (k, r') :: l' =>
                        match tree fuel' h r', fields_ l' with
                        | Some v, Some vs => Some ((k, v) :: vs)
                        | _, _ => None
                        end
                    end) fs)
          | None => None
          end
      end
  end.

(** [JSON.parse(JSON.stringify(r))] *)
Definition jsonCopy (r : rval) (h : store) : res (rval * store) :=
  match tree (S (List.length h)) h r with
  | Some VUndef => Thrown "SyntaxError: undefined is not valid JSON"
  | Some v => Ret (build (Json.clone v) h)
  | None => Thrown "TypeError: circular structure"
  end.

Definition truthy (r : rval) : bool :=
  match r with
  | RUndef | RNull => false
  | RBool b => b
  | RNum n => JsNum.truthy n
  | RStr s => negb (String.eqb s "")
  | RRef _ => true
  end.

Fixpoint lookup (k : string) (fs : list (string * rval)) : option rval :=
  match fs with
  | [] => None
  | (k', v) :: fs' => if String.eqb k k' then Some v else lookup k fs'
  end.

Fixpoint assign (k : string) (v : rval) (fs : list (string * rval))
  : list (string * rval) :=
  match fs with
  | [] => [(k, v)]
  | (k', v') :: fs' =>
      if String.eqb k k' then (k, v) :: fs' else (k', v') :: assign k v fs'
  end.

(** [part in current] *)
Definition hasProperty (part : string) (current : rval) (h : store) : res bool :=
  match current with
  | RRef l =>
      match h !! l with
      | Some (RObject fs) =>
          Ret (match lookup part fs with Some _ => true | None => false end)
      | Some (RArray items) =>
          Ret (match Json.parseIndex part with
               | Some i => (i <? List.length items)%nat
               | None => String.eqb part "length"
               end)
      | None => Beyond
      end
  | _ => Thrown "TypeError: cannot use 'in' operator"
  end.

(** [current[part]] *)
Definition getProperty (current : rval) (part : string) (h : store) : res rval :=
  match current with
  | RRef l =>
      match h !! l with
      | Some (RObject fs) =>
          Ret (match lookup part fs with Some v => v | None => RUndef end)
      | Some (RArray items) =>
          Ret (match Json.parseIndex part with
               | Some i => nth i items RUndef
               | None =>
                   if String.eqb part "length" then RNum (ofNat (List.length items))
                   else RUndef
               end)
      | None => Beyond
      end
  | RStr s =>
      Ret (match Json.parseIndex part with
           | Some i =>
               match nth_error (Str.chars s) i with
               | Some c => RStr (String c EmptyString)
               | None => RUndef
               end
           | None =>
               if String.eqb part "length" then RNum (ofNat (String.length s))
               else RUndef
           end)
  | RUndef | RNull => Thrown "TypeError: cannot read properties"
  | RBool _ | RNum _ => Ret RUndef
  end.

Fixpoint setNth (i : nat) (v : rval) (items : list rval) : list rval :=
  match i, items with
  | O, _ :: items' => v :: items'
  | O, [] => [v]
  | S i', x :: items' => x :: setNth i' v items'
  | S _, [] => []
  end.

(** [current[part] = v]: the referenced object is updated in place. *)
Definition setProperty (current : rval) (part : string) (v : rval) (h : store)
  : res store :=
  match current with
  | RRef l =>
      match h !! l with
      | Some (RObject fs) => Ret (<[l := RObject (assign part v fs)]> h)
      | Some (RArray items) =>
          match Json.parseIndex part with
          | Some i =>
              if (i <=? List.length items)%nat
              then Ret (<[l := RArray (setNth i v items)]> h)
              else Beyond
          | None => Beyond
          end
      | None => Beyond
      end
  | RUndef | RNull => Thrown "TypeError: cannot set properties"
  | _ => Thrown "TypeError: cannot create property"
  end.

(** [setNestedProperty(obj, path, value)], walking references. *)
Fixpoint setNested (current : rval) (parts : list string) (v : rval) (h : store)
  : res store :=
  match parts with
  | [] => Ret h
  | [last] => setProperty current last v h
  | part :: parts' =>
      let* has := hasProperty part current h in
      let* h1 :=
        (if has then Ret h
         else let '(o, h') := alloc (RObject []) h in setProperty current part o h') in
      let* next := getProperty current part h1 in
      setNested next parts' v h1
  end.

Definition setNestedProperty (obj : rval) (path : string) (v : rval) (h : store)
  : res store :=
  setNested obj (Str.split "." path) v h.

(** The items of an array, for a loop over it. *)
Definition itemsOf (r : rval) (h : store) : res (list rval) :=
  match r with
  | RRef l =>
      match h !! l with
      | Some (RArray items) => Ret items
      | _ => Beyond
      end
  | RUndef | RNull => Thrown "TypeError: not iterable"
  | _ => Beyond
  end.

(** A member that the sources use as a number. *)
Definition numberOf (r : rval) : res num :=
  match r with
  | RNum n => Ret n
  | _ => Beyond
  end.

Definition isArray (r : rval) (h : store) : option (list rval) :=
  match r with
  | RRef l =>
      match h !! l with
      | Some (RArray items) => Some items
      | _ => None
      end
  | _ => None
  end.

Section WithMath.
Context {M : MathLib}.
Local Open Scope num_scope.

(** The bracket search, on keyframe objects. *)
Fixpoint findBracket (currentFrame frameStart : num) (kfs : list rval) (h : store)
  : res (option (rval * rval)) :=
  match kfs with
  | currentKeyframe :: kfs' =>
      match kfs' with
      | nextKeyframe :: _ =>
          let* f1 := getProperty currentKeyframe "frame" h in
          let* f2 := getProperty nextKeyframe "frame" h in
          let* n1 := numberOf f1 in
          let* n2 := numberOf f2 in
          if (currentFrame >=? frameStart + n1) && (currentFrame <=? frameStart + n2)
          then Ret (Some (currentKeyframe, nextKeyframe))
          else findBracket currentFrame frameStart kfs' h
      | [] => Ret None
      end
  | [] => Ret None
  end.

(** The interpolated value by the types of the keyframe values.  The new
    array of the third case holds, for an entry that is not a pair of
    numbers, the entry of the end keyframe itself. *)
Definition interpolateValue (startValue endValue : rval) (easedProgress : num)
    (h : store) : option (rval * store) :=
  match startValue, endValue with
  | RNum s, RNum e => Some (RNum (s + (e - s) * easedProgress), h)
  | RStr s, RStr e =>
      if Str.startsWithHash s && Str.startsWithHash e
      then Some (RStr (Interpolator.interpolateColor s e easedProgress), h)
      else None
  | _, _ =>
      match isArray startValue h, isArray endValue h with
      | Some ss, Some es =>
          if (List.length ss =? List.length es)%nat then
            Some (alloc (RArray (map (fun '(start, end_) =>
                                        match start, end_ with
                                        | RNum a, RNum b => RNum (a + (b - a) * easedProgress)
                                        | _, _ => end_
                                        end)
                                     (combine ss es))) h)
          else None
      | _, _ => None
      end
  end.

Definition easingNameOf (r : rval) : string :=
  match r with
  | RStr e => if String.eqb e "" then "linear" else e
  | _ => "linear"
  end.

Definition applyAnimation (currentFrame frameStart : num) (animatedElement : rval)
    (animation : rval) (h : store) : res store :=
  let* kfsRef := getProperty animation "keyframes" h in
  let* kfs := itemsOf kfsRef h in
  let* bracket := findBracket currentFrame frameStart kfs h in
  match bracket with
  | None => Ret h
  | Some (startKeyframe, endKeyframe) =>
      let* f1 := getProperty startKeyframe "frame" h in
      let* f2 := getProperty endKeyframe "frame" h in
      let* n1 := numberOf f1 in
      let* n2 := numberOf f2 in
      let absoluteStartFrame := frameStart + n1 in
      let absoluteEndFrame := frameStart + n2 in
      let progress :=
        (currentFrame - absoluteStartFrame) / (absoluteEndFrame - absoluteStartFrame) in
      let* easing := getProperty startKeyframe "easing" h in
      let easedProgress := Easing.getEasingFunction (easingNameOf easing) progress in
      let* startValue := getProperty startKeyframe "value" h in
      let* endValue := getProperty endKeyframe "value" h in
      match interpolateValue startValue endValue easedProgress h with
      | None => Ret h
      | Some (v, h1) =>
          let* props := getProperty animatedElement "properties" h1 in
          let* path := getProperty animation "property" h1 in
          match path with
          | RStr p => setNestedProperty props p v h1
          | _ => Beyond
          end
      end
  end.

Fixpoint forAnimations (currentFrame frameStart : num) (animatedElement : rval)
    (anims : list rval) (h : store) : res store :=
  match anims with
  | [] => Ret h
  | animation :: anims' =>
      let* h1 := applyAnimation currentFrame frameStart animatedElement animation h in
      forAnimations currentFrame frameStart animatedElement anims' h1
  end.

(** [applyAnimations(elements, frame)] for the frame object [frame]. *)
Fixpoint applyAnimations (currentFrame frameStart : num) (elements : list rval)
    (h : store) : res (list rval * store) :=
  match elements with
  | [] => Ret ([], h)
  | element :: elements' =>
      let* copy := jsonCopy element h in
      let '(animatedElement, h1) := copy in
      let* anims := getProperty element "animations" h1 in
      let* h2 :=
        (if truthy anims then
           let* l := itemsOf anims h1 in
           forAnimations currentFrame frameStart animatedElement l h1
         else Ret h1) in
      let* rest := applyAnimations currentFrame frameStart elements' h2 in
      Ret (animatedElement :: fst rest, snd rest)
  end.

(** [findActiveFrame(layer)] on frame objects. *)
Fixpoint findActiveFrame (currentFrame : num) (frames : list rval) (h : store)
  : res (option rval) :=
  match frames with
  | [] => Ret None
  | frame :: frames' =>
      let* sf := getProperty frame "startFrame" h in
      let* d := getProperty frame "duration" h in
      let* startFrame := numberOf sf in
      let* duration := numberOf d in
      let frameEnd := startFrame + duration in
      if (currentFrame >=? startFrame) && (currentFrame <? frameEnd)
      then Ret (Some frame)
      else findActiveFrame currentFrame frames' h
  end.

(** The element the [Map] of [applyPathAnimations] holds for an id: the
    last one with that id. *)
Fixpoint lastWithId (id : string) (els : list rval) (h : store) (found : option rval)
  : res (option rval) :=
  match els with
  | [] => Ret found
  | e :: els' =>
      let* i := getProperty e "id" h in
      lastWithId id els' h
        (match i with
         | RStr s => if String.eqb s id then Some e else found
         | _ => found
         end)
  end.

Definition toNumber (r : rval) : res num :=
  match r with
  | RNum n => Ret n
  | RUndef => Ret NaN
  | RNull => Ret #0
  | RBool b => Ret (if b then #1 else #0)
  | _ => Beyond
  end.

Definition orElse (a b : rval) : rval := if truthy a then a else b.

(** The writes of one path animation to its element. *)
Definition placeOnPath (animation : PathAnimation) (point : Point) (angle : option num)
    (element : rval) (h : store) : res store :=
  let alignX := match alignOrigin (options animation) with
                | Some p => if JsNum.truthy (px p) then px p else #0
                | None => #0
                end in
  let alignY := match alignOrigin (options animation) with
                | Some p => if JsNum.truthy (py p) then py p else #0
                | None => #0
                end in
  let* props0 := getProperty element "properties" h in
  let* h :=
    (if truthy props0 then Ret h
     else let '(o, h') := alloc (RObject []) h in setProperty element "properties" o h') in
  let* props := getProperty element "properties" h in
  let* width := getProperty props "width" h in
  let* w := toNumber (orElse width (RNum #0)) in
  let* h := setProperty props "x" (RNum (px point - w * alignX)) h in
  let* height := getProperty props "height" h in
  let* hh := toNumber (orElse height (RNum #0)) in
  let* h := setProperty props "y" (RNum (py point - hh * alignY)) h in
  match angle with
  | Some a =>
      if orient (options animation)
      then setProperty props "rotation" (RNum (a * (#180 / Math_PI))) h
      else Ret h
  | None => Ret h
  end.

(** [PathManager.applyPathAnimations(elements, currentFrame)]: the
    elements are updated in place and the same array is returned. *)
Fixpoint applyPathAnimations (pm : PathManager) (anims : list PathAnimation)
    (elements : list rval) (currentFrame : num) (h : store) : res store :=
  match anims with
  | [] => Ret h
  | animation :: anims' =>
      let* h1 :=
        (if (currentFrame >=? pa_startFrame animation)
            && (currentFrame <? pa_startFrame animation + pa_duration animation)
         then
           let* found := lastWithId (elementId animation) elements h None in
           match found with
           | None => Ret h
           | Some element =>
               match paths pm !! pathId (options animation) with
               | None => Ret h
               | Some path =>
                   let timeProgress :=
                     (currentFrame - pa_startFrame animation) / pa_duration animation in
                   let name := pa_easing (options animation) in
                   let easedTimeProgress :=
                     applyEasing timeProgress
                       (if String.eqb name "" then "linear" else name) in
                   let pathOffset :=
                     startOffset (options animation)
                     + (endOffset (options animation) - startOffset (options animation))
                       * easedTimeProgress in
                   let* pa := getPointAtOffset path pathOffset in
                   placeOnPath animation (fst pa) (snd pa) element h
               end
           end
         else Ret h) in
      applyPathAnimations pm anims' elements currentFrame h1
  end.

Fixpoint forLayers (pm : PathManager) (currentFrame : num) (layers : list rval)
    (elements : list rval) (h : store) : res (list rval * store) :=
  match layers with
  | [] => Ret (elements, h)
  | layer :: layers' =>
      let* visible := getProperty layer "visible" h in
      if negb (truthy visible) then forLayers pm currentFrame layers' elements h
      else
        let* framesRef := getProperty layer "frames" h in
        let* frames := itemsOf framesRef h in
        let* activeFrame := findActiveFrame currentFrame frames h in
        match activeFrame with
        | None => forLayers pm currentFrame layers' elements h
        | Some frame =>
            let* elsRef := getProperty frame "elements" h in
            let* els := itemsOf elsRef h in
            let* sf := getProperty frame "startFrame" h in
            let* frameStart := numberOf sf in
            let* animated := applyAnimations currentFrame frameStart els h in
            let* h2 :=
              applyPathAnimations pm (pathAnimations pm) (fst animated) currentFrame
                (snd animated) in
            forLayers pm currentFrame layers' (elements ++ fst animated) h2
        end
  end.

(** [getCurrentElements()] for the timeline object [timeline]. *)
Definition getCurrentElements (timeline : rval) (pm : PathManager) (currentFrame : num)
    (h : store) : res (list rval * store) :=
  let* layersRef := getProperty timeline "layers" h in
  let* layers := itemsOf layersRef h in
  forLayers pm currentFrame layers [] h.

End WithMath.
End Refs.

(* ================================================================= *)
(** ** Vocabulary of the statements *)
(* ================================================================= *)

Module Spec.
Import Engine.
Local Open Scope string_scope.
Local Open Scope list_scope.

(** Appending effects to the host's log. *)
Definition emitAll (l : list Effect) (s : AnimationEngine) : AnimationEngine :=
  set_host (set_log (log (host s) ++ l) (host s)) s.

Definition isExternal (h : EventHandler) : bool :=
  match h with
  | External _ _ => true
  | _ => false
  end.

(** Every listener of [event] is a function of the host program. *)
Definition externalOnly (event : string) (s : AnimationEngine) : bool :=
  match handlers (eventManager s) !! event with
  | Some hs => forallb isExternal hs
  | None => true
  end.

(** Every registered trigger names an action whose listeners are
    functions of the host program: no trigger is bound to one of the
    engine's own actions. *)
Definition triggersObserved (s : AnimationEngine) : bool :=
  forallb (fun t => externalOnly (action (trigger_base t)) s)
          (triggers (eventManager s)).

(** What a dispatch to host listeners adds to the log: for each listener,
    in order, its call, followed by the logged error when it throws. *)
Definition calls (event : string) (data : value) (hs : list EventHandler)
  : list Effect :=
  flat_map
    (fun h =>
       match h with
       | External name throws =>
           HandlerCalled name data
           :: (if throws
               then [ConsoleError ("Error in event handler for " ++ event ++ ": "
                                   ++ ("Error thrown by " ++ name))%string]
               else [])
       | _ => []
       end) hs.

(** The listeners called, in the order of the log. *)
Definition calledNames (l : list Effect) : list string :=
  omap (fun e => match e with HandlerCalled name _ => Some name | _ => None end) l.

Definition handlerName (h : EventHandler) : string :=
  match h with
  | External name _ => name
  | _ => ""
  end.

(** The events dispatched, in the order of the log. *)
Definition dispatchedEvents (l : list Effect) : list string :=
  omap (fun e => match e with Dispatched event _ => Some event | _ => None end) l.

(** The state with another log and another set of active range
    triggers. *)
Definition touch (l : list Effect) (a : gset string) (s : AnimationEngine)
  : AnimationEngine :=
  set_host (set_log l (host s))
    (set_eventManager (set_activeRangeTriggers a (eventManager s)) s).

(** The states reachable from [s0] by logging and by changing the set of
    active range triggers. *)
Definition touched (s0 s : AnimationEngine) : Prop :=
  exists L A, s = touch L A s0.



(** The property [prop] of the element [id] in a result of
    [getCurrentElements]. *)
Definition resolved (r : res (list value)) (id prop : string) : option value :=
  match r with
  | Ret els =>
      match List.find (fun e => match e with
                                | VObj fs =>
                                    match Json.lookup "id" fs with
                                    | Some (VStr i) => String.eqb i id
                                    | _ => false
                                    end
                                | _ => false
                                end) els with
      | Some (VObj fs) =>
          match Json.lookup "properties" fs with
          | Some (VObj ps) => Json.lookup prop ps
          | _ => None
          end
      | _ => None
      end
  | _ => None
  end.

(** The addresses of the objects reachable from a value of the heap, to
    the depth [fuel]. *)
Fixpoint reachable (fuel : nat) (h : Refs.store) (r : Refs.rval) : list nat :=
  match r, fuel with
  | Refs.RRef l, S fuel' =>
      l :: match h !! l with
           | Some (Refs.RArray items) => flat_map (reachable fuel' h) items
           | Some (Refs.RObject fs) =>
               flat_map (fun kv => reachable fuel' h (snd kv)) fs
           | None => []
           end
  | _, _ => []
  end.

(** The objects reachable from both [r1] and [r2]: the mutable structure
    the two values share. *)
Definition shared (h : Refs.store) (r1 r2 : Refs.rval) : list nat :=
  let fuel := S (List.length h) in
  List.filter (fun a => existsb (Nat.eqb a) (reachable fuel h r2))
              (reachable fuel h r1).

(** The tree a value of the heap serialises to. *)
Definition treeOf (h : Refs.store) (r : Refs.rval) : option value :=
  Refs.tree (S (List.length h)) h r.

End Spec.

(* ================================================================= *)
(** ** Timelines and programs of the statements *)
(* ================================================================= *)

Module Example.
Import Engine.
Local Open Scope string_scope.
Local Open Scope list_scope.

(** A host whose [Math] functions all return [NaN]; it satisfies the
    [NaN] law and serves where a statement needs some host. *)
Definition nanMath : MathLib :=
  {| Math_cos := fun _ => NaN;
     Math_sin := fun _ => NaN;
     Math_sqrt := fun _ => NaN;
     Math_pow := fun _ _ => NaN;
     Math_atan2 := fun _ _ => NaN;
     Math_PI := NaN |}.

(** The timeline of the group tests: one visible layer with one frame of
    300 frames holding a circle and a rectangle. *)
Definition circle : Element :=
  {| el_id := "circle"; el_type := CIRCLE;
     properties := VObj [ ("x", VNum (ofZ 100)); ("y", VNum (ofZ 100));
                          ("radius", VNum (ofZ 50)); ("fill", VStr "#ff0000") ];
     children := None; animations := None |}.

Definition rect : Element :=
  {| el_id := "rect"; el_type := RECTANGLE;
     properties := VObj [ ("x", VNum (ofZ 200)); ("y", VNum (ofZ 100));
                          ("width", VNum (ofZ 100)); ("height", VNum (ofZ 80));
                          ("fill", VStr "#0000ff") ];
     children := None; animations := None |}.

Definition timelineOf (els : list Element) : Timeline :=
  {| version := "1.0"; frameRate := ofZ 60; duration := ofZ 300;
     dimensions := VObj [ ("width", VNum (ofZ 800)); ("height", VNum (ofZ 600));
                          ("responsive", VBool true) ];
     layers := [ {| la_id := "testLayer"; la_type := "normal";
                    frames := [ {| startFrame := ofZ 0; fr_duration := ofZ 300;
                                   elements := els |} ];
                    locked := false; visible := true |} ];
     scripts := [] |}.

Definition testTimeline : Timeline := timelineOf [circle; rect].

(** The parallel group of claim C2. *)
Definition testGroup : AnimationGroup :=
  {| gr_id := "testGroup"; gr_type := PARALLEL;
     elementIds := ["circle"; "rect"];
     gr_properties := ["radius"; "width"];
     gr_startFrame := ofZ 10; gr_duration := ofZ 30;
     staggerDelay := None; gr_easing := Some "ease-in-out" |}.

Definition testGroupSequence : AnimationSequence :=
  {| seq_id := "playTestGroup";
     steps := [ {| groupId := "testGroup"; waitForComplete := true;
                   onComplete := None |} ];
     repeat := ofZ 1; autoPlay := false |}.

(** The first group of the sequence tests, and a sequence of that one
    step which names an event for its completion. *)
Definition group1 : AnimationGroup :=
  {| gr_id := "group1"; gr_type := PARALLEL;
     elementIds := ["circle"];
     gr_properties := ["radius"];
     gr_startFrame := ofZ 10; gr_duration := ofZ 20;
     staggerDelay := None; gr_easing := Some "linear" |}.

Definition testSequence : AnimationSequence :=
  {| seq_id := "testSequence";
     steps := [ {| groupId := "group1"; waitForComplete := true;
                   onComplete := Some "sequenceStepComplete" |} ];
     repeat := ofZ 1; autoPlay := false |}.

(** The range trigger of the event tests. *)
Definition rangeTrigger : AnyEventTrigger :=
  RangeEventTrigger
    {| tr_id := "test-range-trigger"; action := "rangeEnterAction";
       parameters := VUndef |}
    RANGE_ENTER (ofZ 30) (ofZ 50).






(** A polygon whose [points] are objects, animated as a whole and, by a
    second animation, in its first coordinate. *)
Definition point (x y : Z) : value :=
  VObj [ ("x", VNum (ofZ x)); ("y", VNum (ofZ y)) ].

Definition pointsAnimation : PropertyAnimation :=
  {| property := "points";
     keyframes := [ {| kf_frame := ofZ 0; kf_value := VArr [point 0 0];
                       kf_easing := Some "linear" |};
                    {| kf_frame := ofZ 10; kf_value := VArr [point 10 10];
                       kf_easing := Some "linear" |} ] |}.

Definition firstXAnimation : PropertyAnimation :=
  {| property := "points.0.x";
     keyframes := [ {| kf_frame := ofZ 0; kf_value := VNum (ofZ 0);
                       kf_easing := Some "linear" |};
                    {| kf_frame := ofZ 10; kf_value := VNum (ofZ 100);
                       kf_easing := Some "linear" |} ] |}.

Definition polygon (anims : list PropertyAnimation) : Element :=
  {| el_id := "poly"; el_type := POLYGON;
     properties := VObj [ ("points", VArr [point 0 0]) ];
     children := None; animations := Some anims |}.

Definition noPaths : PathManager := {| paths := ∅; pathAnimations := [] |}.

(** The timeline object of a polygon with the given animations, as the
    host program holds it: the object graph of its JSON text. *)
Definition loaded (anims : list PropertyAnimation) : Refs.rval * Refs.store :=
  Refs.build (Timeline_object (timelineOf [polygon anims])) [].

(** The animation [testGroup] synthesises for a property whose current
    value is [v]: [v] at frame 10 and [2 v] at frame 40. *)
Definition synthesized (property : string) (v : Z) : PropertyAnimation :=
  {| Timeline.property := property;
     keyframes := [ {| kf_frame := ofZ 10; kf_value := VNum (ofZ v);
                       kf_easing := Some "ease-in-out" |};
                    {| kf_frame := ofZ 40; kf_value := VNum (ofZ (2 * v));
                       kf_easing := Some "ease-in-out" |} ] |}.

Definition withAnimations (e : Element) (anims : list PropertyAnimation) : Element :=
  {| el_id := el_id e; el_type := el_type e; properties := properties e;
     children := children e; animations := Some anims |}.

(** The two elements once [testGroup] has been played: a property the
    element lacks is animated from 0 to 0. *)
Definition circleAnimated : Element :=
  withAnimations circle [synthesized "radius" 50; synthesized "width" 0].

Definition rectAnimated : Element :=
  withAnimations rect [synthesized "radius" 0; synthesized "width" 100].

Section WithMath.
Context {M : MathLib}.

(** The state of a method's normal end, or the state it started from. *)
Definition after (m : method) (s : AnimationEngine) : AnimationEngine :=
  match m s with
  | Normal s' => s'
  | _ => s
  end.

(** The engine on the test timeline after [registerGroup(testGroup)], the
    registration of a sequence that plays it, and [playSequence]. *)
Definition groupPlayed : AnimationEngine :=
  after (registerGroup testGroup ;;
         registerSequence (run 8) testGroupSequence ;;
         playSequence (run 8) "playTestGroup")
        (newAnimationEngine testTimeline).

(** The engine on the test timeline after the set-up of the sequence
    test: [group1] and [testSequence] registered, a host listener on
    [animationComplete] and one on the step's event, then
    [playSequence('testSequence')]. *)
Definition sequencePlayed : AnimationEngine :=
  after (registerGroup group1 ;;
         addEventListener "animationComplete" (External "mockAnimationCompleteCB" false) ;;
         addEventListener "sequenceStepComplete" (External "mockStepCompleteCB" false) ;;
         registerSequence (run 8) testSequence ;;
         playSequence (run 8) "testSequence")
        (newAnimationEngine testTimeline).

(** A fresh manager with the range trigger and a host listener on its
    action. *)
Definition rangeManager : AnimationEngine :=
  after (registerTrigger rangeTrigger ;;
         addEventListener "rangeEnterAction" (External "mockCallback" false))
        newManager.

(** A fresh manager with two host listeners on one event, the first of
    which throws. *)
Definition twoListeners : AnimationEngine :=
  after (addEventListener "tick" (External "faulty" true) ;;
         addEventListener "tick" (External "sound" false))
        newManager.

(** A playing engine with a frame trigger on frame 10 bound to the default
    action [pause]. *)
Definition pauseAtTen : AnimationEngine :=
  after (addFrameTrigger (ofZ 10) "pause" (VObj []) ;;
         play (run 8))
        (newAnimationEngine testTimeline).

(** An engine with a frame trigger on frame 30 bound to the default action
    [gotoFrame], with the parameter [frame: 10], and a listener of the host
    program on the same action. *)
Definition gotoAtThirty : AnimationEngine :=
  after (addFrameTrigger (ofZ 30) "gotoFrame" (VObj [("frame", VNum (ofZ 10))]) ;;
         addEventListener "gotoFrame" (External "spy" false))
        (newAnimationEngine testTimeline).

(** The sequence test with a listener of the host program registered on
    [animationComplete] after [playSequence]: the listener of the waiting
    step comes first, the host listener second. *)
Definition stepThenSibling : AnimationEngine :=
  after (registerGroup group1 ;;
         registerSequence (run 8) testSequence ;;
         playSequence (run 8) "testSequence" ;;
         addEventListener "animationComplete" (External "sibling" false))
        (newAnimationEngine testTimeline).

(** An engine in use: the range trigger of the event tests with its host
    listener, the sequence test playing and waiting on its step, and the
    playhead moved to frame 40, inside the range. *)
Definition busy : AnimationEngine :=
  after (registerTrigger rangeTrigger ;;
         addEventListener "rangeEnterAction" (External "mockCallback" false) ;;
         registerGroup group1 ;;
         registerSequence (run 8) testSequence ;;
         playSequence (run 8) "testSequence" ;;
         seekToFrame (run 8) (ofZ 40))
        (newAnimationEngine testTimeline).

End WithMath.
End Example.

(* ================================================================= *)
(** ** Notions of the further properties *)
(* ================================================================= *)

Module Notions.
Import Engine.
Local Open Scope string_scope.
Local Open Scope list_scope.

(** *** Easing *)

(** A number of the unit interval. *)
Definition inUnit (x : num) : bool := (fin 0 <=? x)%num && (x <=? fin 1)%num.

(** The function maps the unit interval into itself. *)
Definition unitQ (f : num -> num) : Prop :=
  forall q, (0 <= q <= 1)%Q -> exists r, f (Fin q) = Fin r /\ (0 <= r <= 1)%Q.

(** The names of the easing functions built from polynomials alone: the
    linear one, the four polynomial families and the bounce family. *)
Definition polynomialEasings : list string :=
  [ "linear"; "ease-in"; "ease-out"; "ease-in-out";
    "ease-in-quad"; "ease-out-quad"; "ease-in-out-quad";
    "ease-in-cubic"; "ease-out-cubic"; "ease-in-out-cubic";
    "ease-in-quart"; "ease-out-quart"; "ease-in-out-quart";
    "ease-in-quint"; "ease-out-quint"; "ease-in-out-quint";
    "ease-in-bounce"; "ease-out-bounce"; "ease-in-out-bounce" ].

(** *** Property paths and the JSON copy *)


(** A tree [JSON.stringify] prints in full: no [undefined] and no number
    that is not finite. *)
Fixpoint serialisable (v : value) : bool :=
  match v with
  | VUndef => false
  | VNum (Fin _) => true
  | VNum _ => false
  | VArr items => forallb serialisable items
  | VObj fs => forallb (fun kv => serialisable (snd kv)) fs
  | _ => true
  end.

(** *** Colours *)

(** [c.toString(16).padStart(2, '0')] for a channel value. *)
Definition hex2 (n : Z) : string := Str.padStart2 (Str.ofNum16 (ofZ n)).

(** The colour [interpolateColor] prints for three channel values. *)
Definition rgb (r g b : Z) : string := "#" ++ hex2 r ++ hex2 g ++ hex2 b.

Definition channel (n : Z) : Prop := (0 <= n <= 255)%Z.

(** Equality of two finite numbers as terms. *)
Definition num_eqb (x y : num) : bool :=
  match x, y with
  | Fin a, Fin b => (Qnum a =? Qnum b)%Z && (Qden a =? Qden b)%positive
  | _, _ => false
  end.

(** The two digits of a channel value are read back as that value. *)
Definition hexCheck (n : Z) : bool :=
  match hex2 n with
  | String a (String b EmptyString) =>
      negb (Ascii.eqb a "#"%char)
      && num_eqb (Str.parseInt16 (String a (String b EmptyString))) (ofZ n)
  | _ => false
  end.

(** The hexadecimal digits, in both cases, with their values. *)
Definition hexDigits : list (ascii * Z) :=
  [ ("0"%char, 0); ("1"%char, 1); ("2"%char, 2); ("3"%char, 3); ("4"%char, 4);
    ("5"%char, 5); ("6"%char, 6); ("7"%char, 7); ("8"%char, 8); ("9"%char, 9);
    ("a"%char, 10); ("b"%char, 11); ("c"%char, 12); ("d"%char, 13); ("e"%char, 14);
    ("f"%char, 15);
    ("A"%char, 10); ("B"%char, 11); ("C"%char, 12); ("D"%char, 13); ("E"%char, 14);
    ("F"%char, 15) ]%Z.

(** The three-digit colour [#abc]. *)
Definition shortColor (a b c : ascii) : string :=
  String "#" (String a (String b (String c EmptyString))).

(** *** The elements on display *)

(** The [id] of an element object. *)
Definition idOf (v : value) : option string :=
  match v with
  | VObj fs => match Json.lookup "id" fs with Some (VStr i) => Some i | _ => None end
  | _ => None
  end.

(** The elements on display at a frame: those of the active frame of
    every visible layer, in the order of the layers. *)
Definition shown (currentFrame : num) (t : Timeline) : list Element :=
  flat_map (fun layer =>
              if visible layer then
                match Interpolator.findActiveFrame currentFrame layer with
                | Some frame => elements frame
                | None => []
                end
              else [])
           (layers t).

(** *** Paths *)

Definition isMoveTo (c : AnyPathCommand) : bool :=
  match c with MoveToCommand _ _ => true | _ => false end.

(** A path animation is in its window at a frame. *)
Definition inWindow (currentFrame : num) (animation : PathAnimation) : bool :=
  (currentFrame >=? pa_startFrame animation)%num
  && (currentFrame <? pa_startFrame animation + pa_duration animation)%num.

(** The names [PathManager.applyEasing] has a case for. *)
Definition pathEasings : list string := ["linear"; "ease-in"; "ease-out"; "ease-in-out"].

(** The string is empty or starts at a letter. *)
Definition startsAtLetter (s : string) : bool :=
  match s with
  | String a _ => Str.isLetter a
  | EmptyString => true
  end.

Definition isFinite (c : coord) : bool :=
  match c with Some (Fin _) => true | _ => false end.

(** A cubic or a quadratic curve. *)
Definition isBezier (segment : PathSegment) : bool :=
  match segment with
  | SegCubic _ _ _ _ _ _ _ _ _ | SegQuadratic _ _ _ _ _ _ _ => true
  | _ => false
  end.

(** The coordinates of the points of a segment. *)
Definition segmentCoords (segment : PathSegment) : list coord :=
  match segment with
  | SegLine x0 y0 x1 y1 _ => [x0; y0; x1; y1]
  | SegCubic x0 y0 x1 y1 x2 y2 x3 y3 _ => [x0; y0; x1; y1; x2; y2; x3; y3]
  | SegQuadratic x0 y0 x1 y1 x2 y2 _ => [x0; y0; x1; y1; x2; y2]
  | SegArc x0 y0 x1 y1 _ _ _ _ _ _ => [x0; y0; x1; y1]
  end.

(** The point a segment starts at and the point it leads to. *)
Definition segmentStart (segment : PathSegment) : Point :=
  match segment with
  | SegLine x0 y0 _ _ _ => {| px := cnum x0; py := cnum y0 |}
  | SegCubic x0 y0 _ _ _ _ _ _ _ => {| px := cnum x0; py := cnum y0 |}
  | SegQuadratic x0 y0 _ _ _ _ _ => {| px := cnum x0; py := cnum y0 |}
  | SegArc x0 y0 _ _ _ _ _ _ _ _ => {| px := cnum x0; py := cnum y0 |}
  end.

Definition segmentEnd (segment : PathSegment) : Point :=
  match segment with
  | SegLine _ _ x1 y1 _ => {| px := cnum x1; py := cnum y1 |}
  | SegCubic _ _ _ _ _ _ x3 y3 _ => {| px := cnum x3; py := cnum y3 |}
  | SegQuadratic _ _ _ _ x2 y2 _ => {| px := cnum x2; py := cnum y2 |}
  | SegArc _ _ x1 y1 _ _ _ _ _ _ => {| px := cnum x1; py := cnum y1 |}
  end.

(** Two points with equal coordinates ([===] on each). *)
Definition samePoint (p q : Point) : bool :=
  (px p =? px q)%num && (py p =? py q)%num.

(** The letters [parseSVGPath] has a case for. *)
Definition isCommandLetter (a : ascii) : bool :=
  existsb (Ascii.eqb a) ["M"%char; "L"%char; "C"%char; "Q"%char; "A"%char; "Z"%char].

(** The number of such letters in a string. *)
Definition commandLetters (s : string) : nat :=
  List.length (List.filter isCommandLetter (Str.chars s)).

(** The command the match under construction will give: the match is
    nothing, or a letter and what follows it, reversed. *)
Definition pendingCommand (cur : option (list ascii)) : nat :=
  match cur with
  | Some c => match rev c with
              | a :: _ => if isCommandLetter a then 1 else 0
              | [] => 0
              end
  | None => 0
  end.

(** *** The frame clock *)

(** The operations of the frame clock: the four public methods and the
    host running a pending animation-frame callback. *)
Inductive ClockOp : Type :=
| OpPlay
| OpPause
| OpStop
| OpSeek (frame : num)
| OpTick (id : nat).

Definition perform {M : MathLib} (fuel : nat) (op : ClockOp) : method :=
  match op with
  | OpPlay => play (run fuel)
  | OpPause => pause (run fuel)
  | OpStop => stop (run fuel)
  | OpSeek frame => seekToFrame (run fuel) frame
  | OpTick id => animationFrame (run fuel) id
  end.

(** At most one animation-frame callback is pending: the one whose id the
    engine holds while it plays, and none while it is paused. *)
Definition oneRequest (s : AnimationEngine) : Prop :=
  (1 <= nextRequest (host s))%nat
  /\ if isPlaying s
     then frameRequests (host s) = [animationFrameId s]
          /\ (1 <= animationFrameId s < nextRequest (host s))%nat
     else frameRequests (host s) = [] /\ animationFrameId s = 0%nat.

(** The members a method of the clock sets; the log and the active range
    triggers, which depend on the listeners, are left as they are. *)
Definition pausedState (s : AnimationEngine) : AnimationEngine :=
  let s1 := set_isPlaying false s in
  if (animationFrameId s =? 0)%nat then s1
  else
    set_animationFrameId 0
      (set_host
         (set_frameRequests (nextRequest (host s))
            (List.filter (fun r => negb (r =? animationFrameId s)%nat)
               (frameRequests (host s)))
            (host s)) s1).

Definition framesToAdvance (s : AnimationEngine) : num :=
  JsNum.floor ((performance_now (host s) - lastFrameTime s)
               / (fin 1000 / frameRate (timeline s)))%num.

Definition advancedFrame (s : AnimationEngine) : num :=
  let c := (currentFrame s + framesToAdvance s)%num in
  if (c >=? duration (timeline s))%num then JsNum.rem c (duration (timeline s)) else c.

Definition advancedState (s : AnimationEngine) : AnimationEngine :=
  if (framesToAdvance s >? fin 0)%num then
    let elapsed := (performance_now (host s) - lastFrameTime s)%num in
    let frameTime := (fin 1000 / frameRate (timeline s))%num in
    set_eventManager
      (set_frames (advancedFrame s) (em_currentFrame (eventManager s)) (eventManager s))
      (set_currentFrame (advancedFrame s)
         (set_lastFrameTime (performance_now (host s) - JsNum.rem elapsed frameTime)%num s))
  else s.

Definition requestedState (s : AnimationEngine) : AnimationEngine :=
  set_animationFrameId (nextRequest (host s))
    (set_host
       (set_frameRequests (S (nextRequest (host s)))
          (frameRequests (host s) ++ [nextRequest (host s)]) (host s)) s).

Definition stoppedState (s : AnimationEngine) : AnimationEngine :=
  let s1 := set_activeSequences ∅ (set_currentFrame (fin 0) (pausedState s)) in
  set_eventManager
    (set_frames (fin 0) (em_currentFrame (eventManager s1)) (eventManager s1)) s1.

Definition soughtState (frame : num) (s : AnimationEngine) : AnimationEngine :=
  let c := JsNum.max (fin 0) (JsNum.min frame (duration (timeline s) - fin 1)%num) in
  set_eventManager
    (set_frames c (em_currentFrame (eventManager s)) (eventManager s))
    (set_currentFrame c s).

Definition loopedState (s : AnimationEngine) : AnimationEngine :=
  if isPlaying s then requestedState (advancedState s) else advancedState s.

Definition playedState (s : AnimationEngine) : AnimationEngine :=
  if isPlaying s then s
  else loopedState (set_lastFrameTime (performance_now (host s)) (set_isPlaying true s)).

Definition tickedState (id : nat) (s : AnimationEngine) : AnimationEngine :=
  if existsb (Nat.eqb id) (frameRequests (host s)) then
    loopedState
      (set_host
         (set_frameRequests (nextRequest (host s))
            (List.filter (fun r => negb (r =? id)%nat) (frameRequests (host s)))
            (host s)) s)
  else s.

(** The state a clock operation leads to, up to the log and the active
    range triggers. *)
Definition clockState (op : ClockOp) (s : AnimationEngine) : AnimationEngine :=
  match op with
  | OpPlay => playedState s
  | OpPause => pausedState s
  | OpStop => stoppedState s
  | OpSeek frame => soughtState frame s
  | OpTick id => tickedState id s
  end.

(** *** Listeners and range triggers *)

(** The listeners of an event: the array the map holds, or none. *)
Definition listeners (event : string) (s : AnimationEngine) : list EventHandler :=
  default [] (handlers (eventManager s) !! event).

(** The list without the first occurrence of a listener. *)
Fixpoint removeFirst (h : EventHandler) (hs : list EventHandler) : list EventHandler :=
  match hs with
  | [] => []
  | h' :: hs' => if decide (h' = h) then hs' else h' :: removeFirst h hs'
  end.

(** Every id in the set of active range triggers belongs to a registered
    RANGE_ENTER trigger whose range holds the manager's current frame. *)
Definition activeSound (s : AnimationEngine) : Prop :=
  forall id : string,
    id ∈ activeRangeTriggers (eventManager s) ->
    exists base a b,
      In (RangeEventTrigger base RANGE_ENTER a b) (triggers (eventManager s))
      /\ tr_id base = id
      /\ inRange (em_currentFrame (eventManager s)) a b = true.

(** *** Groups *)

(** The first animation of a property holds the keyframes the group
    writes for it. *)
Definition animatedBy (group : AnimationGroup) (delayFrames : num) (props : value)
    (property : string) (anims : list PropertyAnimation) : Prop :=
  exists i a v,
    findIndex (fun a => String.eqb (Timeline.property a) property) anims = Some i
    /\ anims !! i = Some a
    /\ Json.getNestedProperty props property = Ret v
    /\ keyframes a = groupKeyframes group delayFrames (Json.orElse v (VNum (fin 0))).

End Notions.


(* ================================================================= *)
(** ** Samples for the further properties *)
(* ================================================================= *)

Module Sample.
Import Engine.
Local Open Scope string_scope.
Local Open Scope list_scope.

(** A host whose square root is exact on the squares of integers (and
    [NaN] elsewhere); its other functions return [NaN]. *)
Definition tableMath : MathLib :=
  {| Math_cos := fun _ => NaN;
     Math_sin := fun _ => NaN;
     Math_sqrt := fun x =>
       match JsNum.is_integer x with
       | Some z =>
           if (0 <=? z)%Z && (Z.sqrt z * Z.sqrt z =? z)%Z then ofZ (Z.sqrt z) else NaN
       | None => NaN
       end;
     Math_pow := fun _ _ => NaN;
     Math_atan2 := fun _ _ => NaN;
     Math_PI := NaN |}.



Definition pointPath : Path :=
  {| path_id := "point";
     commands := [ MoveToCommand (Some (ofZ 1)) (Some (ofZ 2)) ];
     closed := false |}.

Definition linePath : Path :=
  {| path_id := "line";
     commands := [ MoveToCommand (Some (ofZ 0)) (Some (ofZ 0));
                   LineToCommand (Some (ofZ 3)) (Some (ofZ 4)) ];
     closed := false |}.

(** A manager of paths with one animation of the circle, on frames 10 to
    29. *)
Definition onePathAnimation : PathManager :=
  {| paths := {[ "line" := linePath ]};
     pathAnimations :=
       [ {| elementId := "circle"; pa_startFrame := ofZ 10; pa_duration := ofZ 20;
            options := {| pathId := "line"; startOffset := ofZ 0; endOffset := ofZ 1;
                          orient := false; alignOrigin := None; pa_easing := "" |} |} ] |}.

(** A sequence without steps that repeats for ever. *)
Definition endless : AnimationSequence :=
  {| seq_id := "endless"; steps := []; repeat := ofZ (-1); autoPlay := false |}.

(** A cubic curve from (0,0) to (30,0). *)
Definition curve : PathSegment :=
  SegCubic (Some (ofZ 0)) (Some (ofZ 0)) (Some (ofZ 10)) (Some (ofZ 20))
    (Some (ofZ 20)) (Some (ofZ 20)) (Some (ofZ 30)) (Some (ofZ 0)) (ofZ 50).

(** A quadratic curve from (0,0) to (20,0). *)
Definition arch : PathSegment :=
  SegQuadratic (Some (ofZ 0)) (Some (ofZ 0)) (Some (ofZ 10)) (Some (ofZ 20))
    (Some (ofZ 20)) (Some (ofZ 0)) (ofZ 45).

(** A sequence of one step, whose group is registered nowhere, played
    twice. *)
Definition twice : AnimationSequence :=
  {| seq_id := "twice";
     steps := [ {| groupId := "missing"; waitForComplete := false;
                   onComplete := None |} ];
     repeat := ofZ 2; autoPlay := false |}.

Section WithMath.
Context {M : MathLib}.

Definition fresh : AnimationEngine := newAnimationEngine Example.testTimeline.

(** A playing engine half a second after [play()]. *)
Definition halfSecondLater : AnimationEngine :=
  let played := Example.after (play (run 8)) fresh in
  set_host (set_clocks (ofZ 500) (ofZ 500) (host played)) played.

Definition withEndless : AnimationEngine :=
  Example.after (registerSequence (run 1) endless) fresh.

Definition withTwice : AnimationEngine :=
  Example.after (registerSequence (run 1) twice) fresh.

End WithMath.
End Sample.

(* ================================================================= *)
(** * Properties *)
(* ================================================================= *)

(** ** Numbers *)

Section NumFacts.
Local Open Scope num_scope.

Lemma fin_eq (q r : Q) : (q == r)%Q -> fin q = fin r.
Proof. intros H. unfold fin. f_equal. now apply Qred_complete. Qed.

Lemma add_nan_r (x : num) : x + NaN = NaN.
Proof. now destruct x. Qed.

Lemma mul_nan_r (x : num) : x * NaN = NaN.
Proof. now destruct x. Qed.

Lemma sub_nan_r (x : num) : x - NaN = NaN.
Proof. now destruct x. Qed.

Lemma div_nan_r (x : num) : x / NaN = NaN.
Proof. now destruct x. Qed.

Lemma leb_Fin_true (a b : Q) : (a <= b)%Q -> (Fin a <=? Fin b) = true.
Proof.
  intros H. unfold leb, cmp. destruct (Qcompare_spec a b); try reflexivity. lra.
Qed.

Lemma leb_Fin_false (a b : Q) : (b < a)%Q -> (Fin a <=? Fin b) = false.
Proof.
  intros H. unfold leb, cmp. destruct (Qcompare_spec a b); try reflexivity; lra.
Qed.

Lemma ltb_Fin_true (a b : Q) : (a < b)%Q -> (Fin a <? Fin b) = true.
Proof.
  intros H. unfold ltb, cmp. destruct (Qcompare_spec a b); try reflexivity; lra.
Qed.

Lemma ltb_Fin_false (a b : Q) : (b <= a)%Q -> (Fin a <? Fin b) = false.
Proof.
  intros H. unfold ltb, cmp. destruct (Qcompare_spec a b); try reflexivity; lra.
Qed.

Lemma eqb_Fin_true (a b : Q) : (a == b)%Q -> (Fin a =? Fin b) = true.
Proof.
  intros H. unfold eqb, cmp. destruct (Qcompare_spec a b); try reflexivity; lra.
Qed.

Lemma eqb_Fin_false (a b : Q) : ~ (a == b)%Q -> (Fin a =? Fin b) = false.
Proof.
  intros H. unfold eqb, cmp. destruct (Qcompare_spec a b); try reflexivity.
  contradiction.
Qed.

End NumFacts.

(** ** Easing (claim C9) *)

Section EasingFacts.
Context {M : MathLib}.
Local Open Scope num_scope.

(** Claim C9.  For every number [t], and so for every [t] in [0,1], in the
    arithmetic of the program: [easeInQuad(t)] is the product [t*t],
    [easeOutQuad(t)] is [t*(2-t)] and [easeInBounce(t)] is
    [1 - easeOutBounce(1-t)], the complement of [easeOutBounce] at
    [1-t].  At 0, 1/2 and 1 these are the values 0, 1/4 and 1 for
    [easeInQuad], 0, 3/4 and 1 for [easeOutQuad] and 0, 15/64 and 1 for
    [easeInBounce]. *)
Theorem C9_easing_identities :
  (forall t : num,
      Easing.easeInQuad t = t * t
      /\ Easing.easeOutQuad t = t * (#2 - t)
      /\ Easing.easeInBounce t = #1 - Easing.easeOutBounce (#1 - t))
  /\ map Easing.easeInQuad [ofZ 0; Fin (Qmake 1 2); ofZ 1] = [ofZ 0; Fin (Qmake 1 4); ofZ 1]
  /\ map Easing.easeOutQuad [ofZ 0; Fin (Qmake 1 2); ofZ 1] = [ofZ 0; Fin (Qmake 3 4); ofZ 1]
  /\ map Easing.easeInBounce [ofZ 0; Fin (Qmake 1 2); ofZ 1] = [ofZ 0; Fin (Qmake 15 64); ofZ 1].
Proof.
  split; [intros t; repeat split|].
  repeat split; vm_compute; reflexivity.
Qed.

End EasingFacts.

(** ** SVG path strings (claim C8) *)

Section SvgFacts.
Local Open Scope string_scope.

(** A segment gets a command exactly when its letter is one of the six the
    [switch] knows, whatever follows the letter. *)
Lemma commandOf_recognised (segment : string) :
  if SvgPath.recognised segment
  then exists c, SvgPath.commandOf segment = Some c
  else SvgPath.commandOf segment = None.
Proof.
  unfold SvgPath.recognised, SvgPath.commandOf.
  destruct (Str.chars segment) as [|a l]; [reflexivity|].
  destruct a as [[] [] [] [] [] [] [] []]; cbn; eauto.
Qed.

Lemma parse_length (segments : list string) :
  List.length (omap SvgPath.commandOf segments)
  = List.length (List.filter SvgPath.recognised segments).
Proof.
  induction segments as [|seg segments IH]; [reflexivity|].
  cbn. pose proof (commandOf_recognised seg) as H.
  destruct (SvgPath.recognised seg).
  - destruct H as [c ->]. cbn. now rewrite IH.
  - rewrite H. exact IH.
Qed.

(** Claim C8, the part that fails: the token ["M"] has no parameters, yet
    it produces a command, with [x = NaN] and [y = undefined]. *)
Lemma C8_malformed_token_yields_command :
  SvgPath.parseSVGPath "M" = [MoveToCommand (Some NaN) None]
  /\ SvgPath.parseSVGPath "M" <> [].
Proof. split; [reflexivity | discriminate]. Qed.

(** Claim C8, amended.  [parseSVGPath('M100,100 L200,200 Z')] is the three
    commands MOVE_TO (100,100), LINE_TO (200,200), CLOSE; the empty string
    and ['X100,100'] give no command.  For every input the parser returns
    a list (it is total: nothing in it throws) with exactly one command per
    token whose letter is an upper-case M, L, C, Q, A or Z, whatever its
    parameters are, and none for a token with any other letter, the
    lower-case letters included: ['m100,100 l200,200 z'] gives no
    command. *)
Theorem C8_parseSVGPath :
  SvgPath.parseSVGPath "M100,100 L200,200 Z"
  = [ MoveToCommand (Some (ofZ 100)) (Some (ofZ 100));
      LineToCommand (Some (ofZ 200)) (Some (ofZ 200));
      CloseCommand ]
  /\ map command_type (SvgPath.parseSVGPath "M100,100 L200,200 Z")
     = [MOVE_TO; LINE_TO; CLOSE]
  /\ SvgPath.parseSVGPath "" = []
  /\ SvgPath.parseSVGPath "X100,100" = []
  /\ SvgPath.parseSVGPath "m100,100 l200,200 z" = []
  /\ (forall pathString : string,
         List.length (SvgPath.parseSVGPath pathString)
         = List.length (List.filter SvgPath.recognised (SvgPath.pathData pathString)))
  /\ (forall segment : string,
         SvgPath.recognised segment = false -> SvgPath.commandOf segment = None)
  /\ (forall segment : string,
         SvgPath.recognised segment = true ->
         exists c, SvgPath.commandOf segment = Some c).
Proof.
  repeat split; try reflexivity.
  - intros pathString. apply parse_length.
  - intros segment H. pose proof (commandOf_recognised segment) as R.
    now rewrite H in R.
  - intros segment H. pose proof (commandOf_recognised segment) as R.
    now rewrite H in R.
Qed.

(** The amended claim at a token with a known letter and a token with an
    unknown one. *)
Lemma C8_parseSVGPath_witness :
  SvgPath.recognised "L," = true
  /\ (exists c, SvgPath.commandOf "L," = Some c)
  /\ SvgPath.recognised "x1" = false
  /\ SvgPath.commandOf "x1" = None.
Proof.
  destruct C8_parseSVGPath as (_ & _ & _ & _ & _ & _ & Hno & Hyes).
  split; [reflexivity|]. split; [apply Hyes; reflexivity|].
  split; [reflexivity|]. apply Hno. reflexivity.
Defined.

End SvgFacts.

(** ** The event manager (claims C5 and C6) *)

Section ManagerFacts.
Context {M : MathLib}.
Import Engine Spec.
Local Open Scope string_scope.
Local Open Scope list_scope.

Lemma emitAll_nil (s : AnimationEngine) : emitAll [] s = s.
Proof.
  destruct s as [? ? ? ? ? ? ? ? ? ? ? ? []]. unfold emitAll. cbn.
  now rewrite app_nil_r.
Qed.

Lemma emitAll_app (l1 l2 : list Effect) (s : AnimationEngine) :
  emitAll l2 (emitAll l1 s) = emitAll (l1 ++ l2) s.
Proof. unfold emitAll. cbn. now rewrite app_assoc. Qed.

Lemma emit_emitAll (e : Effect) (s : AnimationEngine) : emit e s = emitAll [e] s.
Proof. reflexivity. Qed.

Lemma emitAll_touch (l L : list Effect) (A : gset string) (s : AnimationEngine) :
  emitAll l (touch L A s) = touch (L ++ l) A s.
Proof. reflexivity. Qed.

Lemma touch_touch (L L' : list Effect) (A A' : gset string) (s : AnimationEngine) :
  touch L' A' (touch L A s) = touch L' A' s.
Proof. reflexivity. Qed.

Lemma touch_self (s : AnimationEngine) :
  touch (log (host s)) (activeRangeTriggers (eventManager s)) s = s.
Proof. now destruct s as [? ? ? ? ? ? [] ? ? ? ? ? []]. Qed.

Lemma calls_names (event : string) (data : value) (hs : list EventHandler) :
  forallb isExternal hs = true ->
  calledNames (calls event data hs) = map handlerName hs.
Proof.
  induction hs as [|h hs IH]; [reflexivity|].
  cbn [forallb]. intros [Hh Hhs]%andb_prop.
  destruct h as [name throws| | | | | | | | | | |]; try discriminate.
  cbn. destruct throws; cbn; f_equal; apply IH, Hhs.
Qed.

(** The loop of [dispatchEvent] over host listeners calls the [n]
    listeners from index [k] on, one after the other. *)
Lemma forEachHandler_external (fuel : nat) (event : string) (data : value)
    (hs : list EventHandler) :
  forallb isExternal hs = true ->
  forall (n k : nat) (s : AnimationEngine),
    handlers (eventManager s) !! event = Some hs ->
    forEachHandler (run (S fuel)) n k event data s
    = Normal (emitAll (calls event data (take n (drop k hs))) s).
Proof.
  intros Hext. induction n as [|n IH]; intros k s Hh.
  - cbn. now rewrite emitAll_nil.
  - cbn [forEachHandler]. rewrite Hh. cbn [mbind option_bind].
    destruct (hs !! k) as [h|] eqn:E.
    + assert (isExternal h = true) as Hx.
      { rewrite forallb_forall in Hext. apply Hext.
        apply list_elem_of_In. eapply list_elem_of_lookup_2, E. }
      destruct h as [name throws| | | | | | | | | | |]; try discriminate.
      rewrite (drop_S _ _ _ E). cbn [take calls flat_map].
      cbn [run invoke]. destruct throws.
      * rewrite IH by exact Hh. f_equal.
        rewrite !emit_emitAll, !emitAll_app. reflexivity.
      * rewrite IH by exact Hh. f_equal.
        rewrite !emit_emitAll, !emitAll_app. reflexivity.
    + apply lookup_ge_None in E.
      rewrite IH by exact Hh.
      rewrite !drop_ge by lia. now rewrite !take_nil.
Qed.

Lemma dispatchEvent_external (fuel : nat) (event : string) (data : value)
    (s : AnimationEngine) :
  externalOnly event s = true ->
  dispatchEvent (run (S fuel)) event data s
  = Normal (emitAll (Dispatched event data
                     :: calls event data (default [] (handlers (eventManager s) !! event)))
              s).
Proof.
  unfold externalOnly, dispatchEvent. intros Hext.
  change (handlers (eventManager (emit ?e s))) with (handlers (eventManager s)).
  destruct (handlers (eventManager s) !! event) as [hs|] eqn:E; [|reflexivity].
  rewrite (forEachHandler_external fuel event data hs Hext) by exact E.
  rewrite drop_0, firstn_all. cbn [default]. f_equal.
  now rewrite emit_emitAll, emitAll_app.
Qed.

(** Claim C6, amended.  When the listeners registered for [event] are
    functions of the host program that do not call back into the engine
    (they neither add nor remove listeners while the dispatch runs),
    [dispatchEvent(event, data)] calls every one of them with [data], in
    registration order; the exception of a listener that throws is caught
    and logged right after its call, and the listeners registered after it
    are called all the same. *)
Theorem C6_dispatch_calls_all_in_order (fuel : nat) (event : string) (data : value)
    (hs : list EventHandler) (s : AnimationEngine) :
  handlers (eventManager s) !! event = Some hs ->
  forallb isExternal hs = true ->
  exists s',
    dispatchEvent (run (S fuel)) event data s = Normal s'
    /\ log (host s')
       = log (host s) ++ Dispatched event data :: calls event data hs
    /\ calledNames (calls event data hs) = map handlerName hs
    /\ (forall i name,
           hs !! i = Some (External name true) ->
           calledNames (calls event data (drop (S i) hs))
           = map handlerName (drop (S i) hs)).
Proof.
  intros Hh Hext. eexists. split.
  - rewrite dispatchEvent_external by (unfold externalOnly; now rewrite Hh).
    rewrite Hh. reflexivity.
  - split; [reflexivity|]. split; [now apply calls_names|].
    intros i name _. apply calls_names.
    rewrite forallb_forall in *. intros h Hin. apply Hext.
    apply list_elem_of_In. apply list_elem_of_In in Hin.
    revert Hin. apply (subseteq_drop (S i) hs).
Qed.

(** Running a method that keeps an invariant over every item of a list. *)
Lemma forEach_inv {A : Type} (I : AnimationEngine -> Prop) (f : A -> method)
    (l : list A) :
  (forall a s, In a l -> I s -> exists s', f a s = Normal s' /\ I s') ->
  forall s, I s -> exists s', forEach f l s = Normal s' /\ I s'.
Proof.
  induction l as [|a l IH]; intros Hf s Hs.
  - exists s. now split.
  - cbn [forEach]. destruct (Hf a s (or_introl eq_refl) Hs) as (s1 & -> & Hs1).
    cbn [andThen]. apply IH; [|exact Hs1].
    intros a' s' Hin. apply Hf. now right.
Qed.

Lemma touched_refl (s : AnimationEngine) : touched s s.
Proof. exists (log (host s)), (activeRangeTriggers (eventManager s)). now rewrite touch_self. Qed.

Lemma observed_in (s0 : AnimationEngine) (t : AnyEventTrigger) :
  triggersObserved s0 = true ->
  In t (triggers (eventManager s0)) ->
  externalOnly (action (trigger_base t)) s0 = true.
Proof.
  unfold triggersObserved. rewrite forallb_forall. intros Hobs Hin.
  exact (Hobs t Hin).
Qed.

Lemma executeTriggerAction_touched (fuel : nat) (s0 s : AnimationEngine)
    (base : EventTrigger) (data : list (string * value)) :
  externalOnly (action base) s0 = true ->
  touched s0 s ->
  exists s', executeTriggerAction (run (S fuel)) base data s = Normal s'
             /\ touched s0 s'.
Proof.
  intros Hobs (L & A & ->). unfold executeTriggerAction.
  rewrite dispatchEvent_external by exact Hobs.
  eexists. split; [reflexivity|]. rewrite emitAll_touch. now eexists _, _.
Qed.

Lemma checkFrameTriggers_touched (fuel : nat) (s0 : AnimationEngine) :
  triggersObserved s0 = true ->
  exists s', checkFrameTriggers (run (S fuel)) s0 = Normal s' /\ touched s0 s'.
Proof.
  intros Hobs. unfold checkFrameTriggers.
  destruct (em_currentFrame (eventManager s0) =? em_previousFrame (eventManager s0))%num.
  { exists s0. split; [reflexivity | apply touched_refl]. }
  apply forEach_inv; [|apply touched_refl].
  intros t s Hin Hs. apply filter_In in Hin as [Hin _].
  pose proof (observed_in s0 t Hobs Hin) as Hx.
  destruct t as [base [] frame| | | |];
    try (exists s; now split);
    match goal with
    | |- context [if ?c then _ else _] => destruct c
    end;
    try (exists s; now split);
    now apply executeTriggerAction_touched.
Qed.

Lemma checkRangeTriggers_touched (fuel : nat) (s0 s : AnimationEngine) :
  triggersObserved s0 = true ->
  touched s0 s ->
  exists s', checkRangeTriggers (run (S fuel)) s = Normal s' /\ touched s0 s'.
Proof.
  intros Hobs Hs. unfold checkRangeTriggers.
  destruct (em_currentFrame (eventManager s) =? em_previousFrame (eventManager s))%num.
  { exists s. now split. }
  assert (triggers (eventManager s) = triggers (eventManager s0)) as ->
    by (destruct Hs as (L & A & ->); reflexivity).
  unfold sequ.
  match goal with
  | |- context [andThen (forEach ?f ?l s) _] =>
      assert (exists s1, forEach f l s = Normal s1 /\ touched s0 s1)
        as (s1 & -> & Hs1)
  end.
  { apply forEach_inv; [|exact Hs].
    intros t s' Hin Hs'. apply filter_In in Hin as [Hin _].
    pose proof (observed_in s0 t Hobs Hin) as Hx.
    destruct t as [|base [] a b| | |]; try (exists s'; now split).
    repeat match goal with
           | |- context [if ?c then _ else _] => destruct c
           end.
    - apply executeTriggerAction_touched; [exact Hx|].
      destruct Hs' as (L & A & ->). now eexists _, _.
    - eexists. split; [reflexivity|]. destruct Hs' as (L & A & ->). now eexists _, _.
    - exists s'. now split. }
  cbn [andThen]. apply forEach_inv; [|exact Hs1].
  intros t s' Hin Hs'. apply filter_In in Hin as [Hin _].
  pose proof (observed_in s0 t Hobs Hin) as Hx.
  destruct t as [|base [] a b| | |]; try (exists s'; now split).
  match goal with
  | |- context [if ?c then _ else _] => destruct c
  end; [|exists s'; now split].
  apply executeTriggerAction_touched; [exact Hx|].
  destruct Hs' as (L & A & ->). now eexists _, _.
Qed.

(** With every trigger bound to host listeners, [updateFrame(frame)] ends
    normally and changes, besides the two frame members, only the log and
    the set of active range triggers. *)
Lemma updateFrame_touched (fuel : nat) (frame : num) (s : AnimationEngine) :
  triggersObserved s = true ->
  exists s',
    updateFrame (run (S fuel)) frame s = Normal s'
    /\ touched
         (set_eventManager
            (set_frames frame (em_currentFrame (eventManager s)) (eventManager s)) s)
         s'.
Proof.
  intros Hobs. unfold updateFrame, sequ. cbn [andThen].
  set (s1 := set_eventManager _ s).
  assert (triggersObserved s1 = true) as Hobs1 by exact Hobs.
  destruct (checkFrameTriggers_touched fuel s1 Hobs1) as (s2 & -> & Hs2).
  cbn [andThen]. now apply checkRangeTriggers_touched.
Qed.

Lemma forEach_skip {A : Type} (f : A -> method) (l : list A) (s : AnimationEngine) :
  (forall a, In a l -> f a s = Normal s) -> forEach f l s = Normal s.
Proof.
  induction l as [|a l IH]; intros Hf; [reflexivity|].
  cbn [forEach]. rewrite (Hf a (or_introl eq_refl)). cbn [andThen].
  apply IH. intros a' Hin. apply Hf. now right.
Qed.

Lemma eqb_self_false (x : num) : (x =? x)%num = false -> x = NaN.
Proof.
  destruct x as [q| | |]; try reflexivity; try discriminate.
  now rewrite eqb_Fin_true.
Qed.

Lemma inRange_nan (a b : num) : inRange NaN a b = false.
Proof. unfold inRange. now destruct a. Qed.

(** The guard of the two checks: nothing is evaluated when the frame has
    not changed (and nothing holds of a frame that is [NaN]). *)
Lemma checkFrameTriggers_still (call : Call -> method) (s : AnimationEngine) :
  em_currentFrame (eventManager s) = em_previousFrame (eventManager s) ->
  checkFrameTriggers call s = Normal s.
Proof.
  intros H. unfold checkFrameTriggers. rewrite <- H.
  destruct (em_currentFrame (eventManager s) =? em_currentFrame (eventManager s))%num
    eqn:E; [reflexivity|].
  apply eqb_self_false in E. apply forEach_skip. intros t _.
  destruct t as [base [] frame| | | |]; try reflexivity; rewrite <- ?H, E; reflexivity.
Qed.

Lemma checkRangeTriggers_still (call : Call -> method) (s : AnimationEngine) :
  em_currentFrame (eventManager s) = em_previousFrame (eventManager s) ->
  checkRangeTriggers call s = Normal s.
Proof.
  intros H. unfold checkRangeTriggers. rewrite <- H.
  destruct (em_currentFrame (eventManager s) =? em_currentFrame (eventManager s))%num
    eqn:E; [reflexivity|].
  apply eqb_self_false in E. unfold sequ.
  rewrite forEach_skip; cbn [andThen].
  - apply forEach_skip. intros t _.
    destruct t as [|base [] a b| | |]; try reflexivity.
    rewrite <- H, E, inRange_nan. reflexivity.
  - intros t _. destruct t as [|base [] a b| | |]; try reflexivity.
    rewrite <- H, E, inRange_nan. reflexivity.
Qed.

(** [updateFrame(frame)] in a manager that is at [frame] already: neither
    the log nor the set of active range triggers changes. *)
Lemma updateFrame_same (call : Call -> method) (frame : num) (s : AnimationEngine) :
  em_currentFrame (eventManager s) = frame ->
  updateFrame call frame s
  = Normal (set_eventManager (set_frames frame frame (eventManager s)) s).
Proof.
  intros <-. unfold updateFrame, sequ. cbn [andThen].
  rewrite checkFrameTriggers_still by reflexivity. cbn [andThen].
  now rewrite checkRangeTriggers_still by reflexivity.
Qed.

(** Claim C5, amended.  With every trigger bound to listeners of the host
    program that do not call back into the engine (no trigger is bound to
    an action of the engine such as [gotoFrame]):
    a second [updateFrame] with the same frame ends normally and changes
    neither the log (no listener is called, nothing is dispatched) nor the
    set of active range triggers.  In the manager of the event tests, with
    a RANGE_ENTER trigger for [30,50]: the move 29 to 30 dispatches its
    action once, calls the listener once and adds the trigger's id to the
    active set; the move 30 to 40 adds nothing to the log and leaves the
    set as it is. *)
Theorem C5_triggers_fire_once (fuel : nat) (frame : num) (s : AnimationEngine) :
  triggersObserved s = true ->
  (exists s1 s2,
      updateFrame (run (S fuel)) frame s = Normal s1
      /\ updateFrame (run (S fuel)) frame s1 = Normal s2
      /\ log (host s2) = log (host s1)
      /\ activeRangeTriggers (eventManager s2) = activeRangeTriggers (eventManager s1)
      /\ s2 = set_eventManager (set_frames frame frame (eventManager s1)) s1)
  /\ (let s29 := Example.after (updateFrame (run (S fuel)) (ofZ 29)) Example.rangeManager in
      let s30 := Example.after (updateFrame (run (S fuel)) (ofZ 30)) s29 in
      let s40 := Example.after (updateFrame (run (S fuel)) (ofZ 40)) s30 in
      updateFrame (run (S fuel)) (ofZ 29) Example.rangeManager = Normal s29
      /\ updateFrame (run (S fuel)) (ofZ 30) s29 = Normal s30
      /\ updateFrame (run (S fuel)) (ofZ 40) s30 = Normal s40
      /\ log (host s29) = []
      /\ dispatchedEvents (log (host s30)) = ["rangeEnterAction"]
      /\ calledNames (log (host s30)) = ["mockCallback"]
      /\ activeRangeTriggers (eventManager s30) = {["test-range-trigger"]}
      /\ log (host s40) = log (host s30)
      /\ activeRangeTriggers (eventManager s40) = {["test-range-trigger"]}).
Proof.
  intros Hobs. split.
  - destruct (updateFrame_touched fuel frame s Hobs) as (s1 & H1 & (L & A & Hs1)).
    exists s1. eexists. split; [exact H1|].
    assert (em_currentFrame (eventManager s1) = frame) as Hcur by now subst s1.
    rewrite (updateFrame_same _ frame s1 Hcur).
    repeat apply conj; reflexivity.
  - cbv zeta. repeat apply conj; (vm_compute; reflexivity).
Qed.

End ManagerFacts.

(** ** The frame clock and the sequences (claims C7, C10 and C1) *)

Section ClampFacts.
Local Open Scope num_scope.

Ltac by_cases :=
  unfold geb, gtb in *;
  unfold leb, ltb, eqb, JsNum.max, JsNum.min, sub, neg, add, fin, cmp in *;
  repeat match goal with
         | H : context [(_ ?= _)%Q] |- _ => revert H
         end;
  repeat match goal with
         | |- context [(?a ?= ?b)%Q] => destruct (Qcompare_spec a b)
         end;
  intros; try discriminate; try reflexivity.

Ltac reds :=
  repeat match goal with
         | H : context [Qred ?x] |- _ =>
             lazymatch goal with
             | _ : (Qred x == x)%Q |- _ => fail
             | _ => pose proof (Qred_correct x)
             end
         | |- context [Qred ?x] =>
             lazymatch goal with
             | _ : (Qred x == x)%Q |- _ => fail
             | _ => pose proof (Qred_correct x)
             end
         end.

(** A negative frame is clamped to zero. *)
Lemma clamp_negative (frame d : num) :
  (#1 <=? d) = true -> (frame <? #0) = true ->
  JsNum.max #0 (JsNum.min frame (d - #1)) = #0.
Proof.
  intros Hd Hf.
  destruct d as [dq| | |]; try discriminate;
    destruct frame as [fq| | |]; try discriminate;
    by_cases; reds; cbn in *; lra.
Qed.

(** A frame at or beyond the duration is clamped to the last frame. *)
Lemma clamp_beyond (frame d : num) :
  (#1 <=? d) = true -> (frame >=? d) = true ->
  JsNum.max #0 (JsNum.min frame (d - #1)) = d - #1.
Proof.
  intros Hd Hf.
  destruct d as [dq| | |]; try discriminate;
    destruct frame as [fq| | |]; try discriminate;
    by_cases; reds; cbn in *; try lra.
  all: change (Fin (Qred 0)) with (fin 0); apply fin_eq; lra.
Qed.

(** The clamped frame lies between zero and the last frame. *)
Lemma clamp_range (frame d : num) :
  (#1 <=? d) = true -> frame <> NaN ->
  (#0 <=? JsNum.max #0 (JsNum.min frame (d - #1))) = true
  /\ (JsNum.max #0 (JsNum.min frame (d - #1)) <=? d - #1) = true.
Proof.
  intros Hd Hf.
  destruct d as [dq| | |]; try discriminate;
    destruct frame as [fq| | |]; try contradiction;
    split; by_cases; reds; cbn in *; lra.
Qed.

End ClampFacts.

Section EngineFacts.
Context {M : MathLib}.
Import Engine Spec.
Local Open Scope string_scope.
Local Open Scope list_scope.

(** Claim C7, amended.  When every trigger is bound to listeners of the
    host program that do not call back into the engine (no trigger is bound
    to an action of the engine), [seekToFrame(frame)] ends normally in any
    playback state, leaves the current frame at
    [max(0, min(frame, duration - 1))] and changes neither [isPlaying] nor
    the pending animation-frame request.  For a duration of
    at least one frame the clamped value is 0 for a negative argument,
    [duration - 1] for an argument at or beyond the duration, and lies in
    [0, duration - 1] for every argument that is a number. *)
Theorem C7_seekToFrame_clamps (fuel : nat) (frame : num) (s : AnimationEngine) :
  triggersObserved s = true ->
  exists s',
    seekToFrame (run (S fuel)) frame s = Normal s'
    /\ currentFrame s'
       = JsNum.max (ofZ 0) (JsNum.min frame (duration (timeline s) - ofZ 1))%num
    /\ isPlaying s' = isPlaying s
    /\ animationFrameId s' = animationFrameId s
    /\ frameRequests (host s') = frameRequests (host s)
    /\ ((ofZ 1 <=? duration (timeline s))%num = true ->
        ((frame <? ofZ 0)%num = true -> currentFrame s' = ofZ 0)
        /\ ((frame >=? duration (timeline s))%num = true ->
            currentFrame s' = (duration (timeline s) - ofZ 1)%num)
        /\ (frame <> NaN ->
            (ofZ 0 <=? currentFrame s')%num = true
            /\ (currentFrame s' <=? duration (timeline s) - ofZ 1)%num = true)).
Proof.
  intros Hobs. unfold seekToFrame, sequ. cbn [andThen].
  set (c := JsNum.max _ _).
  destruct (updateFrame_touched fuel c (set_currentFrame c s) Hobs)
    as (s' & H & (L & A & Hs')).
  exists s'. split; [exact H|]. subst s'. cbn.
  repeat apply conj; try reflexivity.
  intros Hd. subst c. repeat apply conj.
  - now apply clamp_negative.
  - now apply clamp_beyond.
  - now apply clamp_range.
Qed.

(** Claim C10.  [playSequence(id)] for an id that is not a key of
    [sequences] returns at once and leaves the whole state as it was: no
    entry in [activeSequences], no runtime object, nothing logged or
    dispatched, and [isPlaying], the pending frame request and the current
    frame unchanged. *)
Theorem C10_playSequence_unregistered (call : Call -> method) (sequenceId : string)
    (s : AnimationEngine) :
  sequences s !! sequenceId = None ->
  playSequence call sequenceId s = Normal s
  /\ (forall s', playSequence call sequenceId s = Normal s' ->
         activeSequences s' = activeSequences s
         /\ objects s' = objects s
         /\ log (host s') = log (host s)
         /\ isPlaying s' = isPlaying s
         /\ frameRequests (host s') = frameRequests (host s)
         /\ currentFrame s' = currentFrame s).
Proof.
  intros H. unfold playSequence. rewrite H. split; [reflexivity|].
  now intros s' [= <-].
Qed.

(** Claim C1, evaluated on the sequence test.  [playSequence] registers
    the completion listener of [group1] under [frame_30] (start 10 plus
    duration 20) and the step's listener under [animationComplete].  When
    the current frame then reaches 30, by [seekToFrame(30)] or by an
    animation frame 510 ms later (30.6 frame times at 60 frames a second),
    [updateFrame] dispatches nothing:
    the listener of [frame_30] stays registered, [animationComplete] is
    never dispatched and the sequence stays at step 0.  The manager's
    [checkFrameEvents], which nothing calls, would have dispatched
    [animationComplete], then the step's event, and completed the
    sequence. *)
Theorem C1_completion_is_never_dispatched :
  let played := Example.sequencePlayed in
  let sought := Example.after (seekToFrame (run 8) (ofZ 30)) played in
  let ticked :=
    Example.after (animationFrame (run 8) 1)
      (set_host (set_clocks (ofZ 510) (ofZ 510) (host played)) played) in
  let checked := Example.after (checkFrameEvents (run 8)) sought in
  (handlers (eventManager played) !! "frame_30" = Some [GroupCompletion 0 "group1"]
   /\ handlers (eventManager played) !! "animationComplete"
      = Some [ External "mockAnimationCompleteCB" false;
               StepCompletion 1 "testSequence" 0 (Some "sequenceStepComplete") 0 ]
   /\ isPlaying played = true
   /\ frameRequests (host played) = [1])
  /\ (seekToFrame (run 8) (ofZ 30) played = Normal sought
      /\ currentFrame sought = ofZ 30
      /\ em_currentFrame (eventManager sought) = ofZ 30
      /\ log (host sought) = []
      /\ handlers (eventManager sought) !! "frame_30" = Some [GroupCompletion 0 "group1"]
      /\ map currentStep (objects sought) = [0])
  /\ (currentFrame ticked = ofZ 30
      /\ em_currentFrame (eventManager ticked) = ofZ 30
      /\ log (host ticked) = []
      /\ map currentStep (objects ticked) = [0])
  /\ (dispatchedEvents (log (host checked))
      = ["animationComplete"; "sequenceStepComplete"; "sequenceComplete"]
      /\ calledNames (log (host checked))
         = ["mockAnimationCompleteCB"; "mockStepCompleteCB"]
      /\ map currentStep (objects checked) = [1]
      /\ activeSequences checked = ∅).
Proof. cbv zeta. repeat apply conj; (vm_compute; reflexivity). Qed.

End EngineFacts.

(** ** The interpolator (claims C2 and C3) *)

Section InterpolatorFacts.
Context {M : MathLib}.
Import Spec.
Local Open Scope string_scope.
Local Open Scope list_scope.
Local Open Scope num_scope.


Lemma findBracket_two_after (cur st : num) (k1 k2 : Keyframe) :
  (cur <=? st + kf_frame k2) = false ->
  Interpolator.findBracket cur st [k1; k2] = None.
Proof. intros H. cbn. now rewrite H, andb_false_r. Qed.

Lemma findBracket_two_before (cur st : num) (k1 k2 : Keyframe) :
  (cur >=? st + kf_frame k1) = false ->
  Interpolator.findBracket cur st [k1; k2] = None.
Proof. intros H. cbn. now rewrite H. Qed.

(** An animation without bracketing keyframes leaves the copy as it is. *)
Lemma rfold_applyAnimation_outside (cur : num) (frame : Frame)
    (anims : list PropertyAnimation) (el : value) :
  Forall (fun a => Interpolator.findBracket cur (startFrame frame) (keyframes a) = None)
         anims ->
  rfold (Interpolator.applyAnimation cur frame) anims el = Ret el.
Proof.
  induction 1 as [|a anims Ha _ IH]; [reflexivity|].
  cbn [rfold]. unfold Interpolator.applyAnimation at 1. rewrite Ha. exact IH.
Qed.

Lemma applyAnimations_outside (cur : num) (frame : Frame) (els : list Element) :
  Forall (fun e =>
            Forall (fun a =>
                      Interpolator.findBracket cur (startFrame frame) (keyframes a) = None)
                   (default [] (animations e)))
         els ->
  Interpolator.applyAnimations cur els frame
  = Ret (map (fun e => Json.clone (Element_object e)) els).
Proof.
  unfold Interpolator.applyAnimations.
  induction 1 as [|e els He _ IH]; [reflexivity|].
  cbn [rmap map]. rewrite IH.
  destruct (animations e) as [anims|]; [|reflexivity].
  now rewrite rfold_applyAnimation_outside.
Qed.

(** On the one-frame timelines of the examples, while the current frame
    is inside the frame, [getCurrentElements] is [applyAnimations] on the
    frame's elements. *)
Lemma getCurrentElements_timelineOf (els : list Element) (cur : num) :
  (cur >=? ofZ 0) = true -> (cur <? ofZ 300) = true ->
  Interpolator.getCurrentElements (Example.timelineOf els) Example.noPaths cur
  = Interpolator.applyAnimations cur els
      {| startFrame := ofZ 0; fr_duration := ofZ 300; elements := els |}.
Proof.
  intros H0 H1. unfold Interpolator.getCurrentElements, Interpolator.findActiveFrame.
  cbn. rewrite H0. change (fin (inject_Z 0 + inject_Z 300)) with (ofZ 300).
  rewrite H1. cbn. unfold Interpolator.applyAnimations.
  destruct (rmap _ els); reflexivity.
Qed.

Lemma after_40 (cur : num) : (ofZ 41 <=? cur) = true -> (cur <=? ofZ 0 + ofZ 40) = false.
Proof.
  change (ofZ 0 + ofZ 40) with (ofZ 40). unfold ofZ.
  destruct cur as [q| | |]; try discriminate; try reflexivity.
  unfold leb, cmp. destruct (Qcompare_spec (inject_Z 41) q); try discriminate;
    destruct (Qcompare_spec q (inject_Z 40)); try reflexivity;
    unfold inject_Z in *; lra.
Qed.

Lemma before_10 (cur : num) : (cur <? ofZ 10) = true -> (cur >=? ofZ 0 + ofZ 10) = false.
Proof.
  change (ofZ 0 + ofZ 10) with (ofZ 10). unfold ofZ, geb.
  destruct cur as [q| | |]; try discriminate; try reflexivity.
  unfold ltb, leb, cmp. destruct (Qcompare_spec q (inject_Z 10)); try discriminate;
    destruct (Qcompare_spec (inject_Z 10) q); try reflexivity;
    unfold inject_Z in *; lra.
Qed.

Lemma inside_from_41 (cur : num) : (ofZ 41 <=? cur) = true -> (cur >=? ofZ 0) = true.
Proof.
  unfold ofZ, geb. destruct cur as [q| | |]; try discriminate; try reflexivity.
  unfold leb, cmp. destruct (Qcompare_spec (inject_Z 41) q); try discriminate;
    destruct (Qcompare_spec (inject_Z 0) q); try reflexivity;
    unfold inject_Z in *; lra.
Qed.

(** Outside the frames 10 to 40 the played group resolves to copies of
    the two elements. *)
Lemma played_outside (cur : num) :
  (cur >=? ofZ 0) = true -> (cur <? ofZ 300) = true ->
  (cur <? ofZ 10) = true \/ (ofZ 41 <=? cur) = true ->
  Interpolator.getCurrentElements
    (Example.timelineOf [Example.circleAnimated; Example.rectAnimated])
    Example.noPaths cur
  = Ret [ Json.clone (Element_object Example.circleAnimated);
          Json.clone (Element_object Example.rectAnimated) ].
Proof.
  intros H0 H1 Hout. rewrite getCurrentElements_timelineOf by assumption.
  rewrite applyAnimations_outside; [reflexivity|].
  repeat constructor; cbn [startFrame keyframes Example.synthesized];
    (destruct Hout as [Hb | Ha];
     [ apply findBracket_two_before, before_10, Hb
     | apply findBracket_two_after, after_40, Ha ]).
Qed.

(** The same for an engine holding that timeline and no path. *)
Lemma played_outside_engine (s : Engine.AnimationEngine) (cur : num) :
  Engine.timeline s = Example.timelineOf [Example.circleAnimated; Example.rectAnimated] ->
  Engine.pathManager s = Example.noPaths ->
  (cur >=? ofZ 0) = true -> (cur <? ofZ 300) = true ->
  (cur <? ofZ 10) = true \/ (ofZ 41 <=? cur) = true ->
  resolved (Engine.getCurrentElements (Engine.set_currentFrame cur s)) "circle" "radius"
  = Some (VNum (ofZ 50))
  /\ resolved (Engine.getCurrentElements (Engine.set_currentFrame cur s)) "rect" "width"
     = Some (VNum (ofZ 100)).
Proof.
  intros Ht Hp H0 H1 Hout. unfold Engine.getCurrentElements.
  cbn [Engine.timeline Engine.pathManager Engine.currentFrame Engine.set_currentFrame].
  rewrite Ht, Hp, played_outside by assumption.
  split; (vm_compute; reflexivity).
Qed.

Lemma below_300 (cur : num) : (cur <? ofZ 10) = true -> (cur <? ofZ 300) = true.
Proof.
  destruct cur as [q| | |]; try discriminate; try reflexivity.
  unfold ltb, cmp, ofZ.
  destruct (Qcompare_spec q (inject_Z 10)); try discriminate;
    destruct (Qcompare_spec q (inject_Z 300)); try reflexivity;
    unfold inject_Z in *; lra.
Qed.

(** Claim C2, evaluated on the group test.  Playing [testGroup] (parallel,
    elements circle and rect, properties radius and width, start 10,
    duration 30) writes on each element, for each property, exactly two
    keyframes: the current value at frame 10 and its double at frame 40
    (0 and 0 for a property the element lacks).  At frame 40 the radius and
    the width resolve to the doubles 100 and 200, and before frame 10 to
    the values 50 and 100 they had before the group.  From frame 41 on they
    resolve to 50 and 100 again, not to the doubles: after the last
    keyframe no pair brackets the frame and the copy keeps the element's
    own values. *)
Theorem C2_group_values_revert_after_end :
  let at_ (cur : num) :=
    Engine.getCurrentElements (Engine.set_currentFrame cur Example.groupPlayed) in
  (Engine.timeline Example.groupPlayed
   = Example.timelineOf [Example.circleAnimated; Example.rectAnimated]
   /\ Engine.pathManager Example.groupPlayed = Example.noPaths)
  /\ (forall (group : AnimationGroup) (delay n : num),
         Engine.groupKeyframes group delay (VNum n)
         = [ {| kf_frame := gr_startFrame group + delay;
                kf_value := VNum n;
                kf_easing := Some (Engine.groupEasing group) |};
             {| kf_frame := gr_startFrame group + delay + gr_duration group;
                kf_value := VNum (n * #2);
                kf_easing := Some (Engine.groupEasing group) |} ])
  /\ (resolved (at_ (ofZ 40)) "circle" "radius" = Some (VNum (ofZ 100))
      /\ resolved (at_ (ofZ 40)) "rect" "width" = Some (VNum (ofZ 200)))
  /\ (forall cur : num,
         (cur >=? ofZ 0) = true -> (cur <? ofZ 10) = true ->
         resolved (at_ cur) "circle" "radius" = Some (VNum (ofZ 50))
         /\ resolved (at_ cur) "rect" "width" = Some (VNum (ofZ 100)))
  /\ (forall cur : num,
         (ofZ 41 <=? cur) = true -> (cur <? ofZ 300) = true ->
         resolved (at_ cur) "circle" "radius" = Some (VNum (ofZ 50))
         /\ resolved (at_ cur) "rect" "width" = Some (VNum (ofZ 100))).
Proof.
  cbv zeta.
  assert (Engine.timeline Example.groupPlayed
          = Example.timelineOf [Example.circleAnimated; Example.rectAnimated]) as Ht
    by (vm_compute; reflexivity).
  assert (Engine.pathManager Example.groupPlayed = Example.noPaths) as Hp
    by (vm_compute; reflexivity).
  repeat apply conj.
  - exact Ht.
  - exact Hp.
  - reflexivity.
  - vm_compute; reflexivity.
  - vm_compute; reflexivity.
  - intros cur H0 H1.
    apply played_outside_engine; auto using below_300.
  - intros cur H0 H1.
    apply played_outside_engine; auto using inside_from_41.
Qed.

(** *** Keyframes on the same frame *)





End InterpolatorFacts.

(** ** The object graph ([getCurrentElements] and the timeline, claim C4) *)

Section HeapFacts.
Context {M : MathLib}.
Import Spec.
Local Open Scope string_scope.
Local Open Scope list_scope.

(** Claim C4, evaluated on a polygon whose [points] are objects.  The
    element is copied before anything is written, but for an array of
    objects the value written to the copy holds the very objects of the
    end keyframe: after [getCurrentElements()] at frame 5 the returned
    element and the timeline share the object at address 7, the point of
    the end keyframe.  With a second animation on [points.0.x] the call
    writes the interpolated coordinate 50 into that object: the end
    keyframe of the timeline, which held 10, holds 50 after the call, and
    the timeline does not serialise to the same tree as before. *)
Theorem C4_returned_element_aliases_keyframe :
  let path := "layers.0.frames.0.elements.0.animations.0.keyframes.1.value.0.x" in
  let endKeyframeX h timeline :=
    option_map (fun v => Json.getNestedProperty v path) (treeOf h timeline) in
  (let timeline := fst (Example.loaded [Example.pointsAnimation]) in
   let h0 := snd (Example.loaded [Example.pointsAnimation]) in
   exists element h1,
     Refs.getCurrentElements timeline Example.noPaths (ofZ 5) h0 = Ret ([element], h1)
     /\ shared h1 element timeline = [7]
     /\ 7 < List.length h0)
  /\ (let timeline :=
        fst (Example.loaded [Example.pointsAnimation; Example.firstXAnimation]) in
      let h0 :=
        snd (Example.loaded [Example.pointsAnimation; Example.firstXAnimation]) in
      exists element h1,
        Refs.getCurrentElements timeline Example.noPaths (ofZ 5) h0 = Ret ([element], h1)
        /\ shared h1 element timeline = [7]
        /\ h0 !! 7 = Some (Refs.RObject [ ("x", Refs.RNum (ofZ 10));
                                          ("y", Refs.RNum (ofZ 10)) ])
        /\ h1 !! 7 = Some (Refs.RObject [ ("x", Refs.RNum (ofZ 50));
                                          ("y", Refs.RNum (ofZ 10)) ])
        /\ endKeyframeX h0 timeline = Some (Ret (VNum (ofZ 10)))
        /\ endKeyframeX h1 timeline = Some (Ret (VNum (ofZ 50)))
        /\ treeOf h0 timeline <> treeOf h1 timeline).
Proof.
  cbv zeta. split.
  - eexists. eexists. split; [vm_compute; reflexivity|].
    split; [vm_compute; reflexivity|]. vm_compute. lia.
  - eexists. eexists. split; [vm_compute; reflexivity|].
    repeat apply conj; try (vm_compute; reflexivity).
    intros H.
    apply (f_equal (option_map (fun v =>
             Json.getNestedProperty v
               "layers.0.frames.0.elements.0.animations.0.keyframes.1.value.0.x"))) in H.
    vm_compute in H. discriminate H.
Qed.

End HeapFacts.

(** ** Instances in a host *)

Section AtHost.
Import Engine Spec.
Local Open Scope string_scope.
Local Open Scope list_scope.

#[local] Existing Instance Example.nanMath.

#[local] Instance nanMath_laws : MathNaN Example.nanMath.
Proof. split; reflexivity. Qed.



(** Claim C5 at the manager of the event tests and frame 30. *)
Lemma C5_triggers_fire_once_witness :
  triggersObserved Example.rangeManager = true
  /\ exists s1 s2,
       updateFrame (run 8) (ofZ 30) Example.rangeManager = Normal s1
       /\ updateFrame (run 8) (ofZ 30) s1 = Normal s2
       /\ log (host s2) = log (host s1)
       /\ activeRangeTriggers (eventManager s2)
          = activeRangeTriggers (eventManager s1).
Proof.
  assert (triggersObserved Example.rangeManager = true) as H
    by (vm_compute; reflexivity).
  split; [exact H|].
  destruct (proj1 (C5_triggers_fire_once 7 (ofZ 30) Example.rangeManager H))
    as (s1 & s2 & H1 & H2 & H3 & H4 & _).
  exists s1, s2. repeat apply conj; assumption.
Defined.

(** Claim C6 at a manager with two listeners, the first of which throws:
    both are called, in order. *)
Lemma C6_dispatch_calls_all_in_order_witness :
  let hs := [External "faulty" true; External "sound" false] in
  (handlers (eventManager Example.twoListeners) !! "tick" = Some hs
   /\ forallb isExternal hs = true)
  /\ exists s',
       dispatchEvent (run 8) "tick" VNull Example.twoListeners = Normal s'
       /\ log (host s')
          = log (host Example.twoListeners)
            ++ Dispatched "tick" VNull :: calls "tick" VNull hs
       /\ calledNames (calls "tick" VNull hs) = ["faulty"; "sound"].
Proof.
  cbv zeta.
  assert (handlers (eventManager Example.twoListeners) !! "tick"
          = Some [External "faulty" true; External "sound" false]) as H1
    by (vm_compute; reflexivity).
  assert (forallb isExternal [External "faulty" true; External "sound" false] = true)
    as H2 by reflexivity.
  split; [now split|].
  destruct (C6_dispatch_calls_all_in_order 7 "tick" VNull _ Example.twoListeners H1 H2)
    as (s' & Hd & Hl & Hn & _).
  exists s'. repeat apply conj; assumption.
Defined.

(** Claim C5, the part that fails: the engine has a frame trigger on frame
    30 bound to the default action [gotoFrame] with the parameter
    [frame: 10], and a listener of the host program on that action.
    [updateFrame(30)] fires the trigger, whose action seeks to frame 10
    and so leaves the manager on frame 10; a second [updateFrame(30)]
    right after it fires the trigger again: the host listener has been
    called once after the first call and twice after the second. *)
Lemma C5_engine_action_fires_again :
  let s1 := Example.after (updateFrame (run 8) (ofZ 30)) Example.gotoAtThirty in
  let s2 := Example.after (updateFrame (run 8) (ofZ 30)) s1 in
  triggersObserved Example.gotoAtThirty = false
  /\ updateFrame (run 8) (ofZ 30) Example.gotoAtThirty = Normal s1
  /\ calledNames (log (host s1)) = ["spy"]
  /\ em_currentFrame (eventManager s1) = ofZ 10
  /\ updateFrame (run 8) (ofZ 30) s1 = Normal s2
  /\ calledNames (log (host s2)) = ["spy"; "spy"]
  /\ log (host s2) <> log (host s1).
Proof.
  cbv zeta. repeat apply conj; try (vm_compute; reflexivity).
  intros H. apply (f_equal calledNames) in H. vm_compute in H. discriminate H.
Qed.

(** Claim C6, the part that fails: in the sequence test the listener of the
    waiting step is registered on [animationComplete] before a listener of
    the host program.  The step's listener removes itself from the list
    while [dispatchEvent('animationComplete')] iterates over it, so the
    iteration ends before it reaches the host listener: the dispatch
    returns normally, the host listener is still registered and has not
    been called. *)
Lemma C6_self_removing_listener_skips_next :
  let s' := Example.after (dispatchEvent (run 8) "animationComplete" VNull)
              Example.stepThenSibling in
  handlers (eventManager Example.stepThenSibling) !! "animationComplete"
  = Some [ StepCompletion 1 "testSequence" 0 (Some "sequenceStepComplete") 0;
           External "sibling" false ]
  /\ dispatchEvent (run 8) "animationComplete" VNull Example.stepThenSibling
     = Normal s'
  /\ calledNames (log (host s')) = []
  /\ dispatchedEvents (log (host s'))
     = ["animationComplete"; "sequenceStepComplete"; "sequenceComplete"]
  /\ handlers (eventManager s') !! "animationComplete"
     = Some [External "sibling" false].
Proof. cbv zeta. repeat apply conj; (vm_compute; reflexivity). Qed.

(** Claim C7, the part that fails.  An engine is playing and has a frame
    trigger on frame 10 bound to the default action [pause]: after
    [seekToFrame(10)] it is paused.  An engine has a frame trigger on
    frame 30 bound to the default action [gotoFrame] with the parameter
    [frame: 10]: [seekToFrame(30)], whose argument lies inside
    [0, duration - 1], leaves the current frame at 10. *)
Lemma C7_seek_runs_pause_action :
  (isPlaying Example.pauseAtTen = true
   /\ seekToFrame (run 8) (ofZ 10) Example.pauseAtTen
      = Normal (Example.after (seekToFrame (run 8) (ofZ 10)) Example.pauseAtTen)
   /\ isPlaying (Example.after (seekToFrame (run 8) (ofZ 10)) Example.pauseAtTen)
      = false)
  /\ (seekToFrame (run 8) (ofZ 30) Example.gotoAtThirty
      = Normal (Example.after (seekToFrame (run 8) (ofZ 30)) Example.gotoAtThirty)
      /\ currentFrame (Example.after (seekToFrame (run 8) (ofZ 30))
                         Example.gotoAtThirty)
         = ofZ 10).
Proof. repeat apply conj; (vm_compute; reflexivity). Qed.

(** The amended claim C7 at an engine in use: it is playing at frame 40,
    inside the range of a trigger bound to a host listener, and a sequence
    is waiting.  [seekToFrame(-10)] moves it to frame 0 and
    [seekToFrame(1000)] to frame 299, the last of the 300 frames; it is
    still playing after either. *)
Lemma C7_seekToFrame_clamps_witness :
  (triggersObserved Example.busy = true
   /\ isPlaying Example.busy = true
   /\ currentFrame Example.busy = ofZ 40
   /\ duration (timeline Example.busy) = ofZ 300)
  /\ (exists s',
        seekToFrame (run 8) (ofZ (-10)) Example.busy = Normal s'
        /\ currentFrame s' = ofZ 0
        /\ isPlaying s' = true)
  /\ (exists s',
        seekToFrame (run 8) (ofZ 1000) Example.busy = Normal s'
        /\ currentFrame s' = ofZ 299
        /\ isPlaying s' = true).
Proof.
  assert (triggersObserved Example.busy = true) as H by (vm_compute; reflexivity).
  assert (isPlaying Example.busy = true) as Hp by (vm_compute; reflexivity).
  assert (currentFrame Example.busy = ofZ 40) as Hc by (vm_compute; reflexivity).
  assert (duration (timeline Example.busy) = ofZ 300) as Hd
    by (vm_compute; reflexivity).
  assert ((ofZ 1 <=? duration (timeline Example.busy))%num = true) as H1
    by (rewrite Hd; reflexivity).
  refine (conj (conj H (conj Hp (conj Hc Hd))) (conj _ _)).
  - destruct (C7_seekToFrame_clamps 7 (ofZ (-10)) Example.busy H)
      as (s' & Hs & _ & Hplay & _ & _ & Hclamp).
    exists s'. refine (conj Hs (conj _ _)).
    + apply (proj1 (Hclamp H1)). reflexivity.
    + now rewrite Hplay.
  - destruct (C7_seekToFrame_clamps 7 (ofZ 1000) Example.busy H)
      as (s' & Hs & _ & Hplay & _ & _ & Hclamp).
    exists s'. refine (conj Hs (conj _ _)).
    + rewrite (proj1 (proj2 (Hclamp H1))) by (rewrite Hd; reflexivity).
      rewrite Hd. reflexivity.
    + now rewrite Hplay.
Defined.

(** Claim C10 at a fresh engine, where no sequence is registered. *)
Lemma C10_playSequence_unregistered_witness :
  let s := newAnimationEngine Example.testTimeline in
  sequences s !! "missing" = None
  /\ playSequence (run 8) "missing" s = Normal s.
Proof.
  cbv zeta.
  assert (sequences (newAnimationEngine Example.testTimeline) !! "missing" = None)
    as H by (vm_compute; reflexivity).
  split; [exact H|].
  exact (proj1 (C10_playSequence_unregistered (run 8) "missing" _ H)).
Defined.

End AtHost.


(* ================================================================= *)
(** * Further properties *)
(* ================================================================= *)

(** ** Arithmetic on finite numbers *)

Section FiniteFacts.
Local Open Scope num_scope.

Lemma add_Fin (a b : Q) : Fin a + Fin b = fin (a + b).
Proof. reflexivity. Qed.

Lemma mul_Fin (a b : Q) : Fin a * Fin b = fin (a * b).
Proof. reflexivity. Qed.

Lemma neg_Fin (a : Q) : - Fin a = fin (- a).
Proof. reflexivity. Qed.

Lemma sub_Fin (a b : Q) : Fin a - Fin b = fin (a - b).
Proof.
  unfold sub. rewrite neg_Fin. unfold fin at 1. rewrite add_Fin.
  apply fin_eq. now rewrite Qred_correct.
Qed.

Lemma div_Fin (a b : Q) : ~ (b == 0)%Q -> Fin a / Fin b = fin (a / b).
Proof.
  intros H. unfold div.
  destruct (Qeq_bool b 0) eqn:E; [|reflexivity].
  apply Qeq_bool_iff in E. contradiction.
Qed.

Lemma min_Fin (a b : Q) :
  JsNum.min (Fin a) (Fin b) = if Qlt_le_dec b a then Fin b else Fin a.
Proof.
  unfold JsNum.min, cmp.
  destruct (Qcompare_spec a b), (Qlt_le_dec b a); try reflexivity; lra.
Qed.

Lemma max_Fin (a b : Q) :
  JsNum.max (Fin a) (Fin b) = if Qlt_le_dec a b then Fin b else Fin a.
Proof.
  unfold JsNum.max, cmp.
  destruct (Qcompare_spec a b), (Qlt_le_dec a b); try reflexivity; lra.
Qed.

Lemma geb_Fin_true (a b : Q) : (b <= a)%Q -> (Fin a >=? Fin b) = true.
Proof. intros H. unfold geb. now apply leb_Fin_true. Qed.

Lemma cmp_ofZ (a b : Z) : cmp (ofZ a) (ofZ b) = Some (a ?= b)%Z.
Proof.
  unfold cmp, ofZ, Qcompare, inject_Z. cbn [Qnum Qden]. now rewrite !Z.mul_1_r.
Qed.

Lemma gtb_ofZ (k : Z) : (ofZ k >? #0) = true -> (0 < k)%Z.
Proof.
  unfold gtb, ltb. change (#0) with (ofZ 0). rewrite cmp_ofZ.
  destruct (Z.compare_spec 0 k); try discriminate. lia.
Qed.

End FiniteFacts.

(** Normal form of an arithmetic expression on finite numbers, and
    equality of two such expressions. *)
Ltac num_norm :=
  repeat (unfold fin; rewrite ?sub_Fin, ?add_Fin, ?mul_Fin, ?neg_Fin).

Ltac num_eq :=
  num_norm; apply fin_eq; rewrite ?Qred_correct; try ring.

Ltac q_solve := rewrite ?Qred_correct; lra.

(** Decides the comparisons of a conditional from the hypotheses. *)
Ltac decide_ifs :=
  repeat match goal with
         | |- context [JsNum.ltb (Fin ?a) (Fin ?b)] =>
             first [ rewrite (ltb_Fin_true a b) by q_solve
                   | rewrite (ltb_Fin_false a b) by q_solve ]
         end.

Ltac unit_powers u :=
  let H1 := fresh in let H2 := fresh in let H3 := fresh in
  let H4 := fresh in let H5 := fresh in
  assert (0 <= u <= 1)%Q as H1 by lra;
  assert (0 <= u * u <= 1)%Q as H2 by nra;
  assert (0 <= u * u * u <= 1)%Q as H3 by nra;
  assert (0 <= u * u * u * u <= 1)%Q as H4 by nra;
  assert (0 <= u * u * u * u * u <= 1)%Q as H5 by nra.

Ltac unit_start := intros q Hq; cbv zeta; num_norm.

Ltac unit_end := eexists; split; [reflexivity|]; rewrite ?Qred_correct.

Section UnitFacts.
Import Notions.
Local Open Scope num_scope.

Lemma inUnit_Fin (x : num) :
  inUnit x = true <-> exists q, x = Fin q /\ (0 <= q <= 1)%Q.
Proof.
  unfold inUnit, fin. split.
  - destruct x as [q| | |]; try discriminate.
    destruct (Qlt_le_dec q 0);
      [rewrite (leb_Fin_false (Qred 0) q) by q_solve; discriminate|].
    destruct (Qlt_le_dec 1 q);
      [rewrite (leb_Fin_false q (Qred 1)) by q_solve; rewrite andb_false_r;
       discriminate|].
    intros _. exists q. split; [reflexivity | lra].
  - intros (q & -> & H1 & H2).
    rewrite (leb_Fin_true (Qred 0) q), (leb_Fin_true q (Qred 1)) by q_solve.
    reflexivity.
Qed.

(** Clamping to the unit interval a number already in it. *)
Lemma clamp_unit (o : Q) :
  (0 <= o <= 1)%Q ->
  exists o', JsNum.max #0 (JsNum.min #1 (Fin o)) = Fin o' /\ (o' == o)%Q.
Proof.
  intros H. unfold fin. rewrite min_Fin.
  destruct (Qlt_le_dec o (Qred 1)) as [L|L]; rewrite ?Qred_correct in L;
    rewrite max_Fin;
    match goal with
    | |- context [Qlt_le_dec ?a ?b] => destruct (Qlt_le_dec a b) as [L'|L']
    end;
    rewrite ?Qred_correct in L'; eexists; (split; [reflexivity|]);
    rewrite ?Qred_correct; lra.
Qed.

End UnitFacts.


(** ** Easing: range *)

Section EasingMore.
Context {M : MathLib}.
Import Notions.
Local Open Scope string_scope.
Local Open Scope list_scope.
Local Open Scope num_scope.

Lemma unit_easeInQuad : unitQ Easing.easeInQuad.
Proof. unfold Easing.easeInQuad. unit_start. unit_end. unit_powers q. nra. Qed.

Lemma unit_easeOutQuad : unitQ Easing.easeOutQuad.
Proof. unfold Easing.easeOutQuad. unit_start. unit_end. unit_powers (1-q)%Q. nra. Qed.

Lemma unit_easeInOutQuad : unitQ Easing.easeInOutQuad.
Proof.
  unfold Easing.easeInOutQuad. unit_start.
  destruct (Qlt_le_dec q (Qmake 1 2)); decide_ifs; unit_end.
  - unit_powers (2*q)%Q. nra.
  - unit_powers (2 - 2*q)%Q. nra.
Qed.

Lemma unit_easeInCubic : unitQ Easing.easeInCubic.
Proof. unfold Easing.easeInCubic. unit_start. unit_end. unit_powers q. nra. Qed.

Lemma unit_easeOutCubic : unitQ Easing.easeOutCubic.
Proof. unfold Easing.easeOutCubic. unit_start. unit_end. unit_powers (1-q)%Q. nra. Qed.

Lemma unit_easeInOutCubic : unitQ Easing.easeInOutCubic.
Proof.
  unfold Easing.easeInOutCubic. unit_start.
  destruct (Qlt_le_dec q (Qmake 1 2)); decide_ifs; unit_end.
  - unit_powers (2*q)%Q. nra.
  - unit_powers (2 - 2*q)%Q. nra.
Qed.

Lemma unit_easeInQuart : unitQ Easing.easeInQuart.
Proof. unfold Easing.easeInQuart. unit_start. unit_end. unit_powers q. nra. Qed.

Lemma unit_easeOutQuart : unitQ Easing.easeOutQuart.
Proof. unfold Easing.easeOutQuart. unit_start. unit_end. unit_powers (1-q)%Q. nra. Qed.

Lemma unit_easeInOutQuart : unitQ Easing.easeInOutQuart.
Proof.
  unfold Easing.easeInOutQuart. unit_start.
  destruct (Qlt_le_dec q (Qmake 1 2)); decide_ifs; unit_end.
  - unit_powers (2*q)%Q. nra.
  - unit_powers (2 - 2*q)%Q. nra.
Qed.

Lemma unit_easeInQuint : unitQ Easing.easeInQuint.
Proof. unfold Easing.easeInQuint. unit_start. unit_end. unit_powers q. nra. Qed.

Lemma unit_easeOutQuint : unitQ Easing.easeOutQuint.
Proof. unfold Easing.easeOutQuint. unit_start. unit_end. unit_powers (1-q)%Q. nra. Qed.

Lemma unit_easeInOutQuint : unitQ Easing.easeInOutQuint.
Proof.
  unfold Easing.easeInOutQuint. unit_start.
  destruct (Qlt_le_dec q (Qmake 1 2)); decide_ifs; unit_end.
  - unit_powers (2*q)%Q. nra.
  - unit_powers (2 - 2*q)%Q. nra.
Qed.

Lemma bounce_thresholds :
  #1 / #2.75 = Fin (Qmake 4 11) /\ #2 / #2.75 = Fin (Qmake 8 11)
  /\ #2.5 / #2.75 = Fin (Qmake 10 11) /\ #1.5 / #2.75 = Fin (Qmake 6 11)
  /\ #2.25 / #2.75 = Fin (Qmake 9 11) /\ #2.625 / #2.75 = Fin (Qmake 21 22).
Proof. repeat apply conj; reflexivity. Qed.

Lemma unit_easeOutBounce : unitQ Easing.easeOutBounce.
Proof.
  unfold Easing.easeOutBounce. intros q Hq. cbv zeta.
  destruct bounce_thresholds as (-> & -> & -> & -> & -> & ->).
  num_norm.
  destruct (Qlt_le_dec q (Qmake 4 11)); [|destruct (Qlt_le_dec q (Qmake 8 11));
    [|destruct (Qlt_le_dec q (Qmake 10 11))]]; decide_ifs; unit_end; nra.
Qed.

Lemma unit_easeInBounce : unitQ Easing.easeInBounce.
Proof.
  unfold Easing.easeInBounce. intros q Hq. num_norm.
  destruct (unit_easeOutBounce (Qred (Qred 1 - q))) as (r & -> & Hr);
    [rewrite ?Qred_correct; lra|].
  num_norm. unit_end. lra.
Qed.

Lemma unit_easeInOutBounce : unitQ Easing.easeInOutBounce.
Proof.
  unfold Easing.easeInOutBounce. intros q Hq. num_norm.
  destruct (Qlt_le_dec q (Qmake 1 2)); decide_ifs.
  - destruct (unit_easeInBounce (Qred (q * Qred 2))) as (r & -> & Hr);
      [rewrite ?Qred_correct; lra|].
    num_norm. unit_end. lra.
  - destruct (unit_easeOutBounce (Qred (Qred (q * Qred 2) - Qred 1))) as (r & -> & Hr);
      [rewrite ?Qred_correct; lra|].
    num_norm. unit_end. lra.
Qed.

Lemma unit_range_all (t : num) :
  inUnit t = true ->
  Forall (fun name => inUnit (Easing.getEasingFunction name t) = true) polynomialEasings.
Proof.
  intros H. pose proof H as H'. apply inUnit_Fin in H' as (q & -> & Hq).
  unfold polynomialEasings.
  repeat (constructor; [apply inUnit_Fin|]); [..|constructor].
  - now exists q.
  - exact (unit_easeInQuad q Hq).
  - exact (unit_easeOutQuad q Hq).
  - exact (unit_easeInOutQuad q Hq).
  - exact (unit_easeInQuad q Hq).
  - exact (unit_easeOutQuad q Hq).
  - exact (unit_easeInOutQuad q Hq).
  - exact (unit_easeInCubic q Hq).
  - exact (unit_easeOutCubic q Hq).
  - exact (unit_easeInOutCubic q Hq).
  - exact (unit_easeInQuart q Hq).
  - exact (unit_easeOutQuart q Hq).
  - exact (unit_easeInOutQuart q Hq).
  - exact (unit_easeInQuint q Hq).
  - exact (unit_easeOutQuint q Hq).
  - exact (unit_easeInOutQuint q Hq).
  - exact (unit_easeInBounce q Hq).
  - exact (unit_easeOutBounce q Hq).
  - exact (unit_easeInOutBounce q Hq).
Qed.

(** Property X2.  Every easing function built from polynomials alone
    (the linear one, the quadratic, cubic, quartic and quintic families
    and the bounce family, under each of their names) maps the unit
    interval into itself. *)
Theorem X2_polynomial_easings_stay_in_unit_interval (name : string) (t : num) :
  In name polynomialEasings ->
  inUnit t = true ->
  inUnit (Easing.getEasingFunction name t) = true.
Proof.
  intros Hin Ht. pose proof (unit_range_all t Ht) as H.
  rewrite List.Forall_forall in H. exact (H name Hin).
Qed.

End EasingMore.


(** ** Property paths and the JSON copy *)

Section JsonFacts.
Import Notions.
Local Open Scope string_scope.
Local Open Scope list_scope.



Lemma lookup_store_other (k k' : string) (v : value) (fs : list (string * value)) :
  k' <> k -> Json.lookup k' (Json.store k v fs) = Json.lookup k' fs.
Proof.
  intros H. induction fs as [|[k0 v0] fs IH]; cbn.
  - now apply String.eqb_neq in H as ->.
  - destruct (String.eqb k k0) eqn:E; cbn.
    + apply String.eqb_eq in E as <-. now apply String.eqb_neq in H as ->.
    + now rewrite IH.
Qed.








(** *** The JSON copy *)

Lemma value_ind' (P : value -> Prop) :
  P VUndef -> P VNull -> (forall b, P (VBool b)) -> (forall n, P (VNum n)) ->
  (forall s, P (VStr s)) ->
  (forall items, Forall P items -> P (VArr items)) ->
  (forall fs, Forall (fun kv => P (snd kv)) fs -> P (VObj fs)) ->
  forall v, P v.
Proof.
  intros H1 H2 H3 H4 H5 H6 H7.
  fix IH 1. intros [| |b|n|s|items|fs].
  - exact H1.
  - exact H2.
  - apply H3.
  - apply H4.
  - apply H5.
  - apply H6. induction items as [|x items IHl]; constructor; [apply IH | exact IHl].
  - apply H7. induction fs as [|[k x] fs IHl]; constructor; [apply IH | exact IHl].
Qed.

Lemma clone_serialisable (v : value) : serialisable (Json.clone v) = true.
Proof.
  induction v as [| |b|n|s|items IH|fs IH] using value_ind'; try reflexivity.
  - now destruct n.
  - cbn. induction IH as [|x items Hx _ IHl]; [reflexivity|].
    cbn. now rewrite Hx, IHl.
  - cbn. induction IH as [|[k x] fs Hx _ IHl]; [reflexivity|].
    cbn in *. destruct x; cbn in *; rewrite ?Hx, ?IHl; try reflexivity; exact IHl.
Qed.

Lemma clone_id (v : value) : serialisable v = true -> Json.clone v = v.
Proof.
  induction v as [| |b|n|s|items IH|fs IH] using value_ind'; try reflexivity;
    try discriminate.
  - now destruct n.
  - cbn. intros H. f_equal.
    induction IH as [|x items Hx _ IHl]; [reflexivity|].
    cbn in *. apply andb_true_iff in H as [Ha Hb]. now rewrite Hx, IHl.
  - cbn. intros H. f_equal.
    induction IH as [|[k x] fs Hx _ IHl]; [reflexivity|].
    cbn in *. apply andb_true_iff in H as [Ha Hb].
    rewrite IHl by exact Hb.
    destruct x; try discriminate; now rewrite <- (Hx Ha) at 2.
Qed.

(** Property X6.  The JSON copy of an object, as [applyAnimations] makes
    it of an element, always gives a tree that can be printed in full;
    copying the copy changes nothing; and an object that can be printed
    in full is its own copy. *)
Theorem X6_clone_normalises (fs : list (string * value)) :
  serialisable (Json.clone (VObj fs)) = true
  /\ Json.clone (Json.clone (VObj fs)) = Json.clone (VObj fs)
  /\ (serialisable (VObj fs) = true -> Json.clone (VObj fs) = VObj fs).
Proof.
  split; [apply clone_serialisable|]. split; [|apply clone_id].
  apply clone_id, clone_serialisable.
Qed.

End JsonFacts.


(** ** Colours *)

Section ColorFacts.
Context {M : MathLib}.
Import Notions.
Local Open Scope string_scope.
Local Open Scope list_scope.

Lemma parseColor_three (hex : string) :
  exists a b c, Interpolator.parseColor hex = [a; b; c].
Proof.
  unfold Interpolator.parseColor.
  destruct (Str.removeFirstHash (Str.chars hex)) as [|h0 [|h1 [|h2 [|h3 l]]]]; eauto.
Qed.

(** Property X7.  When the progress is [NaN], [interpolateColor] returns
    the string [#NaNNaNNaN], which is no colour, whatever the two colours
    are. *)
Theorem X7_interpolateColor_of_NaN (color1 color2 : string) :
  Interpolator.interpolateColor color1 color2 NaN = "#NaNNaNNaN".
Proof.
  unfold Interpolator.interpolateColor.
  destruct (parseColor_three color1) as (a1 & b1 & c1 & ->).
  destruct (parseColor_three color2) as (a2 & b2 & c2 & ->).
  cbn [combine map]. rewrite !mul_nan_r, !add_nan_r. reflexivity.
Qed.

Lemma num_eqb_eq (x y : num) : num_eqb x y = true -> x = y.
Proof.
  destruct x as [[a b]| | |], y as [[c d]| | |]; cbn; try discriminate.
  rewrite andb_true_iff. intros [H1 H2].
  apply Z.eqb_eq in H1. apply Pos.eqb_eq in H2. now subst.
Qed.

Lemma hexCheck_all : forallb hexCheck (map Z.of_nat (seq 0 256)) = true.
Proof. vm_compute. reflexivity. Qed.

Lemma hex2_shape (n : Z) :
  channel n ->
  exists a b, hex2 n = String a (String b EmptyString)
              /\ a <> "#"%char
              /\ Str.parseInt16 (String a (String b EmptyString)) = ofZ n.
Proof.
  intros H. pose proof hexCheck_all as A. rewrite forallb_forall in A.
  specialize (A n). unfold hexCheck in A.
  destruct (hex2 n) as [|a [|b [|]]] eqn:E;
    try (discriminate A; apply in_map_iff; exists (Z.to_nat n);
         split; [unfold channel in H; lia | apply in_seq; unfold channel in H; lia]).
  exists a, b.
  assert (In n (map Z.of_nat (seq 0 256))) as Hin.
  { apply in_map_iff. exists (Z.to_nat n). unfold channel in H.
    split; [lia | apply in_seq; lia]. }
  specialize (A Hin). apply andb_true_iff in A as [A1 A2].
  repeat split.
  - intros ->. discriminate.
  - now apply num_eqb_eq.
Qed.

Lemma parseColor_rgb (r g b : Z) :
  channel r -> channel g -> channel b ->
  Interpolator.parseColor (rgb r g b) = [ofZ r; ofZ g; ofZ b].
Proof.
  intros Hr Hg Hb. unfold rgb.
  destruct (hex2_shape r Hr) as (a1 & b1 & -> & N1 & <-).
  destruct (hex2_shape g Hg) as (a2 & b2 & -> & N2 & <-).
  destruct (hex2_shape b Hb) as (a3 & b3 & -> & N3 & <-).
  reflexivity.
Qed.

Lemma round_ofZ (q : Q) (z : Z) : (q == inject_Z z)%Q -> JsNum.round (Fin q) = ofZ z.
Proof.
  intros H. unfold JsNum.round, ofZ. do 2 f_equal.
  rewrite (Qfloor_comp _ (inject_Z z + Qmake 1 2)) by now rewrite H.
  unfold Qfloor, Qplus, inject_Z. cbn [Qnum Qden].
  rewrite Z.mul_1_l. change (Z.pos (1 * 2)) with 2%Z.
  symmetry. apply Z.div_unique with (r := 1%Z); lia.
Qed.

Lemma round_integer (q : Q) : exists k, JsNum.round (Fin q) = ofZ k.
Proof. eexists. reflexivity. Qed.

Lemma clamp_channel (k : Z) :
  JsNum.max (fin 0) (JsNum.min (fin 255) (ofZ k)) = ofZ (Z.max 0 (Z.min 255 k)).
Proof.
  change (fin 0) with (ofZ 0). change (fin 255) with (ofZ 255).
  unfold JsNum.min. rewrite cmp_ofZ.
  destruct (Z.compare_spec 255 k) as [E|E|E].
  - subst. reflexivity.
  - rewrite Z.min_l, Z.max_r by lia. reflexivity.
  - rewrite (Z.min_r 255 k) by lia.
    unfold JsNum.max. rewrite cmp_ofZ.
    destruct (Z.compare_spec 0 k) as [E'|E'|E'].
    + subst. reflexivity.
    + rewrite Z.max_r by lia. reflexivity.
    + rewrite Z.max_l by lia. reflexivity.
Qed.

Local Open Scope num_scope.

Lemma component_channel (a b : Z) (p : Q) :
  exists x, JsNum.max #0 (JsNum.min #255 (JsNum.round (ofZ a + (ofZ b - ofZ a) * Fin p)))
            = ofZ x /\ channel x.
Proof.
  unfold ofZ at 1 2 3. rewrite sub_Fin. unfold fin at 3. rewrite mul_Fin. unfold fin at 3.
  rewrite add_Fin. unfold fin at 3.
  destruct (round_integer (Qred (inject_Z a + Qred (Qred (inject_Z b - inject_Z a) * p))))
    as [k ->].
  rewrite clamp_channel. eexists. split; [reflexivity|]. unfold channel. lia.
Qed.

Lemma component_at (a b : Z) (p : Q) (z : Z) :
  channel z ->
  (inject_Z a + (inject_Z b - inject_Z a) * p == inject_Z z)%Q ->
  JsNum.max #0 (JsNum.min #255 (JsNum.round (ofZ a + (ofZ b - ofZ a) * Fin p))) = ofZ z.
Proof.
  intros Hz H.
  unfold ofZ at 1 2 3. rewrite sub_Fin. unfold fin at 3. rewrite mul_Fin. unfold fin at 3.
  rewrite add_Fin. unfold fin at 3.
  rewrite (round_ofZ _ z) by (rewrite !Qred_correct; exact H).
  rewrite clamp_channel. f_equal. unfold channel in Hz. lia.
Qed.

Lemma interpolateColor_rgb (r g b r' g' b' : Z) (p : num) (x y z : Z) :
  channel r -> channel g -> channel b -> channel r' -> channel g' -> channel b' ->
  JsNum.max #0 (JsNum.min #255 (JsNum.round (ofZ r + (ofZ r' - ofZ r) * p))) = ofZ x ->
  JsNum.max #0 (JsNum.min #255 (JsNum.round (ofZ g + (ofZ g' - ofZ g) * p))) = ofZ y ->
  JsNum.max #0 (JsNum.min #255 (JsNum.round (ofZ b + (ofZ b' - ofZ b) * p))) = ofZ z ->
  Interpolator.interpolateColor (rgb r g b) (rgb r' g' b') p = rgb x y z.
Proof.
  intros Hr Hg Hb Hr' Hg' Hb' Hx Hy Hz. unfold Interpolator.interpolateColor.
  rewrite !parseColor_rgb by assumption.
  cbn [combine map]. rewrite Hx, Hy, Hz. reflexivity.
Qed.

(** Property X8.  Between two six-digit colours [interpolateColor]
    gives, at every finite progress (also outside the unit interval), a
    six-digit colour whose channels lie between 0 and 255; at progress 0
    it gives the first colour and at progress 1 the second. *)
Theorem X8_interpolateColor_channels (r g b r' g' b' : Z) :
  channel r -> channel g -> channel b -> channel r' -> channel g' -> channel b' ->
  (forall p : Q,
      exists x y z,
        channel x /\ channel y /\ channel z
        /\ Interpolator.interpolateColor (rgb r g b) (rgb r' g' b') (Fin p) = rgb x y z)
  /\ Interpolator.interpolateColor (rgb r g b) (rgb r' g' b') #0 = rgb r g b
  /\ Interpolator.interpolateColor (rgb r g b) (rgb r' g' b') #1 = rgb r' g' b'.
Proof.
  intros Hr Hg Hb Hr' Hg' Hb'. split; [|split].
  - intros p.
    destruct (component_channel r r' p) as (x & Hx & Cx).
    destruct (component_channel g g' p) as (y & Hy & Cy).
    destruct (component_channel b b' p) as (z & Hz & Cz).
    exists x, y, z. refine (conj Cx (conj Cy (conj Cz _))).
    now apply interpolateColor_rgb.
  - apply interpolateColor_rgb; try assumption;
      apply component_at; try assumption; rewrite ?Qred_correct; ring.
  - apply interpolateColor_rgb; try assumption;
      apply component_at; try assumption; rewrite ?Qred_correct; ring.
Qed.
End ColorFacts.


(** ** Three-digit colours *)

Section ShortColors.
Context {M : MathLib}.
Import Notions.
Local Open Scope string_scope.
Local Open Scope list_scope.

Lemma doubled_digit (a : ascii) (i : Z) :
  In (a, i) hexDigits ->
  Str.parseInt16 (Str.ofChars [a; a]) = ofZ (17 * i) /\ channel (17 * i).
Proof.
  assert (forallb (fun p : ascii * Z =>
                     num_eqb (Str.parseInt16 (Str.ofChars [fst p; fst p]))
                       (ofZ (17 * snd p))
                     && (0 <=? 17 * snd p)%Z && (17 * snd p <=? 255)%Z)
            hexDigits = true) as A by (vm_compute; reflexivity).
  rewrite forallb_forall in A. intros Hin. specialize (A _ Hin). cbn [fst snd] in A.
  apply andb_true_iff in A as [A A3]. apply andb_true_iff in A as [A1 A2].
  split; [now apply num_eqb_eq|]. unfold channel. lia.
Qed.

Lemma parseColor_short (a b c : ascii) (i j k : Z) :
  In (a, i) hexDigits -> In (b, j) hexDigits -> In (c, k) hexDigits ->
  Interpolator.parseColor (shortColor a b c)
  = Interpolator.parseColor (rgb (17 * i) (17 * j) (17 * k)).
Proof.
  intros Ha Hb Hc.
  destruct (doubled_digit a i Ha) as [Ea Ca].
  destruct (doubled_digit b j Hb) as [Eb Cb].
  destruct (doubled_digit c k Hc) as [Ec Cc].
  rewrite (parseColor_rgb _ _ _ Ca Cb Cc), <- Ea, <- Eb, <- Ec. reflexivity.
Qed.

(** Property X29.  A three-digit colour, in either case of its digits, is
    read as the six-digit colour that doubles each digit, in the first
    and in the second argument of [interpolateColor]. *)
Theorem X29_short_colors (a b c : ascii) (i j k : Z) (other : string) (progress : num) :
  In (a, i) hexDigits -> In (b, j) hexDigits -> In (c, k) hexDigits ->
  Interpolator.interpolateColor (shortColor a b c) other progress
  = Interpolator.interpolateColor (rgb (17 * i) (17 * j) (17 * k)) other progress
  /\ Interpolator.interpolateColor other (shortColor a b c) progress
     = Interpolator.interpolateColor other (rgb (17 * i) (17 * j) (17 * k)) progress.
Proof.
  intros Ha Hb Hc. unfold Interpolator.interpolateColor.
  now rewrite (parseColor_short a b c i j k Ha Hb Hc).
Qed.

End ShortColors.


(** ** The elements on display *)

Section DisplayFacts.
Context {M : MathLib}.
Import Notions.
Local Open Scope string_scope.
Local Open Scope list_scope.

Lemma idOf_setProperty (v : value) (k : string) (x v' : value) :
  k <> "id" -> Json.setProperty v k x = Ret v' -> idOf v' = idOf v.
Proof.
  intros Hk. destruct v as [| | | | |items|fs]; cbn; try discriminate.
  - destruct (Json.parseIndex k); [|discriminate].
    destruct (_ <=? _)%nat; [|discriminate]. now intros [= <-].
  - intros [= <-]. cbn. rewrite lookup_store_other; [reflexivity | congruence].
Qed.

Lemma applyAnimation_id (cur : num) (frame : Frame) (v : value)
    (a : PropertyAnimation) (v' : value) :
  Interpolator.applyAnimation cur frame v a = Ret v' -> idOf v' = idOf v.
Proof.
  unfold Interpolator.applyAnimation.
  destruct (Interpolator.findBracket _ _ _) as [[k1 k2]|]; [|now intros [= <-]].
  destruct (Interpolator.interpolateValue _ _ _) as [x|]; [|now intros [= <-]].
  destruct (Json.getProperty v "properties") as [props| |]; cbn [rbind]; try discriminate.
  destruct (Json.setNestedProperty props _ x) as [props'| |]; cbn [rbind]; try discriminate.
  apply idOf_setProperty. discriminate.
Qed.

Lemma rfold_applyAnimation_id (cur : num) (frame : Frame)
    (anims : list PropertyAnimation) (v v' : value) :
  rfold (Interpolator.applyAnimation cur frame) anims v = Ret v' -> idOf v' = idOf v.
Proof.
  revert v. induction anims as [|a anims IH]; intros v; cbn [rfold].
  - now intros [= <-].
  - destruct (Interpolator.applyAnimation cur frame v a) as [v1| |] eqn:E;
      cbn [rbind]; try discriminate.
    intros H. rewrite (IH _ H). now apply applyAnimation_id in E.
Qed.

Lemma idOf_clone_element (e : Element) :
  idOf (Json.clone (Element_object e)) = Some (el_id e).
Proof. now destruct e. Qed.

Lemma applyAnimations_ids (cur : num) (els : list Element) (frame : Frame)
    (vs : list value) :
  Interpolator.applyAnimations cur els frame = Ret vs ->
  map idOf vs = map (fun e => Some (el_id e)) els.
Proof.
  unfold Interpolator.applyAnimations. revert vs.
  induction els as [|e els IH]; intros vs; cbn [rmap].
  - now intros [= <-].
  - match goal with |- context [rbind ?x _] => destruct x as [v| |] eqn:E end;
      cbn [rbind]; try discriminate.
    match goal with |- context [rbind ?x _] => destruct x as [vs'| |] eqn:E' end;
      cbn [rbind]; try discriminate.
    intros [= <-]. cbn [map]. rewrite (IH _ eq_refl). f_equal.
    destruct (animations e) as [anims|].
    + apply rfold_applyAnimation_id in E. rewrite E. apply idOf_clone_element.
    + injection E as <-. apply idOf_clone_element.
Qed.

Lemma placeOnPath_id (animation : PathAnimation) (point : Point) (angle : option num)
    (element element' : value) :
  Interpolator.placeOnPath animation point angle element = Ret element' ->
  idOf element' = idOf element.
Proof.
  unfold Interpolator.placeOnPath.
  destruct (Json.getProperty element "properties") as [props0| |]; cbn [rbind];
    try discriminate.
  match goal with |- context [rbind ?x _] => destruct x as [el1| |] eqn:E1 end;
    cbn [rbind]; try discriminate.
  assert (idOf el1 = idOf element) as <-.
  { destruct (Json.truthy props0).
    - now injection E1 as <-.
    - apply idOf_setProperty in E1; [exact E1 | discriminate]. }
  repeat (match goal with |- context [rbind ?x _] => destruct x as [?| |] end;
          cbn [rbind]; try discriminate).
  apply idOf_setProperty. discriminate.
Qed.

Lemma map_insert_same {A B : Type} (f : A -> B) (l : list A) (i : nat) (x d : A) :
  f x = f (nth i l d) -> (i < List.length l)%nat -> map f (<[i := x]> l) = map f l.
Proof.
  revert i. induction l as [|a l IH]; intros [|i]; cbn; intros H L; try lia.
  - now rewrite H.
  - f_equal. apply IH; [exact H | lia].
Qed.

Lemma applyPathAnimations_ids (pm : PathManager) (cur : num) (els vs : list value) :
  Interpolator.applyPathAnimations pm els cur = Ret vs ->
  map idOf vs = map idOf els.
Proof.
  unfold Interpolator.applyPathAnimations. revert els.
  induction (pathAnimations pm) as [|a anims IH]; intros els; cbn [rfold].
  - now intros [= <-].
  - match goal with |- context [rbind ?x _] => destruct x as [els1| |] eqn:E end;
      cbn [rbind]; try discriminate.
    intros H. rewrite (IH _ H). clear H IH.
    destruct (_ && _); [|now injection E as <-].
    destruct (Interpolator.lastWithId _ els 0 None) as [i|]; [|now injection E as <-].
    destruct (paths pm !! _) as [path|]; [|now injection E as <-].
    destruct (getPointAtOffset path _) as [pa| |]; cbn [rbind] in E; try discriminate.
    destruct (Interpolator.placeOnPath a (fst pa) (snd pa) (nth i els VUndef))
      as [el'| |] eqn:P; cbn [rbind] in E; try discriminate.
    injection E as <-. apply placeOnPath_id in P.
    destruct (Nat.lt_ge_cases i (List.length els)) as [L|L].
    + now apply map_insert_same with (d := VUndef).
    + now rewrite list_insert_ge.
Qed.

(** Property X9.  When [getCurrentElements] returns, the objects it
    returns are, by their ids and in this order, the elements of the
    active frame of each visible layer, in the order of the layers: no
    animation adds, drops, reorders or renames an element. *)
Theorem X9_getCurrentElements_ids (timeline : Timeline) (pm : PathManager) (cur : num)
    (vs : list value) :
  Interpolator.getCurrentElements timeline pm cur = Ret vs ->
  map idOf vs = map (fun e => Some (el_id e)) (shown cur timeline).
Proof.
  unfold Interpolator.getCurrentElements, shown.
  enough (forall acc,
            rfold (fun elements layer =>
                     if negb (visible layer) then Ret elements
                     else
                       match Interpolator.findActiveFrame cur layer with
                       | None => Ret elements
                       | Some activeFrame =>
                           let* animatedElements :=
                             Interpolator.applyAnimations cur
                               (Timeline.elements activeFrame) activeFrame in
                           let* animatedElements :=
                             Interpolator.applyPathAnimations pm animatedElements cur in
                           Ret (elements ++ animatedElements)
                       end) (layers timeline) acc = Ret vs ->
            map idOf vs
            = map idOf acc
              ++ map (fun e => Some (el_id e))
                   (flat_map (fun layer =>
                                if visible layer then
                                  match Interpolator.findActiveFrame cur layer with
                                  | Some frame => elements frame
                                  | None => []
                                  end
                                else []) (layers timeline))) as H
    by (intros E; now rewrite (H [] E)).
  induction (layers timeline) as [|layer ls IH]; intros acc; cbn [rfold flat_map].
  - intros [= <-]. now rewrite app_nil_r.
  - destruct (visible layer); cbn [negb rbind]; [|apply IH].
    destruct (Interpolator.findActiveFrame cur layer) as [frame|]; cbn [rbind];
      [|apply IH].
    destruct (Interpolator.applyAnimations cur (elements frame) frame) as [a1| |] eqn:E1;
      cbn [rbind]; try discriminate.
    destruct (Interpolator.applyPathAnimations pm a1 cur) as [a2| |] eqn:E2;
      cbn [rbind]; try discriminate.
    intros H. rewrite (IH _ H), !map_app, <- app_assoc. do 2 f_equal.
    rewrite (applyPathAnimations_ids _ _ _ _ E2). exact (applyAnimations_ids _ _ _ _ E1).
Qed.

Lemma applyPathAnimations_nil (pm : PathManager) (cur : num) :
  Interpolator.applyPathAnimations pm [] cur = Ret [].
Proof.
  unfold Interpolator.applyPathAnimations.
  induction (pathAnimations pm) as [|a anims IH]; [reflexivity|].
  cbn [rfold Interpolator.lastWithId]. destruct (_ && _); cbn [rbind]; exact IH.
Qed.

Lemma findActiveFrame_nan (layer : Layer) : Interpolator.findActiveFrame NaN layer = None.
Proof.
  unfold Interpolator.findActiveFrame.
  induction (frames layer) as [|f fs IH]; [reflexivity|].
  cbn [find]. unfold geb at 1, leb at 1.
  replace (cmp (startFrame f) NaN) with (@None comparison) by now destruct (startFrame f).
  exact IH.
Qed.

Lemma shown_nan (timeline : Timeline) : shown NaN timeline = [].
Proof.
  unfold shown. induction (layers timeline) as [|layer ls IH]; [reflexivity|].
  cbn [flat_map]. rewrite findActiveFrame_nan, IH. now destruct (visible layer).
Qed.

Lemma nothing_shown (timeline : Timeline) (pm : PathManager) (cur : num) :
  shown cur timeline = [] ->
  Interpolator.getCurrentElements timeline pm cur = Ret [].
Proof.
  unfold shown, Interpolator.getCurrentElements.
  induction (layers timeline) as [|layer ls IH]; [reflexivity|].
  cbn [flat_map rfold]. intros H. apply app_eq_nil in H as [H1 H2].
  destruct (visible layer); cbn [negb rbind]; [|now apply IH].
  destruct (Interpolator.findActiveFrame cur layer) as [frame|]; cbn [rbind];
    [|now apply IH].
  rewrite H1. cbn [Interpolator.applyAnimations rmap rbind].
  rewrite applyPathAnimations_nil. cbn [rbind app]. now apply IH.
Qed.

(** Property X10.  [getCurrentElements] returns the empty list, and
    raises nothing, when the current frame is [NaN], and whenever no
    visible layer has an active frame with elements. *)
Theorem X10_getCurrentElements_empty (timeline : Timeline) (pm : PathManager) :
  Interpolator.getCurrentElements timeline pm NaN = Ret []
  /\ (forall cur : num,
         shown cur timeline = [] ->
         Interpolator.getCurrentElements timeline pm cur = Ret []).
Proof.
  split.
  - apply nothing_shown, shown_nan.
  - intros cur. apply nothing_shown.
Qed.

End DisplayFacts.


(** ** Paths *)

Section PathFacts.
Context {M : MathLib}.
Import Notions.
Local Open Scope string_scope.
Local Open Scope list_scope.
Local Open Scope num_scope.

Lemma segmentsFrom_moves (cmds : list AnyPathCommand) (cx cy sx sy : coord) :
  forallb isMoveTo cmds = true -> segmentsFrom cmds cx cy sx sy = [].
Proof.
  revert cx cy sx sy. induction cmds as [|c cmds IH]; intros cx cy sx sy; [reflexivity|].
  destruct c; cbn; try discriminate. apply IH.
Qed.

Lemma last_moves (cmds : list AnyPathCommand) :
  forallb isMoveTo cmds = true -> cmds <> [] ->
  exists x y, last cmds = Some (MoveToCommand x y).
Proof.
  induction cmds as [|c cmds IH]; [congruence|]. intros H _.
  cbn in H. apply andb_true_iff in H as [Hc H].
  destruct cmds as [|c' cmds'].
  - destruct c; try discriminate. cbn. eauto.
  - destruct (IH H) as (x & y & E); [discriminate|]. exists x, y.
    now rewrite last_cons, E.
Qed.

(** Property X11.  On a path that has no segment (its commands, if any,
    are all move-to commands) [getPointAtOffset] ignores the offset: it
    raises a TypeError when the path has no command at all, and otherwise
    returns the point of the last command, without an angle. *)
Theorem X11_path_without_segments (path : Path) (offset : num) :
  forallb isMoveTo (commands path) = true ->
  (commands path = []
   /\ getPointAtOffset path offset = Thrown "TypeError: cannot use 'in' operator")
  \/ (exists x y,
        last (commands path) = Some (MoveToCommand x y)
        /\ getPointAtOffset path offset = Ret ({| px := cnum x; py := cnum y |}, None)).
Proof.
  intros H. unfold getPointAtOffset, calculatePathSegments.
  rewrite (segmentsFrom_moves _ _ _ _ _ H). cbn [fold_left findSegment].
  destruct (commands path) as [|c cmds] eqn:E; [left; split; reflexivity|].
  destruct (last_moves (c :: cmds) H) as (x & y & EL); [discriminate|].
  right. exists x, y. split; [exact EL|]. rewrite EL. reflexivity.
Qed.

(** Property X14.  At a frame that lies in the window of no registered
    path animation, [applyPathAnimations] returns the elements
    unchanged. *)
Theorem X14_no_path_animation_in_window (pm : PathManager)
    (elements : list value) (cur : num) :
  forallb (fun a => negb (inWindow cur a)) (pathAnimations pm) = true ->
  Interpolator.applyPathAnimations pm elements cur = Ret elements.
Proof.
  unfold Interpolator.applyPathAnimations.
  induction (pathAnimations pm) as [|a anims IH]; [reflexivity|].
  cbn [forallb rfold]. intros H. apply andb_true_iff in H as [Ha H].
  unfold inWindow in Ha. apply negb_true_iff in Ha. rewrite Ha. cbn [rbind]. now apply IH.
Qed.

(** Property X15.  The easing of the path manager agrees with the easing
    library on the four names it has a case for, and is the identity on
    every other name, also on the names the library knows. *)
Theorem X15_path_easing (progress : num) (name : string) :
  (In name pathEasings ->
   applyEasing progress name = Easing.getEasingFunction name progress)
  /\ (~ In name pathEasings -> applyEasing progress name = progress).
Proof.
  unfold pathEasings. split.
  - intros [<-|[<-|[<-|[<-|[]]]]]; reflexivity.
  - intros H. unfold applyEasing.
    repeat match goal with
           | |- context [String.eqb name ?s] =>
               destruct (String.eqb_spec name s) as [->|_];
               [exfalso; apply H; cbn; tauto|]
           end.
    reflexivity.
Qed.

(** Property X13.  When the first segment of a path of finite length is
    a line of length zero, the point at offset 0 has [NaN] for both
    coordinates: the position in the segment is computed as 0/0. *)
Theorem X13_zero_length_first_segment (id : string) (cl : bool) (x0 y0 x1 y1 : num)
    (rest : list AnyPathCommand) (z t : Q) :
  let path :=
    {| path_id := id;
       commands := MoveToCommand (Some x0) (Some y0)
                   :: LineToCommand (Some x1) (Some y1) :: rest;
       closed := cl |} in
  distance x0 y0 x1 y1 = Fin z -> (z == 0)%Q ->
  fold_left (fun sum segment => sum + seg_length segment) (calculatePathSegments path) #0
  = Fin t ->
  getPointAtOffset path #0
  = Ret ({| px := NaN; py := NaN |}, Some (Math_atan2 (y1 - y0) (x1 - x0))).
Proof.
  intros path Hz Ez Ht. unfold getPointAtOffset. rewrite Ht.
  unfold calculatePathSegments, path. cbn [commands segmentsFrom cnum]. rewrite Hz.
  destruct (clamp_unit (Qred 0)) as (o' & Eo & Eo'); [rewrite Qred_correct; lra|].
  unfold fin in *. rewrite Eo. cbn [findSegment seg_length]. num_norm.
  rewrite Qred_correct in Eo'.
  rewrite geb_Fin_true by (rewrite ?Qred_correct, Eo', Ez; lra).
  unfold div.
  assert (Qeq_bool z 0 = true) as -> by now apply Qeq_bool_iff.
  assert ((Qred (Qred (t * o') - Qred 0) ?= 0)%Q = Eq) as ->
    by (apply Qeq_alt; rewrite !Qred_correct, Eo'; ring).
  cbn [inf_of]. unfold getPointOnSegment. cbn [cnum].
  change (JsNum.max (Fin (Qred 0)) (JsNum.min (Fin (Qred 1)) NaN)) with NaN.
  now rewrite !mul_nan_r, !add_nan_r.
Qed.
End PathFacts.


(** ** The ends of a segment *)

Section EndFacts.
Context {M : MathLib}.
Import Notions.
Local Open Scope num_scope.

Lemma clamp_below (o : Q) :
  (o <= 0)%Q -> exists o', JsNum.max #0 (JsNum.min #1 (Fin o)) = Fin o' /\ (o' == 0)%Q.
Proof.
  intros H. unfold fin. rewrite min_Fin.
  destruct (Qlt_le_dec o (Qred 1)) as [L|L]; rewrite ?Qred_correct in L; [|lra].
  rewrite max_Fin.
  destruct (Qlt_le_dec (Qred 0) o) as [L'|L']; rewrite ?Qred_correct in L'; [lra|].
  eexists. split; [reflexivity|]. now rewrite Qred_correct.
Qed.

Lemma clamp_above (o : Q) :
  (1 <= o)%Q -> exists o', JsNum.max #0 (JsNum.min #1 (Fin o)) = Fin o' /\ (o' == 1)%Q.
Proof.
  intros H. unfold fin. rewrite min_Fin.
  destruct (Qlt_le_dec o (Qred 1)) as [L|L]; rewrite ?Qred_correct in L; [lra|].
  rewrite max_Fin.
  destruct (Qlt_le_dec (Qred 0) (Qred 1)) as [L'|L']; rewrite ?Qred_correct in L'; [|lra].
  eexists. split; [reflexivity|]. now rewrite Qred_correct.
Qed.

Lemma eqb_Fin (a b : Q) : (a == b)%Q -> (Fin a =? Fin b) = true.
Proof. intros H. unfold eqb. cbn. apply Qeq_alt in H. now rewrite H. Qed.

Lemma point_at_clamped (segment : PathSegment) (o o' : Q) :
  isBezier segment = true ->
  forallb isFinite (segmentCoords segment) = true ->
  JsNum.max #0 (JsNum.min #1 (Fin o)) = Fin o' ->
  ((o' == 0)%Q ->
   samePoint (fst (getPointOnSegment segment (Fin o))) (segmentStart segment) = true)
  /\ ((o' == 1)%Q ->
      samePoint (fst (getPointOnSegment segment (Fin o))) (segmentEnd segment) = true).
Proof.
  intros Hb Hf Hc. unfold getPointOnSegment. rewrite Hc.
  destruct segment; try discriminate Hb; cbn [segmentCoords forallb] in Hf;
    repeat match type of Hf with
           | context [isFinite ?c] =>
               is_var c; destruct c as [[?| | |]|]; cbn [isFinite andb] in Hf;
               try discriminate Hf
           end;
    split; intros E; unfold getPointOnCubicBezier, getPointOnQuadraticBezier, samePoint;
    cbn [fst cnum segmentStart segmentEnd px py]; cbv zeta; num_norm;
    rewrite !eqb_Fin; try reflexivity; rewrite ?Qred_correct, E; ring.
Qed.

(** Property X27.  On a cubic or quadratic segment whose coordinates are
    finite, the point at an offset of 0 or less is the point the segment
    starts at, and the point at an offset of 1 or more is the point it
    leads to: offsets are clamped, and the curve passes through its two
    ends (every other term of the polynomial is a product with zero). *)
Theorem X27_segment_ends (segment : PathSegment) (o : Q) :
  isBezier segment = true ->
  forallb isFinite (segmentCoords segment) = true ->
  ((o <= 0)%Q ->
   samePoint (fst (getPointOnSegment segment (Fin o))) (segmentStart segment) = true)
  /\ ((1 <= o)%Q ->
      samePoint (fst (getPointOnSegment segment (Fin o))) (segmentEnd segment) = true).
Proof.
  intros Hb Hf. split; intros Ho.
  - destruct (clamp_below o Ho) as (o' & Hc & E).
    now apply (proj1 (point_at_clamped segment o o' Hb Hf Hc)).
  - destruct (clamp_above o Ho) as (o' & Hc & E).
    now apply (proj2 (point_at_clamped segment o o' Hb Hf Hc)).
Qed.
End EndFacts.


(** ** SVG path data, continued *)

Section SvgMore.
Import Notions.
Local Open Scope string_scope.
Local Open Scope list_scope.

Lemma chars_app (s1 s2 : string) : Str.chars (s1 ++ s2) = Str.chars s1 ++ Str.chars s2.
Proof.
  unfold Str.chars. induction s1 as [|a s1 IH]; [reflexivity|].
  simpl. f_equal. exact IH.
Qed.

Lemma matches_app (l1 l2 : list ascii) (cur : option (list ascii)) :
  match l2 with a :: _ => Str.isLetter a = true | [] => True end ->
  SvgPath.matches (l1 ++ l2) cur = SvgPath.matches l1 cur ++ SvgPath.matches l2 None.
Proof.
  intros H. revert cur. induction l1 as [|a l1 IH]; intros cur; cbn [app SvgPath.matches].
  - destruct l2 as [|b l2]; cbn [SvgPath.matches].
    + now rewrite app_nil_r.
    + rewrite H. reflexivity.
  - destruct (Str.isLetter a); rewrite IH; [|reflexivity]. now rewrite app_assoc.
Qed.

(** Property X16.  Parsing is compositional: when the second of two
    strings is empty or starts at a letter, the commands of their
    concatenation are the commands of the first followed by the commands
    of the second. *)
Theorem X16_parseSVGPath_concatenation (s1 s2 : string) :
  startsAtLetter s2 = true ->
  SvgPath.parseSVGPath (s1 ++ s2) = SvgPath.parseSVGPath s1 ++ SvgPath.parseSVGPath s2.
Proof.
  intros H. unfold SvgPath.parseSVGPath, SvgPath.pathData.
  rewrite chars_app, matches_app, omap_app; [reflexivity|].
  destruct s2; [exact I | exact H].
Qed.
End SvgMore.


(** ** The number of commands *)

Section SvgCount.
Import Notions.
Local Open Scope string_scope.
Local Open Scope list_scope.

Lemma chars_ofChars (l : list ascii) : Str.chars (Str.ofChars l) = l.
Proof. apply list_ascii_of_string_of_list_ascii. Qed.

Lemma isCommandLetter_isLetter (a : ascii) :
  isCommandLetter a = true -> Str.isLetter a = true.
Proof.
  destruct a as [[] [] [] [] [] [] [] []]; cbn; intros H;
    try discriminate H; reflexivity.
Qed.

Lemma recognised_ofChars (l : list ascii) :
  SvgPath.recognised (Str.ofChars l)
  = match l with a :: _ => isCommandLetter a | [] => false end.
Proof. unfold SvgPath.recognised. rewrite chars_ofChars. reflexivity. Qed.

Lemma matches_count (l : list ascii) (cur : option (list ascii)) :
  match cur with Some c => c <> [] | None => True end ->
  List.length (List.filter SvgPath.recognised (SvgPath.matches l cur))
  = (pendingCommand cur + List.length (List.filter isCommandLetter l))%nat.
Proof.
  revert cur. induction l as [|a l IH]; intros cur Hcur; cbn [SvgPath.matches List.filter].
  - destruct cur as [c|]; [|reflexivity]. cbn [SvgPath.flush List.filter pendingCommand].
    rewrite recognised_ofChars. destruct (rev c) as [|b r]; [reflexivity|].
    destruct (isCommandLetter b); reflexivity.
  - destruct (Str.isLetter a) eqn:L.
    + rewrite List.filter_app, List.length_app, IH by discriminate.
      assert (List.length (List.filter SvgPath.recognised (SvgPath.flush cur))
              = pendingCommand cur) as ->.
      { destruct cur as [c|]; [|reflexivity].
        cbn [SvgPath.flush List.filter pendingCommand].
        rewrite recognised_ofChars. destruct (rev c) as [|b r]; [reflexivity|].
        destruct (isCommandLetter b); reflexivity. }
      cbn [pendingCommand rev app]. destruct (isCommandLetter a); cbn [List.length]; lia.
    + assert (isCommandLetter a = false) as ->.
      { destruct (isCommandLetter a) eqn:C; [|reflexivity].
        apply isCommandLetter_isLetter in C. congruence. }
      rewrite IH.
      * f_equal. destruct cur as [c|]; [|reflexivity]. cbn [option_map pendingCommand rev].
        destruct (rev c) as [|b r] eqn:R; [|reflexivity].
        exfalso. apply Hcur. apply (f_equal (@rev ascii)) in R.
        now rewrite rev_involutive in R.
      * destruct cur; [discriminate | exact I].
Qed.

(** Property X26.  [parseSVGPath] gives exactly one command for each
    letter M, L, C, Q, A or Z of the string: every other character,
    lower-case letters included, gives none. *)
Theorem X26_one_command_per_letter (pathString : string) :
  List.length (SvgPath.parseSVGPath pathString) = commandLetters pathString.
Proof.
  unfold SvgPath.parseSVGPath, SvgPath.pathData, commandLetters.
  rewrite parse_length. now rewrite matches_count.
Qed.
End SvgCount.


(** ** The frame clock *)

Section ClockFacts.
Context {M : MathLib}.
Import Engine Spec Notions.
Local Open Scope string_scope.
Local Open Scope list_scope.

Lemma triggerPlaybackEvent_touched (fuel : nat) (type : PlaybackTriggerType)
    (s0 s : AnimationEngine) :
  triggersObserved s0 = true ->
  touched s0 s ->
  exists s', triggerPlaybackEvent (run (S fuel)) type s = Normal s' /\ touched s0 s'.
Proof.
  intros Hobs Hs. unfold triggerPlaybackEvent.
  assert (triggers (eventManager s) = triggers (eventManager s0)) as ->
    by (destruct Hs as (L & A & ->); reflexivity).
  apply forEach_inv; [|exact Hs].
  intros t s' Hin Hs'. apply filter_In in Hin as [Hin _].
  apply executeTriggerAction_touched; [|exact Hs'].
  now apply observed_in.
Qed.

(** [touched] is transitive along an update of the clock members. *)
Lemma touched_trans (s0 s1 s2 : AnimationEngine) :
  touched s0 s1 -> touched s1 s2 -> touched s0 s2.
Proof. intros (L & A & ->) (L' & A' & ->). now eexists _, _. Qed.

Lemma updateFrame_touched' (fuel : nat) (frame : num) (s0 s : AnimationEngine) :
  triggersObserved s0 = true ->
  touched s0 s ->
  exists s',
    updateFrame (run (S fuel)) frame s = Normal s'
    /\ touched
         (set_eventManager
            (set_frames frame (em_currentFrame (eventManager s0)) (eventManager s0)) s0)
         s'.
Proof.
  intros Hobs (L & A & ->).
  destruct (updateFrame_touched fuel frame (touch L A s0) Hobs) as (s' & H & (L' & A' & ->)).
  exists (touch L' A'
            (set_eventManager
               (set_frames frame (em_currentFrame (eventManager s0)) (eventManager s0)) s0)).
  split; [exact H | now eexists _, _].
Qed.

Lemma pause_touched (fuel : nat) (s : AnimationEngine) :
  triggersObserved s = true ->
  exists s', pause (run (S fuel)) s = Normal s' /\ touched (pausedState s) s'.
Proof.
  intros Hobs. unfold pause, sequ, pausedState. cbn [andThen].
  change (animationFrameId (set_isPlaying false s)) with (animationFrameId s).
  destruct (animationFrameId s =? 0)%nat.
  - apply triggerPlaybackEvent_touched; [exact Hobs | apply touched_refl].
  - cbn [cancelAnimationFrame andThen].
    apply triggerPlaybackEvent_touched; [exact Hobs | apply touched_refl].
Qed.

Lemma seekToFrame_touched (fuel : nat) (frame : num) (s0 s : AnimationEngine) :
  triggersObserved s0 = true ->
  touched s0 s ->
  exists s', seekToFrame (run (S fuel)) frame s = Normal s'
             /\ touched (soughtState frame s0) s'.
Proof.
  intros Hobs (L & A & ->). unfold seekToFrame, sequ. cbn [andThen].
  match goal with
  | |- context [updateFrame _ ?f (set_currentFrame ?c _)] =>
      destruct (updateFrame_touched' fuel f (set_currentFrame c s0)
                  (set_currentFrame c (touch L A s0)) Hobs) as (s' & H & Hs');
        [now eexists _, _|]
  end.
  exists s'. split; [exact H | exact Hs'].
Qed.

Lemma stop_touched (fuel : nat) (s : AnimationEngine) :
  triggersObserved s = true ->
  exists s', stop (run (S fuel)) s = Normal s' /\ touched (stoppedState s) s'.
Proof.
  intros Hobs. unfold stop, sequ.
  destruct (pause_touched fuel s Hobs) as (s1 & -> & (L & A & ->)). cbn [andThen].
  assert (triggersObserved (pausedState s) = true) as Hobs1.
  { unfold pausedState. destruct (animationFrameId s =? 0)%nat; exact Hobs. }
  match goal with
  | |- context [updateFrame _ ?f ?x] =>
      destruct (updateFrame_touched' fuel f
                  (set_activeSequences ∅ (set_currentFrame (fin 0) (pausedState s))) x)
        as (s2 & -> & Hs2); [exact Hobs1 | now eexists _, _ |]
  end.
  cbn [andThen].
  apply triggerPlaybackEvent_touched; [exact Hobs1 | exact Hs2].
Qed.

Lemma advance_touched (fuel : nat) (s0 s : AnimationEngine) :
  triggersObserved s0 = true ->
  touched s0 s ->
  exists s',
    (if (framesToAdvance s0 >? fin 0)%num then
       ((fun s1 =>
           Normal (set_lastFrameTime
                     (performance_now (host s0)
                      - JsNum.rem (performance_now (host s0) - lastFrameTime s0)
                          (fin 1000 / frameRate (timeline s0)))%num s1)) ;;
        advanceFrames (run (S fuel)) (framesToAdvance s0) ;;
        (fun s1 => updateFrame (run (S fuel)) (currentFrame s1) s1)) s
     else Normal s) = Normal s'
    /\ touched (advancedState s0) s'.
Proof.
  intros Hobs (L & A & ->). unfold advancedState.
  destruct (framesToAdvance s0 >? fin 0)%num; [|eexists; split; [reflexivity|now eexists _, _]].
  unfold sequ, advanceFrames, sequ. cbn [andThen].
  unfold advancedFrame.
  change (currentFrame (set_currentFrame ?c _)) with c.
  change (timeline (set_currentFrame _ (set_lastFrameTime _ (touch L A s0))))
    with (timeline s0).
  change (currentFrame (set_lastFrameTime _ (touch L A s0))) with (currentFrame s0).
  destruct (currentFrame s0 + framesToAdvance s0 >=? duration (timeline s0))%num.
  - set (c := JsNum.rem _ _). set (t := (performance_now (host s0) - _)%num).
    destruct (triggerPlaybackEvent_touched fuel LOOP
                (set_currentFrame c (set_lastFrameTime t s0))
                (set_currentFrame c
                   (set_currentFrame (currentFrame s0 + framesToAdvance s0)%num
                      (set_lastFrameTime t (touch L A s0)))) Hobs)
      as (s1 & E1 & (L1 & A1 & ->)); [now exists L, A|].
    rewrite E1. cbn [andThen].
    destruct (updateFrame_touched' fuel c
                (set_currentFrame c (set_lastFrameTime t s0))
                (touch L1 A1 (set_currentFrame c (set_lastFrameTime t s0))) Hobs)
      as (s2 & E2 & Hs2); [now eexists _, _|].
    exists s2. split; [exact E2 | exact Hs2].
  - set (c := (currentFrame s0 + framesToAdvance s0)%num).
    set (t := (performance_now (host s0) - _)%num).
    destruct (updateFrame_touched' fuel c
                (set_currentFrame c (set_lastFrameTime t s0))
                (set_currentFrame c (set_lastFrameTime t (touch L A s0))) Hobs)
      as (s2 & E2 & Hs2); [now exists L, A|].
    exists s2. split; [exact E2 | exact Hs2].
Qed.

Lemma advancedState_isPlaying (s : AnimationEngine) :
  isPlaying (advancedState s) = isPlaying s.
Proof. unfold advancedState. now destruct (_ >? _)%num. Qed.

Lemma animationLoop_touched (fuel : nat) (s0 s : AnimationEngine) :
  triggersObserved s0 = true ->
  touched s0 s ->
  exists s', animationLoop (run (S fuel)) s = Normal s' /\ touched (loopedState s0) s'.
Proof.
  intros Hobs Hs. pose proof Hs as (L & A & E).
  unfold animationLoop. unfold sequ at 1.
  assert (JsNum.floor ((performance_now (host s) - lastFrameTime s)
                       / (fin 1000 / frameRate (timeline s)))%num = framesToAdvance s0)
    as -> by (subst s; reflexivity).
  assert (performance_now (host s) = performance_now (host s0)) as -> by (subst s; reflexivity).
  assert (lastFrameTime s = lastFrameTime s0) as -> by (subst s; reflexivity).
  assert (timeline s = timeline s0) as -> by (subst s; reflexivity).
  destruct (advance_touched fuel s0 s Hobs Hs) as (s1 & -> & (L1 & A1 & ->)).
  cbn [andThen]. unfold loopedState.
  change (isPlaying (touch L1 A1 (advancedState s0))) with (isPlaying (advancedState s0)).
  rewrite advancedState_isPlaying.
  destruct (isPlaying s0); (eexists; split; [reflexivity|]); now eexists _, _.
Qed.

Lemma play_touched (fuel : nat) (s : AnimationEngine) :
  triggersObserved s = true ->
  exists s', play (run (S fuel)) s = Normal s' /\ touched (playedState s) s'.
Proof.
  intros Hobs. unfold play, playedState.
  destruct (isPlaying s); [exists s; split; [reflexivity | apply touched_refl]|].
  unfold sequ. cbn [andThen].
  set (s1 := set_lastFrameTime _ _).
  assert (triggersObserved s1 = true) as Hobs1 by exact Hobs.
  destruct (animationLoop_touched fuel s1 s1 Hobs1 (touched_refl s1)) as (s2 & -> & Hs2).
  cbn [andThen].
  apply triggerPlaybackEvent_touched; [|exact Hs2].
  unfold loopedState, requestedState, advancedState.
  destruct (isPlaying s1), (_ >? _)%num; exact Hobs.
Qed.

Lemma animationFrame_touched (fuel : nat) (id : nat) (s : AnimationEngine) :
  triggersObserved s = true ->
  exists s', animationFrame (run (S fuel)) id s = Normal s' /\ touched (tickedState id s) s'.
Proof.
  intros Hobs. unfold animationFrame, tickedState.
  destruct (existsb _ _); [|exists s; split; [reflexivity | apply touched_refl]].
  unfold sequ, cancelAnimationFrame. cbn [andThen].
  set (s1 := set_host _ s).
  assert (triggersObserved s1 = true) as Hobs1 by exact Hobs.
  exact (animationLoop_touched fuel s1 s1 Hobs1 (touched_refl s1)).
Qed.

Lemma perform_touched (fuel : nat) (op : ClockOp) (s : AnimationEngine) :
  triggersObserved s = true ->
  exists s', perform (S fuel) op s = Normal s' /\ touched (clockState op s) s'.
Proof.
  intros Hobs. destruct op as [| | |frame|id]; cbn [perform clockState].
  - now apply play_touched.
  - now apply pause_touched.
  - now apply stop_touched.
  - apply seekToFrame_touched; [exact Hobs | apply touched_refl].
  - now apply animationFrame_touched.
Qed.

Lemma advancedState_clock (s : AnimationEngine) :
  host (advancedState s) = host s
  /\ animationFrameId (advancedState s) = animationFrameId s.
Proof. unfold advancedState. now destruct (_ >? _)%num. Qed.

Lemma oneRequest_looped (s : AnimationEngine) :
  (1 <= nextRequest (host s))%nat ->
  frameRequests (host s) = [] ->
  (isPlaying s = false -> animationFrameId s = 0%nat) ->
  oneRequest (loopedState s).
Proof.
  intros Hn Hr Hid. unfold loopedState, oneRequest.
  destruct (advancedState_clock s) as [Eh Ea].
  pose proof (advancedState_isPlaying s) as Ep.
  destruct (isPlaying s) eqn:P.
  - unfold requestedState. cbn. rewrite Ep, Eh, Hr. cbn. repeat split; lia.
  - rewrite Ep, Eh, Ea. split; [exact Hn|]. split; [exact Hr | now apply Hid].
Qed.

Lemma oneRequest_clockState (op : ClockOp) (s : AnimationEngine) :
  oneRequest s -> oneRequest (clockState op s).
Proof.
  intros Hinv. pose proof Hinv as (Hn & H).
  destruct op as [| | |frame|id]; cbn [clockState].
  - unfold playedState. destruct (isPlaying s) eqn:P; [exact Hinv|].
    destruct H as [Hr Hid]. apply oneRequest_looped; cbn; [exact Hn | exact Hr | discriminate].
  - unfold pausedState, oneRequest. destruct (isPlaying s) eqn:P.
    + destruct H as [Hr Hid].
      destruct (Nat.eqb_spec (animationFrameId s) 0) as [E|E]; [lia|].
      cbn. rewrite Hr. cbn. rewrite Nat.eqb_refl. cbn. now repeat split.
    + destruct H as [Hr Hid]. rewrite Hid. cbn. now repeat split.
  - unfold stoppedState, pausedState, oneRequest. destruct (isPlaying s) eqn:P.
    + destruct H as [Hr Hid].
      destruct (Nat.eqb_spec (animationFrameId s) 0) as [E|E]; [lia|].
      cbn. rewrite Hr. cbn. rewrite Nat.eqb_refl. cbn. now repeat split.
    + destruct H as [Hr Hid]. rewrite Hid. cbn. now repeat split.
  - unfold soughtState. exact Hinv.
  - unfold tickedState. destruct (existsb _ _) eqn:E; [|exact Hinv].
    destruct (isPlaying s) eqn:P; destruct H as [Hr Hid];
      rewrite Hr in E; cbn in E; [|discriminate].
    rewrite orb_false_r in E. apply Nat.eqb_eq in E. subst id.
    apply oneRequest_looped; cbn; [exact Hn | | congruence].
    rewrite Hr. cbn. now rewrite Nat.eqb_refl.
Qed.

Lemma observed_clockState (op : ClockOp) (s : AnimationEngine) :
  triggersObserved s = true -> triggersObserved (clockState op s) = true.
Proof.
  intros H. destruct op as [| | |frame|id]; cbn [clockState];
    unfold playedState, pausedState, stoppedState, pausedState, soughtState, tickedState,
      loopedState, requestedState, advancedState;
    repeat match goal with
           | |- context [if ?c then _ else _] => destruct c
           end; exact H.
Qed.

(** Property X17.  With the triggers bound to listeners of the host
    program: whatever sequence of [play], [pause], [stop], [seekToFrame]
    and animation-frame callbacks runs, every call returns and the engine
    has at most one animation-frame request pending, namely the one whose
    id it holds while it plays, and none while it does not. *)
Theorem X17_one_pending_frame_request (fuel : nat) (ops : list ClockOp)
    (s : AnimationEngine) :
  triggersObserved s = true ->
  oneRequest s ->
  exists s',
    forEach (perform (S fuel)) ops s = Normal s'
    /\ oneRequest s'
    /\ triggersObserved s' = true.
Proof.
  revert s. induction ops as [|op ops IH]; intros s Hobs Hinv.
  - exists s. split; [reflexivity | split; assumption].
  - cbn [forEach].
    destruct (perform_touched fuel op s Hobs) as (s1 & -> & (L & A & ->)).
    cbn [andThen]. apply IH.
    + exact (observed_clockState op s Hobs).
    + exact (oneRequest_clockState op s Hinv).
Qed.

(** Property X18.  With the triggers bound to listeners of the host
    program, [stop] returns with the engine paused, no frame request held,
    the playhead of the engine and of the event manager at frame 0 (the
    manager keeps its former frame as the previous one), and no sequence
    active; listeners, sequence objects and the timeline are untouched,
    and no frame request stays pending. *)
Theorem X18_stop_resets (fuel : nat) (s : AnimationEngine) :
  triggersObserved s = true ->
  exists s',
    stop (run (S fuel)) s = Normal s'
    /\ isPlaying s' = false
    /\ animationFrameId s' = 0%nat
    /\ currentFrame s' = ofZ 0
    /\ em_currentFrame (eventManager s') = ofZ 0
    /\ em_previousFrame (eventManager s') = em_currentFrame (eventManager s)
    /\ activeSequences s' = ∅
    /\ handlers (eventManager s') = handlers (eventManager s)
    /\ objects s' = objects s
    /\ timeline s' = timeline s
    /\ (oneRequest s -> frameRequests (host s') = []).
Proof.
  intros Hobs. destruct (stop_touched fuel s Hobs) as (s' & E & (L & A & ->)).
  eexists. split; [exact E|].
  unfold stoppedState, pausedState.
  destruct (Nat.eqb_spec (animationFrameId s) 0) as [Z|Z]; cbn;
    repeat apply conj; try reflexivity; try assumption.
  - intros (_ & H). destruct (isPlaying s); destruct H as [Hr Hid]; [lia | exact Hr].
  - intros (_ & H). destruct (isPlaying s); destruct H as [Hr Hid]; [|lia].
    rewrite Hr. cbn. now rewrite Nat.eqb_refl.
Qed.

(** Property X19.  With the triggers bound to listeners of the host
    program, [play] leaves the engine playing, and a second [play] right
    after it changes nothing: no second frame request, no second PLAY
    trigger. *)
Theorem X19_play_is_idempotent (fuel : nat) (s : AnimationEngine) :
  triggersObserved s = true ->
  exists s',
    play (run (S fuel)) s = Normal s'
    /\ isPlaying s' = true
    /\ play (run (S fuel)) s' = Normal s'.
Proof.
  intros Hobs. destruct (play_touched fuel s Hobs) as (s' & E & (L & A & ->)).
  eexists. split; [exact E|].
  assert (isPlaying (playedState s) = true) as P.
  { unfold playedState. destruct (isPlaying s) eqn:P; [exact P|].
    unfold loopedState. cbn. unfold requestedState. cbn.
    now rewrite advancedState_isPlaying. }
  split; [exact P|]. unfold play.
  change (isPlaying (touch L A (playedState s))) with (isPlaying (playedState s)).
  now rewrite P.
Qed.

Local Open Scope num_scope.

Lemma rem_range (a b : Q) :
  (0 < b)%Q -> (b <= a)%Q ->
  exists r, JsNum.rem (Fin a) (Fin b) = Fin r /\ (0 <= r < b)%Q.
Proof.
  intros Hb Hab. unfold JsNum.rem.
  assert (Qeq_bool b 0 = false) as ->.
  { destruct (Qeq_bool b 0) eqn:E; [|reflexivity]. apply Qeq_bool_iff in E. lra. }
  assert (a / b * b == a)%Q as Et by (field; lra).
  assert (1 <= a / b)%Q as Ht by (apply Qle_shift_div_l; lra).
  assert (Qle_bool 0 (a / b) = true) as -> by (apply Qle_bool_iff; lra).
  eexists. split; [reflexivity|]. rewrite Qred_correct.
  pose proof (Qfloor_le (a / b)) as F1. pose proof (Qlt_floor (a / b)) as F2.
  rewrite inject_Z_plus in F2. change (inject_Z 1) with 1%Q in F2.
  set (t := (a / b)%Q) in *. set (k := inject_Z (Qfloor t)) in *. nra.
Qed.

(** Property X20.  With the triggers bound to listeners of the host
    program, a positive duration, a frame rate of at most 1000 frames a
    second and at most 10^12 ms since the last frame (so that no quotient
    leaves the range of the numbers), an animation-frame callback keeps a
    playhead that is inside [0, duration) inside [0, duration). *)
Theorem X20_tick_keeps_playhead_in_range (fuel : nat) (id : nat) (s : AnimationEngine)
    (d r c n l : Q) :
  triggersObserved s = true ->
  duration (timeline s) = Fin d -> (0 < d)%Q ->
  frameRate (timeline s) = Fin r -> (0 < r <= 1000)%Q ->
  currentFrame s = Fin c -> (0 <= c < d)%Q ->
  performance_now (host s) = Fin n ->
  lastFrameTime s = Fin l ->
  (n - l <= 1000000000000)%Q ->
  exists s' c',
    animationFrame (run (S fuel)) id s = Normal s'
    /\ currentFrame s' = Fin c'
    /\ (0 <= c' < d)%Q.
Proof.
  intros Hobs Hd Dpos Hr [Rpos _] Hc Crange Hn Hl _.
  destruct (animationFrame_touched fuel id s Hobs) as (s' & E & (L & A & ->)).
  exists (touch L A (tickedState id s)).
  change (currentFrame (touch L A (tickedState id s)))
    with (currentFrame (tickedState id s)).
  enough (exists c', currentFrame (tickedState id s) = Fin c' /\ (0 <= c' < d)%Q)
    as (c' & Hc' & Rc') by (exists c'; split; [exact E | split; assumption]).
  clear E. unfold tickedState.
  destruct (existsb _ _); [|exists c; split; assumption].
  set (s1 := set_host _ s).
  assert (currentFrame (loopedState s1) = currentFrame (advancedState s1)) as ->
    by (unfold loopedState; now destruct (isPlaying s1)).
  unfold advancedState.
  destruct (framesToAdvance s1 >? #0) eqn:G; [|exists c; split; assumption].
  cbn. unfold advancedFrame.
  change (currentFrame s1) with (currentFrame s).
  change (timeline s1) with (timeline s). rewrite Hc, Hd.
  assert (exists k, framesToAdvance s1 = ofZ k) as (k & Ek).
  { unfold framesToAdvance.
    change (performance_now (host s1)) with (performance_now (host s)).
    change (lastFrameTime s1) with (lastFrameTime s).
    change (timeline s1) with (timeline s).
    rewrite Hn, Hl, Hr. num_norm.
    rewrite div_Fin by lra. unfold fin.
    rewrite div_Fin; [eexists; reflexivity|].
    rewrite Qred_correct. intros Z.
    assert (Qred 1000 / r * r == Qred 1000)%Q as Z' by (field; lra).
    rewrite Z in Z'. rewrite Qred_correct in Z'. lra. }
  rewrite Ek in G |- *. apply gtb_ofZ in G.
  unfold ofZ. rewrite add_Fin. unfold fin.
  assert (0 < inject_Z k)%Q as Kpos.
  { change 0%Q with (inject_Z 0). rewrite <- Zlt_Qlt. exact G. }
  unfold geb.
  destruct (Qlt_le_dec (Qred (c + inject_Z k)) d) as [Lt|Ge].
  - rewrite leb_Fin_false by exact Lt.
    eexists. split; [reflexivity|].
    rewrite Qred_correct in *. lra.
  - rewrite leb_Fin_true by exact Ge.
    destruct (rem_range (Qred (c + inject_Z k)) d Dpos Ge) as (r' & -> & Hr').
    exists r'. split; [reflexivity | exact Hr'].
Qed.

End ClockFacts.


(** ** Listeners *)

Section ListenerFacts.
Import Engine Spec Notions.
Local Open Scope string_scope.
Local Open Scope list_scope.

Lemma indexOf_ge (h : EventHandler) (hs : list EventHandler) (k i : nat) :
  indexOf h hs k = Some i -> (k <= i)%nat.
Proof.
  revert k. induction hs as [|x hs IH]; intros k; cbn; [discriminate|].
  destruct (decide (x = h)); [intros [= <-]; lia|]. intros H. apply IH in H. lia.
Qed.

Lemma indexOf_delete (h : EventHandler) (hs : list EventHandler) (k : nat) :
  match indexOf h hs k with
  | Some i => delete (i - k)%nat hs = removeFirst h hs /\ In h hs
  | None => removeFirst h hs = hs /\ ~ In h hs
  end.
Proof.
  revert k. induction hs as [|x hs IH]; intros k; cbn.
  - split; [reflexivity | tauto].
  - destruct (decide (x = h)) as [->|N].
    + rewrite Nat.sub_diag. split; [reflexivity | now left].
    + specialize (IH (S k)). destruct (indexOf h hs (S k)) as [i|] eqn:E.
      * destruct IH as [IH Hin]. pose proof (indexOf_ge _ _ _ _ E).
        replace (i - k)%nat with (S (i - S k)) by lia.
        split; [|now right].
        change (x :: delete (i - S k)%nat hs = x :: removeFirst h hs). now rewrite IH.
      * destruct IH as [IH Hin]. rewrite IH. split; [reflexivity | intros [?|?]; tauto].
Qed.

Lemma removeFirst_app_notin (h : EventHandler) (hs : list EventHandler) :
  ~ In h hs -> removeFirst h (hs ++ [h]) = hs.
Proof.
  induction hs as [|x hs IH]; cbn; intros H.
  - now destruct (decide (h = h)).
  - destruct (decide (x = h)) as [->|N]; [tauto|]. rewrite IH; tauto.
Qed.

Lemma removeFirst_app_in (h : EventHandler) (hs : list EventHandler) :
  In h hs -> removeFirst h (hs ++ [h]) = removeFirst h hs ++ [h].
Proof.
  induction hs as [|x hs IH]; cbn; [tauto|]. intros H.
  destruct (decide (x = h)) as [->|N]; [reflexivity|].
  rewrite IH; [reflexivity|]. destruct H; [contradiction | assumption].
Qed.

(** Property X21.  Adding a listener to an event and removing it again
    leaves the listeners of every other event as they were.  If the
    listener was not registered for the event, the list is restored; if
    it was, the removal takes out its first occurrence, not the one just
    added, so the listener moves to the end of the list. *)
Theorem X21_listener_add_remove (event : string) (h : EventHandler) (s : AnimationEngine) :
  exists s',
    (addEventListener event h ;; removeEventListener event h) s = Normal s'
    /\ (forall event', event' <> event -> listeners event' s' = listeners event' s)
    /\ (~ In h (listeners event s) -> listeners event s' = listeners event s)
    /\ (In h (listeners event s) ->
        listeners event s' = removeFirst h (listeners event s) ++ [h]).
Proof.
  unfold sequ, addEventListener. cbn [andThen]. unfold removeEventListener.
  cbn [eventManager set_eventManager handlers set_handlers].
  rewrite lookup_insert_eq.
  fold (listeners event s). set (hs := listeners event s).
  pose proof (indexOf_delete h (hs ++ [h]) 0) as D.
  destruct (indexOf h (hs ++ [h]) 0) as [i|].
  - rewrite Nat.sub_0_r in D. destruct D as [D _].
    eexists. split; [reflexivity|]. unfold listeners at 1 3 4.
    cbn [eventManager set_eventManager handlers set_handlers].
    rewrite insert_insert_eq, lookup_insert_eq. cbn [default]. rewrite D.
    split; [|split].
    + intros e' Ne. now rewrite lookup_insert_ne.
    + apply removeFirst_app_notin.
    + apply removeFirst_app_in.
  - destruct D as [_ D]. exfalso. apply D, in_app_iff. right. now left.
Qed.
End ListenerFacts.

(** ** Range triggers *)

Section RangeFacts.
Context {M : MathLib}.
Import Engine Spec Notions.
Local Open Scope string_scope.
Local Open Scope list_scope.

Lemma cmp_eqb_l (x y z : num) : (x =? y)%num = true -> cmp x z = cmp y z.
Proof.
  unfold eqb. destruct x as [a| | |], y as [b| | |]; cbn; try discriminate; try reflexivity.
  destruct (Qcompare_spec a b) as [E|E|E]; try discriminate. intros _.
  destruct z as [c| | |]; cbn; try reflexivity. f_equal.
  destruct (Qcompare_spec a c), (Qcompare_spec b c); try reflexivity; lra.
Qed.

Lemma cmp_eqb_r (x y z : num) : (x =? y)%num = true -> cmp z x = cmp z y.
Proof.
  unfold eqb. destruct x as [a| | |], y as [b| | |]; cbn; try discriminate; try reflexivity.
  destruct (Qcompare_spec a b) as [E|E|E]; try discriminate. intros _.
  destruct z as [c| | |]; cbn; try reflexivity. f_equal.
  destruct (Qcompare_spec c a), (Qcompare_spec c b); try reflexivity; lra.
Qed.

Lemma inRange_eqb (x y a b : num) :
  (x =? y)%num = true -> inRange x a b = inRange y a b.
Proof.
  intros H. unfold inRange, geb, leb.
  now rewrite (cmp_eqb_r x y a H), (cmp_eqb_l x y b H).
Qed.

(** With host listeners only, running a trigger's action adds to the log
    and changes nothing else. *)
Lemma executeTriggerAction_logs (fuel : nat) (s0 : AnimationEngine)
    (base : EventTrigger) (data : list (string * value)) (L : list Effect)
    (A : gset string) :
  externalOnly (action base) s0 = true ->
  exists L', executeTriggerAction (run (S fuel)) base data (touch L A s0)
             = Normal (touch L' A s0).
Proof.
  intros Hobs. unfold executeTriggerAction.
  rewrite dispatchEvent_external by exact Hobs.
  eexists. rewrite emitAll_touch. reflexivity.
Qed.

Lemma checkFrameTriggers_logs (fuel : nat) (s0 : AnimationEngine) (L : list Effect)
    (A : gset string) :
  triggersObserved s0 = true ->
  exists L', checkFrameTriggers (run (S fuel)) (touch L A s0) = Normal (touch L' A s0).
Proof.
  intros Hobs. unfold checkFrameTriggers.
  change (eventManager (touch L A s0)) with (set_activeRangeTriggers A (eventManager s0)).
  cbn [em_currentFrame em_previousFrame triggers set_activeRangeTriggers].
  destruct (em_currentFrame (eventManager s0) =? em_previousFrame (eventManager s0))%num;
    [now exists L|].
  assert (forall t, In t (List.filter isFrameTrigger (triggers (eventManager s0))) ->
                    In t (triggers (eventManager s0))) as Hsub
    by (intros t Hin; now apply filter_In in Hin).
  revert L. induction (List.filter isFrameTrigger (triggers (eventManager s0)))
    as [|t ts IH]; intros L; [now exists L|].
  cbn [forEach].
  assert (exists L1, (fun (trigger : AnyEventTrigger) (s : AnimationEngine) =>
             match trigger with
             | FrameEventTrigger base FRAME_ENTER frame =>
                 if (em_currentFrame (eventManager s) =? frame)%num
                    && negb (em_previousFrame (eventManager s) =? frame)%num
                 then executeTriggerAction (run (S fuel)) base (frameData base s) s
                 else Normal s
             | FrameEventTrigger base FRAME_EXIT frame =>
                 if (em_previousFrame (eventManager s) =? frame)%num
                    && negb (em_currentFrame (eventManager s) =? frame)%num
                 then executeTriggerAction (run (S fuel)) base (frameData base s) s
                 else Normal s
             | _ => Normal s
             end) t (touch L A s0) = Normal (touch L1 A s0)) as (L1 & ->).
  { pose proof (observed_in s0 t Hobs (Hsub t (or_introl eq_refl))) as Hx.
    destruct t as [base [] frame| | | |]; try now exists L.
    - destruct (_ && _); [now apply executeTriggerAction_logs | now exists L].
    - destruct (_ && _); [now apply executeTriggerAction_logs | now exists L]. }
  cbn [andThen]. apply IH. intros t' Hin. apply Hsub. now right.
Qed.

(** Running a method over a list with an invariant that may mention the
    items still to come. *)
Lemma forEach_rest_inv {A : Type} (I : list A -> AnimationEngine -> Prop)
    (f : A -> method) :
  (forall a rest s, I (a :: rest) s -> exists s', f a s = Normal s' /\ I rest s') ->
  forall l s, I l s -> exists s', forEach f l s = Normal s' /\ I [] s'.
Proof.
  intros Hf. induction l as [|a l IH]; intros s Hs.
  - exists s. now split.
  - cbn [forEach]. destruct (Hf a l s Hs) as (s1 & -> & Hs1). cbn [andThen].
    now apply IH.
Qed.

(** Property X22.  With the triggers bound to listeners of the host
    program, [updateFrame] keeps the set of active range triggers sound:
    if every id in the set belongs to a registered RANGE_ENTER trigger
    whose range holds the current frame, the same is true after the
    update to any frame, and the triggers and listeners are unchanged. *)
Theorem X22_active_ranges_hold_current_frame (fuel : nat) (frame : num)
    (s : AnimationEngine) :
  triggersObserved s = true ->
  activeSound s ->
  exists s',
    updateFrame (run (S fuel)) frame s = Normal s'
    /\ activeSound s'
    /\ triggers (eventManager s') = triggers (eventManager s)
    /\ handlers (eventManager s') = handlers (eventManager s).
Proof.
  intros Hobs Hsound. unfold updateFrame, sequ. cbn [andThen].
  set (c := em_currentFrame (eventManager s)).
  set (s1 := set_eventManager (set_frames frame c (eventManager s)) s).
  assert (triggersObserved s1 = true) as Hobs1 by exact Hobs.
  set (T := triggers (eventManager s)).
  destruct (checkFrameTriggers_logs fuel s1 (log (host s1))
              (activeRangeTriggers (eventManager s1)) Hobs1) as (L1 & E1).
  rewrite touch_self in E1. rewrite E1. cbn [andThen]. clear E1.
  unfold checkRangeTriggers.
  change (em_currentFrame (eventManager (touch L1 ?A s1))) with frame.
  change (em_previousFrame (eventManager (touch L1 ?A s1))) with c.
  change (triggers (eventManager (touch L1 ?A s1))) with T.
  destruct (frame =? c)%num eqn:Same.
  { eexists. split; [reflexivity|]. split; [|split; reflexivity].
    intros id Hid. destruct (Hsound id Hid) as (base & a & b & Hin & Hb & Hr).
    exists base, a, b. repeat split; try assumption.
    change (inRange frame a b = true). now rewrite (inRange_eqb frame c a b Same). }
  (* the state during the two loops, and what holds of the active set *)
  pose (left_ := fun id : string =>
          exists base a b,
            In (RangeEventTrigger base RANGE_ENTER a b) T
            /\ tr_id base = id /\ inRange frame a b = true).
  pose (I1 := fun (rest : list AnyEventTrigger) (s' : AnimationEngine) =>
          (forall t, In t rest -> In t T)
          /\ exists L A,
               s' = touch L A s1
               /\ forall id, id ∈ A ->
                     left_ id
                     \/ exists base a b,
                          In (RangeEventTrigger base RANGE_ENTER a b) rest
                          /\ tr_id base = id
                          /\ inRange frame a b = false /\ inRange c a b = true).
  unfold sequ.
  match goal with
  | |- context [andThen (forEach ?f ?ll ?x) _] =>
      destruct (forEach_rest_inv I1 f) with (l := ll) (s := x)
        as (s2 & -> & (_ & L2 & A2 & -> & Inv2))
  end.
  { intros t rest s' (Hsub & L & A & -> & Inv).
    pose proof (observed_in s1 t Hobs1 (Hsub t (or_introl eq_refl))) as Hx.
    assert (forall t', In t' rest -> In t' T) as Hsub'
      by (intros t' ?; apply Hsub; now right).
    destruct t as [|base [] a b| | |];
      try (eexists; split; [reflexivity|]; split; [exact Hsub'|];
           exists L, A; split; [reflexivity|];
           intros id Hid; destruct (Inv id Hid) as [Hl|(b0 & a0 & b1 & [Heq|Hin] & Hrest)];
           [now left | discriminate Heq | right; now exists b0, a0, b1]).
    change (em_currentFrame (eventManager (touch L A s1))) with frame.
    change (em_previousFrame (eventManager (touch L A s1))) with c.
    change (activeRangeTriggers (eventManager (touch L A s1))) with A.
    destruct (inRange frame a b) eqn:In1, (inRange c a b) eqn:In0; cbn [andb negb].
    - eexists. split; [reflexivity|]. split; [exact Hsub'|]. exists L, A.
      split; [reflexivity|]. intros id Hid.
      destruct (Inv id Hid) as [Hl|(b0 & a0 & b1 & [Heq|Hin] & Hb & F1 & F0)];
        [now left | injection Heq as <- <- <-; congruence | right; now exists b0, a0, b1].
    - match goal with
      | |- context [executeTriggerAction _ _ ?d (set_eventManager ?e _)] =>
          destruct (executeTriggerAction_logs fuel s1 base d L ({[tr_id base]} ∪ A) Hx)
            as (L' & E)
      end.
      eexists. split; [exact E|]. split; [exact Hsub'|].
      exists L', ({[tr_id base]} ∪ A). split; [reflexivity|]. intros id Hid.
      apply elem_of_union in Hid as [Hid|Hid].
      + apply elem_of_singleton in Hid. subst id. left.
        exists base, a, b. repeat split; [|exact In1].
        apply (Hsub _ (or_introl eq_refl)).
      + destruct (Inv id Hid) as [Hl|(b0 & a0 & b1 & [Heq|Hin] & Hb & F1 & F0)];
          [now left | injection Heq as <- <- <-; congruence | right; now exists b0, a0, b1].
    - eexists. split; [reflexivity|]. split; [exact Hsub'|].
      exists L, (A ∖ {[tr_id base]}). split; [reflexivity|]. intros id Hid.
      apply elem_of_difference in Hid as [Hid Hne]. rewrite elem_of_singleton in Hne.
      destruct (Inv id Hid) as [Hl|(b0 & a0 & b1 & [Heq|Hin] & Hb & F1 & F0)];
        [now left | injection Heq as <- <- <-; congruence | right; now exists b0, a0, b1].
    - eexists. split; [reflexivity|]. split; [exact Hsub'|]. exists L, A.
      split; [reflexivity|]. intros id Hid.
      destruct (Inv id Hid) as [Hl|(b0 & a0 & b1 & [Heq|Hin] & Hb & F1 & F0)];
        [now left | injection Heq as <- <- <-; congruence | right; now exists b0, a0, b1]. }
  { split; [intros t Hin; now apply filter_In in Hin|].
    exists L1, (activeRangeTriggers (eventManager s)). split; [reflexivity|].
    intros id Hid. destruct (Hsound id Hid) as (base & a & b & Hin & Hb & Hr).
    fold c in Hr. destruct (inRange frame a b) eqn:In1.
    - left. now exists base, a, b.
    - right. exists base, a, b. repeat split; try assumption.
      apply filter_In. now split. }
  cbn [andThen].
  pose (I2 := fun (rest : list AnyEventTrigger) (s' : AnimationEngine) =>
          (forall t, In t rest -> In t T)
          /\ exists L A, s' = touch L A s1 /\ forall id, id ∈ A -> left_ id).
  match goal with
  | |- context [forEach ?f ?ll ?x] =>
      destruct (forEach_rest_inv I2 f) with (l := ll) (s := x)
        as (s3 & -> & (_ & L3 & A3 & -> & Inv3))
  end.
  { intros t rest s' (Hsub & L & A & -> & Inv).
    pose proof (observed_in s1 t Hobs1 (Hsub t (or_introl eq_refl))) as Hx.
    assert (forall t', In t' rest -> In t' T) as Hsub'
      by (intros t' ?; apply Hsub; now right).
    destruct t as [|base [] a b| | |];
      try (eexists; split; [reflexivity|]; split; [exact Hsub'|]; now exists L, A).
    change (em_currentFrame (eventManager (touch L A s1))) with frame.
    change (em_previousFrame (eventManager (touch L A s1))) with c.
    change (activeRangeTriggers (eventManager (touch L A s1))) with A.
    destruct (negb (inRange frame a b) && inRange c a b).
    - match goal with
      | |- context [executeTriggerAction _ _ ?d (set_eventManager ?e _)] =>
          destruct (executeTriggerAction_logs fuel s1 base d L (A ∖ {[tr_id base]}) Hx)
            as (L' & E)
      end.
      eexists. split; [exact E|]. split; [exact Hsub'|].
      exists L', (A ∖ {[tr_id base]}). split; [reflexivity|]. intros id Hid.
      apply elem_of_difference in Hid as [Hid _]. now apply Inv.
    - eexists. split; [reflexivity|]. split; [exact Hsub'|]. now exists L, A. }
  { split; [intros t Hin; now apply filter_In in Hin|].
    exists L2, A2. split; [reflexivity|]. intros id Hid.
    destruct (Inv2 id Hid) as [Hl|(b0 & a0 & b1 & [] & _)]. exact Hl. }
  eexists. split; [reflexivity|]. split; [|split; reflexivity].
  intros id Hid. exact (Inv3 id Hid).
Qed.
End RangeFacts.


(** ** Sequences, continued *)

Section SequenceFacts.
Context {M : MathLib}.
Import Engine Spec.
Local Open Scope string_scope.
Local Open Scope list_scope.

Lemma executeSequenceStep_unbounded (sequenceId : string) (sq : AnimationSequence)
    (fuel : nat) :
  (repeat sq =? - fin 1)%num = true ->
  forall (s : AnimationEngine) (ref : nat) (a : ActiveSequence),
    activeSequences s !! sequenceId = Some ref ->
    objects s !! ref = Some a ->
    sequence a = sq ->
    (forall step, In step (steps sq) -> groups s !! groupId step = None) ->
    executeSequenceStep (run fuel) sequenceId s = OutOfFuel.
Proof.
  intros Hrep. induction fuel as [|fuel IH]; intros s ref a Hact Hobj Hsq Hgroups;
    unfold executeSequenceStep; rewrite Hact, Hobj, Hsq.
  - destruct (steps sq !! currentStep a) as [step|] eqn:E.
    + rewrite (Hgroups step) by (apply list_elem_of_In; eapply list_elem_of_lookup_2, E).
      reflexivity.
    + unfold sequ, set_iterations. cbn [andThen]. rewrite Hrep. reflexivity.
  - assert (forall s' : AnimationEngine,
              activeSequences s' = activeSequences s ->
              groups s' = groups s ->
              (exists a', objects s' !! ref = Some a' /\ sequence a' = sq) ->
              run (S fuel) (ExecuteSequenceStep sequenceId) s' = OutOfFuel) as Hnext.
    { intros s' Ea Eg (a' & Ho & Hs). cbn [run]. apply (IH _ ref a').
      - now rewrite Ea.
      - exact Ho.
      - exact Hs.
      - now rewrite Eg. }
    assert (forall f, (forall x, sequence (f x) = sequence x) ->
                      exists a', alter f ref (objects s) !! ref = Some a' /\ sequence a' = sq)
      as Halter.
    { intros f Hf. exists (f a). rewrite list_lookup_alter, Hobj.
      destruct (decide (ref = ref)); [|congruence]. split; [reflexivity|]. now rewrite Hf. }
    destruct (steps sq !! currentStep a) as [step|] eqn:E.
    + rewrite (Hgroups step) by (apply list_elem_of_In; eapply list_elem_of_lookup_2, E).
      unfold sequ, set_currentStep. cbn [andThen].
      apply Hnext; try reflexivity. now apply Halter.
    + unfold sequ, set_iterations, set_currentStep. cbn [andThen]. rewrite Hrep.
      cbn [orb andThen]. apply Hnext; try reflexivity.
      cbn [objects set_objects].
      eexists. rewrite list_lookup_alter.
      destruct (decide (ref = ref)); [|congruence].
      rewrite list_lookup_alter, Hobj.
      destruct (decide (ref = ref)); [|congruence]. split; [reflexivity | exact Hsq].
Qed.

(** Property X23.  [playSequence] on a sequence that repeats for ever
    ([repeat] is -1), none of whose steps names a registered group, does
    not return: [executeSequenceStep] calls itself without bound, so the
    run is cut off at every bound on the depth of calls. *)
Theorem X23_endless_sequence_recurses_without_bound (fuel : nat) (sequenceId : string)
    (sq : AnimationSequence) (s : AnimationEngine) :
  sequences s !! sequenceId = Some sq ->
  (repeat sq =? - fin 1)%num = true ->
  (forall step, In step (steps sq) -> groups s !! groupId step = None) ->
  playSequence (run fuel) sequenceId s = OutOfFuel.
Proof.
  intros Hs Hrep Hgroups. unfold playSequence. rewrite Hs. unfold sequ. cbn [andThen].
  erewrite executeSequenceStep_unbounded; [reflexivity | exact Hrep | | | | exact Hgroups].
  - cbn [activeSequences set_activeSequences]. apply lookup_insert_eq.
  - cbn [objects set_objects set_activeSequences].
    rewrite lookup_app_r by lia. rewrite Nat.sub_diag. reflexivity.
  - reflexivity.
Qed.

End SequenceFacts.


(** ** Sequences that end *)

Section FiniteSequences.
Context {M : MathLib}.
Import Engine Spec Notions.
Local Open Scope string_scope.
Local Open Scope list_scope.

Lemma eqb_minus_one (r : Q) : ~ (r == -1)%Q -> (Fin r =? - fin 1)%num = false.
Proof.
  intros H. unfold eqb, neg, fin, cmp.
  destruct (Qcompare_spec r (Qred (- Qred 1))) as [E|E|E]; try reflexivity.
  rewrite !Qred_correct in E. contradiction.
Qed.

Lemma ofNat_lt (n : nat) (r : Q) :
  (inject_Z (Z.of_nat n) < r)%Q <-> (Z.of_nat n < Qceiling r)%Z.
Proof.
  split; intros H.
  - pose proof (Qle_ceiling r) as C. rewrite Zlt_Qlt. lra.
  - pose proof (Qceiling_lt r) as C.
    assert (Z.of_nat n <= Qceiling r - 1)%Z as L by lia.
    rewrite Zle_Qle in L. lra.
Qed.

Lemma observed_same_manager (s s0 : AnimationEngine) :
  eventManager s = eventManager s0 -> triggersObserved s = triggersObserved s0.
Proof. intros E. unfold triggersObserved, externalOnly. now rewrite E. Qed.

Lemma external_same_manager (event : string) (s s0 : AnimationEngine) :
  eventManager s = eventManager s0 -> externalOnly event s = externalOnly event s0.
Proof. intros E. unfold externalOnly. now rewrite E. Qed.

(** A sequence that does not repeat for ever and finds none of its groups
    runs to its end within one call for each step and one for each pass. *)
Lemma executeSequenceStep_completes (sequenceId : string) (sq : AnimationSequence)
    (r : Q) (s0 : AnimationEngine) (ref : nat) :
  repeat sq = Fin r ->
  ~ (r == -1)%Q ->
  (forall step, In step (steps sq) -> groups s0 !! groupId step = None) ->
  externalOnly "sequenceComplete" s0 = true ->
  forall (m fuel c i : nat) (s : AnimationEngine),
    groups s = groups s0 ->
    eventManager s = eventManager s0 ->
    activeSequences s !! sequenceId = Some ref ->
    objects s !! ref = Some {| sequence := sq; currentStep := c; iterations := i |} ->
    (List.length (steps sq) - c
     + S (List.length (steps sq)) * Z.to_nat (Qceiling r - 1 - Z.of_nat i) <= m)%nat ->
    (m < fuel)%nat ->
    exists s',
      executeSequenceStep (run fuel) sequenceId s = Normal s'
      /\ activeSequences s' !! sequenceId = None
      /\ eventManager s' = eventManager s0.
Proof.
  intros Hrep Hr Hgroups Hext.
  induction m as [m IH] using lt_wf_ind.
  intros fuel c i s Hg Hem Hact Hobj Hm Hfuel.
  destruct fuel as [|fuel]; [lia|].
  unfold executeSequenceStep. rewrite Hact, Hobj.
  cbn [sequence currentStep].
  destruct (steps sq !! c) as [step|] eqn:Estep.
  - (* a step whose group is not registered *)
    pose proof (lookup_lt_Some _ _ _ Estep) as Lc.
    rewrite Hg, (Hgroups step)
      by (apply list_elem_of_In; eapply list_elem_of_lookup_2, Estep).
    unfold sequ, set_currentStep. cbn [andThen].
    cbn [run].
    set (K := Z.to_nat (Qceiling r - 1 - Z.of_nat i)) in Hm.
    apply (IH (m - 1)%nat) with (c := S c) (i := i); try nia; try assumption.
    cbn [objects set_objects]. rewrite list_lookup_alter.
    destruct (decide (ref = ref)); [|congruence].
    change (objects (emit ?e s)) with (objects s). rewrite Hobj. reflexivity.
  - (* the end of a pass *)
    unfold sequ, set_iterations. cbn [andThen].
    cbn [objects set_objects]. rewrite list_lookup_alter, Hobj.
    destruct (decide (ref = ref)); [|congruence].
    cbn [fmap option_fmap option_map iterations sequence currentStep].
    rewrite Hrep, (eqb_minus_one r Hr). cbn [orb].
    unfold ofNat, ofZ.
    destruct (Qlt_le_dec (inject_Z (Z.of_nat (S i))) r) as [Lt|Ge].
    + rewrite ltb_Fin_true by exact Lt.
      unfold set_currentStep. cbn [andThen].
      pose proof (proj1 (ofNat_lt (S i) r) Lt) as Lz.
      assert (Z.to_nat (Qceiling r - 1 - Z.of_nat i)
              = S (Z.to_nat (Qceiling r - 1 - Z.of_nat (S i)))) as EK by lia.
      rewrite EK in Hm.
      cbn [run].
      set (K := Z.to_nat (Qceiling r - 1 - Z.of_nat (S i))) in *.
      apply (IH (m - 1)%nat) with (c := 0%nat) (i := S i); try nia; try assumption.
      cbn [objects set_objects]. rewrite list_lookup_alter.
      destruct (decide (ref = ref)); [|congruence].
      rewrite list_lookup_alter, Hobj.
      destruct (decide (ref = ref)); [|congruence]. reflexivity.
    + rewrite ltb_Fin_false by exact Ge.
      match goal with
      | |- context [dispatchEvent _ ?e ?d ?x] =>
          rewrite (dispatchEvent_external fuel e d x)
            by (rewrite (external_same_manager e x s0 Hem); exact Hext)
      end.
      cbn [andThen]. unfold stopSequence.
      eexists. split; [reflexivity|]. split.
      * cbn [activeSequences set_activeSequences]. apply lookup_delete_eq.
      * exact Hem.
Qed.

Lemma playedState_after (s : AnimationEngine) :
  isPlaying (playedState s) = true
  /\ activeSequences (playedState s) = activeSequences s.
Proof.
  unfold playedState. destruct (isPlaying s) eqn:P; [now split|].
  unfold loopedState. cbn [isPlaying set_isPlaying set_lastFrameTime].
  unfold requestedState, advancedState.
  destruct (_ >? _)%num; split; reflexivity.
Qed.

(** Property X30.  With the triggers and the listeners of
    [sequenceComplete] bound to listeners of the host program:
    [playSequence] on a sequence whose [repeat] is a number other than -1
    and at most 2^53 (up to which the count of iterations is exact), none
    of whose steps names a registered group, returns (given enough depth
    of calls), with the sequence no longer active and the engine
    playing. *)
Theorem X30_finite_sequence_completes (sequenceId : string) (sq : AnimationSequence)
    (r : Q) (s : AnimationEngine) :
  sequences s !! sequenceId = Some sq ->
  repeat sq = Fin r ->
  ~ (r == -1)%Q ->
  (r <= 9007199254740992)%Q ->
  (forall step, In step (steps sq) -> groups s !! groupId step = None) ->
  externalOnly "sequenceComplete" s = true ->
  triggersObserved s = true ->
  exists n : nat,
    forall fuel : nat,
      (n <= fuel)%nat ->
      exists s',
        playSequence (run fuel) sequenceId s = Normal s'
        /\ activeSequences s' !! sequenceId = None
        /\ isPlaying s' = true.
Proof.
  intros Hs Hrep Hr _ Hgroups Hext Hobs.
  exists (S (S (List.length (steps sq)
                + S (List.length (steps sq)) * Z.to_nat (Qceiling r - 1)))).
  intros fuel Hfuel. unfold playSequence. rewrite Hs. unfold sequ. cbn [andThen].
  match goal with
  | |- context [executeSequenceStep _ _ ?x] =>
      destruct (executeSequenceStep_completes sequenceId sq r s (List.length (objects s))
                  Hrep Hr Hgroups Hext
                  (List.length (steps sq)
                   + S (List.length (steps sq)) * Z.to_nat (Qceiling r - 1))%nat
                  fuel 0%nat 0%nat x)
        as (s1 & -> & Hnone & Hem)
  end.
  - reflexivity.
  - reflexivity.
  - cbn [activeSequences set_activeSequences]. apply lookup_insert_eq.
  - cbn [objects set_objects set_activeSequences].
    rewrite lookup_app_r by lia. rewrite Nat.sub_diag. reflexivity.
  - change (Z.of_nat 0) with 0%Z. rewrite Z.sub_0_r. lia.
  - lia.
  - cbn [andThen]. destruct fuel as [|fuel]; [lia|].
    assert (triggersObserved s1 = true) as Hobs1
      by (rewrite (observed_same_manager s1 s Hem); exact Hobs).
    destruct (play_touched fuel s1 Hobs1) as (s' & -> & (L & A & ->)).
    destruct (playedState_after s1) as [P E].
    eexists. split; [reflexivity|]. split.
    + change (activeSequences (touch L A (playedState s1)))
        with (activeSequences (playedState s1)). now rewrite E.
    + exact P.
Qed.

End FiniteSequences.


(** ** Finding an element *)

Section FindFacts.
Import Engine.
Local Open Scope string_scope.
Local Open Scope list_scope.

Lemma findIndex_from {A : Type} (p : A -> bool) (l : list A) (k : nat) :
  match (fix go (l : list A) (i : nat) : option nat :=
           match l with
           | [] => None
           | a :: l' => if p a then Some i else go l' (S i)
           end) l k with
  | Some i => (k <= i)%nat /\ exists x, l !! (i - k)%nat = Some x /\ p x = true
  | None => forall x, In x l -> p x = false
  end.
Proof.
  revert k. induction l as [|a l IH]; intros k.
  - intros x [].
  - destruct (p a) eqn:E.
    + split; [lia|]. exists a. rewrite Nat.sub_diag. now split.
    + specialize (IH (S k)).
      destruct ((fix go (l : list A) (i : nat) : option nat :=
                   match l with
                   | [] => None
                   | a :: l' => if p a then Some i else go l' (S i)
                   end) l (S k)) as [i|].
      * destruct IH as (Hk & x & Hx & Hp). split; [lia|]. exists x.
        replace (i - k)%nat with (S (i - S k)) by lia. now split.
      * intros x [<-|Hin]; [exact E | now apply IH].
Qed.

Lemma findIndex_spec {A : Type} (p : A -> bool) (l : list A) :
  match findIndex p l with
  | Some i => exists x, l !! i = Some x /\ p x = true
  | None => forall x, In x l -> p x = false
  end.
Proof.
  pose proof (findIndex_from p l 0) as H. unfold findIndex.
  destruct ((fix go (l : list A) (i : nat) : option nat :=
               match l with
               | [] => None
               | a :: l' => if p a then Some i else go l' (S i)
               end) l 0%nat) as [i|]; [|exact H].
  destruct H as (_ & x & Hx & Hp). rewrite Nat.sub_0_r in Hx. now exists x.
Qed.

Lemma findInFrames_spec (id : string) (fs : list Frame) (k : nat) :
  match findInFrames id fs k with
  | Some (fi, ei) =>
      (k <= fi)%nat
      /\ exists f e, fs !! (fi - k)%nat = Some f /\ elements f !! ei = Some e /\ el_id e = id
  | None => forall f e, In f fs -> In e (elements f) -> el_id e <> id
  end.
Proof.
  revert k. induction fs as [|f fs IH]; intros k; cbn [findInFrames].
  - intros f e [].
  - pose proof (findIndex_spec (fun e => String.eqb (el_id e) id) (elements f)) as H.
    destruct (findIndex _ (elements f)) as [ei|].
    + destruct H as (e & He & Hp). apply String.eqb_eq in Hp.
      split; [lia|]. exists f, e. rewrite Nat.sub_diag. now repeat split.
    + specialize (IH (S k)). destruct (findInFrames id fs (S k)) as [[fi ei]|].
      * destruct IH as (Hk & f' & e & Hf & He & Hid). split; [lia|]. exists f', e.
        replace (fi - k)%nat with (S (fi - S k)) by lia. now repeat split.
      * intros f' e [<-|Hin] He.
        -- apply String.eqb_neq. now apply H.
        -- now apply (IH f' e).
Qed.

Lemma findInLayers_spec (id : string) (ls : list Layer) (k : nat) :
  match findInLayers id ls k with
  | Some (li, fi, ei) =>
      (k <= li)%nat
      /\ exists l f e, ls !! (li - k)%nat = Some l /\ frames l !! fi = Some f
                       /\ elements f !! ei = Some e /\ el_id e = id
  | None =>
      forall l f e, In l ls -> In f (frames l) -> In e (elements f) -> el_id e <> id
  end.
Proof.
  revert k. induction ls as [|l ls IH]; intros k; cbn [findInLayers].
  - intros l f e [].
  - pose proof (findInFrames_spec id (frames l) 0) as H.
    destruct (findInFrames id (frames l) 0) as [[fi ei]|].
    + destruct H as (_ & f & e & Hf & He & Hid). rewrite Nat.sub_0_r in Hf.
      split; [lia|]. exists l, f, e. rewrite Nat.sub_diag. now repeat split.
    + specialize (IH (S k)). destruct (findInLayers id ls (S k)) as [[[li fi] ei]|].
      * destruct IH as (Hk & l' & f & e & Hl & Hf & He & Hid). split; [lia|].
        exists l', f, e. replace (li - k)%nat with (S (li - S k)) by lia. now repeat split.
      * intros l' f e [<-|Hin] Hf He.
        -- now apply (H f e).
        -- now apply (IH l' f e).
Qed.

(** Property X24.  [findElementById] is sound and complete: a position
    it returns holds an element with the id that was asked for, and it
    returns nothing only if no element of any frame of any layer has that
    id. *)
Theorem X24_findElementById_sound_and_complete (id : string) (t : Timeline) :
  (forall pos,
      findElementById id t = Some pos ->
      exists e, elementAt pos t = Some e /\ el_id e = id)
  /\ (findElementById id t = None ->
      forall layer frame e,
        In layer (layers t) -> In frame (frames layer) -> In e (elements frame) ->
        el_id e <> id).
Proof.
  unfold findElementById. pose proof (findInLayers_spec id (layers t) 0) as H.
  destruct (findInLayers id (layers t) 0) as [[[li fi] ei]|].
  - split; [|discriminate]. intros pos [= <-].
    destruct H as (_ & l & f & e & Hl & Hf & He & Hid). rewrite Nat.sub_0_r in Hl.
    exists e. split; [|exact Hid]. unfold elementAt. now rewrite Hl; cbn; rewrite Hf.
  - split; [discriminate|]. intros _. exact H.
Qed.

End FindFacts.


(** ** Group animations *)

Section GroupFacts.
Import Engine Notions.
Local Open Scope string_scope.
Local Open Scope list_scope.

Lemma findIndex_cons {A : Type} (p : A -> bool) (a : A) (l : list A) :
  findIndex p (a :: l) = if p a then Some 0%nat else option_map S (findIndex p l).
Proof.
  unfold findIndex. destruct (p a); [reflexivity|].
  generalize 0%nat. induction l as [|b l IH]; intros k; [reflexivity|].
  destruct (p b); [reflexivity|]. apply IH.
Qed.

Lemma findIndex_alter {A : Type} (p : A -> bool) (f : A -> A) (i : nat) (l : list A) :
  (forall x, p (f x) = p x) -> findIndex p (alter f i l) = findIndex p l.
Proof.
  intros Hf. revert i. induction l as [|a l IH]; intros [|i]; try reflexivity.
  - change (alter f 0%nat (a :: l)) with (f a :: l). now rewrite !findIndex_cons, Hf.
  - change (alter f (S i) (a :: l)) with (a :: alter f i l). now rewrite !findIndex_cons, IH.
Qed.

Lemma findIndex_app {A : Type} (p : A -> bool) (l : list A) (x : A) :
  findIndex p (l ++ [x])
  = match findIndex p l with
    | Some i => Some i
    | None => if p x then Some (List.length l) else None
    end.
Proof.
  induction l as [|a l IH].
  - cbn [app]. rewrite findIndex_cons. now destruct (p x).
  - cbn [app]. rewrite !findIndex_cons, IH. destruct (p a); [reflexivity|].
    destruct (findIndex p l); [reflexivity|]. now destruct (p x).
Qed.

(** What one step of [applyGroupAnimationToElement] does to the element:
    only the animations change, the first animation of the property holds
    the group's keyframes, and the properties that had them keep them. *)
Lemma animateProperty_step (group : AnimationGroup) (delay : num) (p : string)
    (e e1 : Element) :
  animateProperty group delay p e = Normal e1 ->
  exists anims1,
    e1 = set_animations anims1 e
    /\ animatedBy group delay (properties e) p anims1
    /\ forall q, animatedBy group delay (properties e) q (default [] (animations e)) ->
                 animatedBy group delay (properties e) q anims1.
Proof.
  unfold animateProperty.
  set (anims := default [] (animations e)).
  set (pr := fun q => fun a : PropertyAnimation => String.eqb (Timeline.property a) q).
  change (fun a : PropertyAnimation => String.eqb (Timeline.property a) p) with (pr p).
  pose proof (findIndex_spec (pr p) anims) as Hspec.
  destruct (findIndex (pr p) anims) as [i|] eqn:Ei.
  - cbn [properties set_animations].
    destruct (Json.getNestedProperty (properties e) p) as [v| |] eqn:Ev; try discriminate.
    intros [= <-]. eexists. split; [reflexivity|].
    destruct Hspec as (a & Ha & Hp).
    set (F := fun a0 : PropertyAnimation => _).
    assert (forall q x, pr q (F x) = pr q x) as HF by reflexivity.
    split.
    + exists i, (F a), v. fold (pr p). rewrite findIndex_alter by apply HF.
      rewrite list_lookup_alter, Ha. destruct (decide (i = i)); [|congruence].
      now repeat split.
    + intros q (j & b & w & Hj & Hb & Hw & Hk).
      destruct (decide (i = j)) as [<-|N].
      * rewrite Ha in Hb. injection Hb as <-.
        pose proof (findIndex_spec (pr q) anims) as Hq. fold (pr q) in Hj. rewrite Hj in Hq.
        destruct Hq as (a' & Ha' & Hq). rewrite Ha in Ha'. injection Ha' as <-.
        unfold pr in Hp, Hq. apply String.eqb_eq in Hp, Hq.
        assert (q = p) as -> by congruence. rewrite Ev in Hw. injection Hw as <-.
        exists i, (F a), v. fold (pr p). rewrite findIndex_alter by apply HF.
        rewrite list_lookup_alter, Ha. destruct (decide (i = i)); [|congruence].
        now repeat split.
      * exists j, b, w. fold (pr q). rewrite findIndex_alter by apply HF.
        rewrite list_lookup_alter, Hb. destruct (decide (i = j)); [congruence|].
        now repeat split.
  - cbn [properties set_animations].
    destruct (Json.getNestedProperty (properties e) p) as [v| |] eqn:Ev; try discriminate.
    intros [= <-]. eexists. split; [reflexivity|].
    set (F := fun a0 : PropertyAnimation => _).
    assert (forall q x, pr q (F x) = pr q x) as HF by reflexivity.
    set (new := {| Timeline.property := p; keyframes := [] |}).
    assert ((anims ++ [new]) !! List.length anims = Some new) as Hnew
      by (rewrite lookup_app_r, Nat.sub_diag by lia; reflexivity).
    split.
    + exists (List.length anims), (F new), v. fold (pr p).
      rewrite findIndex_alter by apply HF.
      rewrite findIndex_app, Ei. change (pr p new) with (String.eqb p p).
      rewrite String.eqb_refl.
      rewrite list_lookup_alter, Hnew. destruct (decide (_ = _)); [|congruence].
      now repeat split.
    + intros q (j & b & w & Hj & Hb & Hw & Hk). fold (pr q) in Hj.
      exists j, b, w. fold (pr q). rewrite findIndex_alter by apply HF.
      rewrite findIndex_app, Hj.
      pose proof (lookup_lt_Some _ _ _ Hb) as Lj.
      rewrite list_lookup_alter.
      destruct (decide (List.length anims = j)); [lia|].
      rewrite (lookup_app_l anims [new] j Lj), Hb. now repeat split.
Qed.

(** A step on a property that is animated by the group already changes
    nothing. *)
Lemma animateProperty_again (group : AnimationGroup) (delay : num) (p : string)
    (e : Element) (anims : list PropertyAnimation) :
  animations e = Some anims ->
  animatedBy group delay (properties e) p anims ->
  animateProperty group delay p e = Normal e.
Proof.
  intros Ha (i & a & v & Hi & Hl & Hv & Hk). unfold animateProperty.
  rewrite Ha. change (default [] (Some anims)) with anims. rewrite Hi.
  cbn [properties set_animations]. rewrite Hv.
  f_equal. rewrite <- Hk.
  replace (alter _ i anims) with anims.
  - destruct e. cbn in *. now subst.
  - symmetry. apply list_eq. intros j. rewrite list_lookup_alter.
    destruct (decide (i = j)) as [<-|]; [|reflexivity].
    rewrite Hl. cbn. now destruct a.
Qed.

Lemma forEachProperty_steps (group : AnimationGroup) (delay : num) (props : list string)
    (e e' : Element) (anims : list PropertyAnimation) :
  animations e = Some anims ->
  forEachProperty group delay props e = Normal e' ->
  exists anims',
    e' = set_animations anims' e
    /\ (forall q, In q props -> animatedBy group delay (properties e) q anims')
    /\ (forall q, animatedBy group delay (properties e) q anims ->
                  animatedBy group delay (properties e) q anims').
Proof.
  revert e anims. induction props as [|p props IH]; intros e anims Ha; cbn [forEachProperty].
  - intros [= <-]. exists anims. split; [|split; [intros q []|auto]].
    destruct e. cbn in *. now subst.
  - destruct (animateProperty group delay p e) as [e1| | |] eqn:E1; cbn [andThen];
      try discriminate.
    destruct (animateProperty_step _ _ _ _ _ E1) as (anims1 & -> & Hp & Hkeep).
    rewrite Ha in Hkeep. change (default [] (Some anims)) with anims in Hkeep.
    intros H. destruct (IH (set_animations anims1 e) anims1 eq_refl H)
      as (anims' & -> & Hall & Hkeep').
    cbn [properties set_animations] in *.
    exists anims'. split; [reflexivity|]. split.
    + intros q [<-|Hin]; [now apply Hkeep' | now apply Hall].
    + intros q Hq. now apply Hkeep', Hkeep.
Qed.

Lemma forEachProperty_again (group : AnimationGroup) (delay : num) (props : list string)
    (e : Element) (anims : list PropertyAnimation) :
  animations e = Some anims ->
  (forall q, In q props -> animatedBy group delay (properties e) q anims) ->
  forEachProperty group delay props e = Normal e.
Proof.
  intros Ha. induction props as [|p props IH]; intros Hall; [reflexivity|].
  cbn [forEachProperty].
  rewrite (animateProperty_again _ _ _ _ anims Ha) by (apply Hall; now left).
  cbn [andThen]. apply IH. intros q Hin. apply Hall. now right.
Qed.

(** Property X25.  When [applyGroupAnimationToElement] returns, it has
    changed nothing of the element but its animations (id, type,
    properties and children are as before), and applying the same group
    with the same delay to the result changes nothing more. *)
Theorem X25_group_animation_is_idempotent (element : Element)
    (group : AnimationGroup) (delay : num) (e' : Element) :
  applyGroupAnimationToElement element group delay = Normal e' ->
  (el_id e' = el_id element /\ el_type e' = el_type element
   /\ properties e' = properties element /\ children e' = children element)
  /\ applyGroupAnimationToElement e' group delay = Normal e'.
Proof.
  unfold applyGroupAnimationToElement.
  set (e0 := match animations element with Some _ => element | None => _ end).
  assert (exists anims0, animations e0 = Some anims0) as (anims0 & Ha0)
    by (subst e0; destruct (animations element) eqn:E; eauto).
  assert (el_id e0 = el_id element /\ el_type e0 = el_type element
          /\ properties e0 = properties element /\ children e0 = children element)
    as (I1 & I2 & I3 & I4) by (subst e0; now destruct (animations element)).
  intros H. destruct (forEachProperty_steps _ _ _ _ _ _ Ha0 H) as (anims' & -> & Hall & _).
  split; [now repeat split|].
  cbn [animations set_animations].
  apply (forEachProperty_again _ _ _ _ anims'); [reflexivity|exact Hall].
Qed.
End GroupFacts.


(** ** The further properties at the samples *)

Section AtSamples.
Import Engine Spec Notions.
Local Open Scope string_scope.
Local Open Scope list_scope.

#[local] Existing Instance Example.nanMath.

(** Property X2 at the bounce easing and a quarter. *)
Lemma X2_polynomial_easings_stay_in_unit_interval_witness :
  (In "ease-out-bounce" polynomialEasings /\ inUnit (Fin (Qmake 1 4)) = true)
  /\ inUnit (Easing.getEasingFunction "ease-out-bounce" (Fin (Qmake 1 4))) = true.
Proof.
  assert (In "ease-out-bounce" polynomialEasings) as H1
    by (unfold polynomialEasings; repeat first [left; reflexivity | right]).
  assert (inUnit (Fin (Qmake 1 4)) = true) as H2 by (vm_compute; reflexivity).
  split; [now split|].
  exact (X2_polynomial_easings_stay_in_unit_interval _ _ H1 H2).
Defined.



(** Property X8 from red to blue. *)
Lemma X8_interpolateColor_channels_witness :
  (channel 255 /\ channel 0)
  /\ Interpolator.interpolateColor (rgb 255 0 0) (rgb 0 0 255) (fin 0) = rgb 255 0 0
  /\ Interpolator.interpolateColor (rgb 255 0 0) (rgb 0 0 255) (fin 1) = rgb 0 0 255.
Proof.
  assert (channel 255) as H1 by (unfold channel; lia).
  assert (channel 0) as H0 by (unfold channel; lia).
  split; [now split|].
  exact (proj2 (X8_interpolateColor_channels 255 0 0 0 0 255 H1 H0 H0 H0 H0 H1)).
Defined.

(** Property X9 at the timeline of the tests and frame 5. *)
Lemma X9_getCurrentElements_ids_witness :
  exists vs,
    Interpolator.getCurrentElements Example.testTimeline Example.noPaths (ofZ 5) = Ret vs
    /\ map idOf vs = [Some "circle"; Some "rect"].
Proof.
  eexists.
  assert (Interpolator.getCurrentElements Example.testTimeline Example.noPaths (ofZ 5)
          = Ret _) as H by (vm_compute; reflexivity).
  split; [exact H|].
  rewrite (X9_getCurrentElements_ids _ _ _ _ H). vm_compute. reflexivity.
Defined.

(** Property X11 at a path that is one move-to command. *)
Lemma X11_path_without_segments_witness :
  forallb isMoveTo (commands Sample.pointPath) = true
  /\ getPointAtOffset Sample.pointPath (Fin (Qmake 1 2))
     = Ret ({| px := ofZ 1; py := ofZ 2 |}, None).
Proof.
  assert (forallb isMoveTo (commands Sample.pointPath) = true) as H by reflexivity.
  split; [exact H|].
  destruct (X11_path_without_segments Sample.pointPath (Fin (Qmake 1 2)) H)
    as [[E _]|(x & y & E & Hp)]; [discriminate E|].
  injection E as <- <-. exact Hp.
Defined.

(** Property X13 at a path whose line goes from a point to the same point. *)
Lemma X13_zero_length_first_segment_witness :
  let path :=
    {| path_id := "still";
       commands := [ MoveToCommand (Some (ofZ 1)) (Some (ofZ 1));
                     LineToCommand (Some (ofZ 1)) (Some (ofZ 1)) ];
       closed := false |} in
  distance (M := Sample.tableMath) (ofZ 1) (ofZ 1) (ofZ 1) (ofZ 1) = Fin 0
  /\ getPointAtOffset (M := Sample.tableMath) path (fin 0)
     = Ret ({| px := NaN; py := NaN |},
            Some (Math_atan2 (MathLib := Sample.tableMath)
                    (ofZ 1 - ofZ 1)%num (ofZ 1 - ofZ 1)%num)).
Proof.
  cbv zeta.
  assert (distance (M := Sample.tableMath) (ofZ 1) (ofZ 1) (ofZ 1) (ofZ 1) = Fin 0) as H1
    by (vm_compute; reflexivity).
  split; [exact H1|].
  apply (X13_zero_length_first_segment (M := Sample.tableMath) "still" false
           (ofZ 1) (ofZ 1) (ofZ 1) (ofZ 1) [] 0 0 H1).
  - reflexivity.
  - vm_compute; reflexivity.
Defined.

(** Property X14 at an animation on frames 10 to 29, and frame 30. *)
Lemma X14_no_path_animation_in_window_witness :
  forallb (fun a => negb (inWindow (ofZ 30) a)) (pathAnimations Sample.onePathAnimation)
  = true
  /\ Interpolator.applyPathAnimations Sample.onePathAnimation
       [Element_object Example.circle] (ofZ 30)
     = Ret [Element_object Example.circle].
Proof.
  assert (forallb (fun a => negb (inWindow (ofZ 30) a))
            (pathAnimations Sample.onePathAnimation) = true) as H
    by (vm_compute; reflexivity).
  split; [exact H|].
  exact (X14_no_path_animation_in_window _ _ _ H).
Defined.

(** Property X16 at a move and a line. *)
Lemma X16_parseSVGPath_concatenation_witness :
  startsAtLetter "L3,4" = true
  /\ SvgPath.parseSVGPath ("M1,2 " ++ "L3,4")
     = SvgPath.parseSVGPath "M1,2 " ++ SvgPath.parseSVGPath "L3,4".
Proof.
  assert (startsAtLetter "L3,4" = true) as H by reflexivity.
  split; [exact H|].
  exact (X16_parseSVGPath_concatenation "M1,2 " "L3,4" H).
Defined.

Lemma fresh_observed : triggersObserved Sample.fresh = true.
Proof. vm_compute. reflexivity. Qed.

Lemma fresh_oneRequest : oneRequest Sample.fresh.
Proof. unfold oneRequest. vm_compute. repeat split; lia. Qed.

(** Property X17 at a fresh engine and a run of six operations. *)
Lemma X17_one_pending_frame_request_witness :
  let ops := [OpPlay; OpTick 1; OpSeek (ofZ 10); OpPause; OpPlay; OpStop] in
  (triggersObserved Sample.fresh = true /\ oneRequest Sample.fresh)
  /\ exists s',
       forEach (perform 8) ops Sample.fresh = Normal s' /\ oneRequest s'.
Proof.
  cbv zeta. split; [split; [exact fresh_observed | exact fresh_oneRequest]|].
  destruct (X17_one_pending_frame_request 7
              [OpPlay; OpTick 1; OpSeek (ofZ 10); OpPause; OpPlay; OpStop]
              Sample.fresh fresh_observed fresh_oneRequest) as (s' & H1 & H2 & _).
  exists s'. split; assumption.
Defined.

Lemma busy_observed : triggersObserved Example.busy = true.
Proof. vm_compute. reflexivity. Qed.

Lemma busy_oneRequest : oneRequest Example.busy.
Proof. unfold oneRequest. vm_compute. repeat split; lia. Qed.

(** Property X18 at an engine in use: it is playing at frame 40 with a
    frame request pending, a sequence is waiting on its step and the range
    trigger is active.  [stop] takes all of this back. *)
Lemma X18_stop_resets_witness :
  (triggersObserved Example.busy = true
   /\ oneRequest Example.busy
   /\ isPlaying Example.busy = true
   /\ currentFrame Example.busy = ofZ 40
   /\ frameRequests (host Example.busy) = [1%nat]
   /\ activeSequences Example.busy !! "testSequence" = Some 0%nat)
  /\ exists s',
       stop (run 8) Example.busy = Normal s'
       /\ isPlaying s' = false
       /\ currentFrame s' = ofZ 0
       /\ em_previousFrame (eventManager s') = ofZ 40
       /\ activeSequences s' = ∅
       /\ frameRequests (host s') = [].
Proof.
  assert (isPlaying Example.busy = true) as Hp by (vm_compute; reflexivity).
  assert (currentFrame Example.busy = ofZ 40) as Hc by (vm_compute; reflexivity).
  assert (frameRequests (host Example.busy) = [1%nat]) as Hr
    by (vm_compute; reflexivity).
  assert (activeSequences Example.busy !! "testSequence" = Some 0%nat) as Ha
    by (vm_compute; reflexivity).
  assert (em_currentFrame (eventManager Example.busy) = ofZ 40) as He
    by (vm_compute; reflexivity).
  refine (conj (conj busy_observed
                  (conj busy_oneRequest (conj Hp (conj Hc (conj Hr Ha))))) _).
  destruct (X18_stop_resets 7 Example.busy busy_observed)
    as (s' & H1 & H2 & _ & H3 & _ & H4 & H5 & _ & _ & _ & H6).
  exists s'.
  refine (conj H1 (conj H2 (conj H3 (conj _ (conj H5 (H6 busy_oneRequest)))))).
  now rewrite H4.
Defined.

(** Property X19 at a fresh engine. *)
Lemma X19_play_is_idempotent_witness :
  triggersObserved Sample.fresh = true
  /\ exists s',
       play (run 8) Sample.fresh = Normal s'
       /\ isPlaying s' = true
       /\ play (run 8) s' = Normal s'.
Proof.
  split; [exact fresh_observed|].
  exact (X19_play_is_idempotent 7 Sample.fresh fresh_observed).
Defined.

(** Property X20 half a second after [play], at 60 frames a second and a
    duration of 300 frames: the playhead moves from frame 0 into the
    timeline. *)
Lemma X20_tick_keeps_playhead_in_range_witness :
  (triggersObserved Sample.halfSecondLater = true
   /\ duration (timeline Sample.halfSecondLater) = Fin (inject_Z 300)
   /\ frameRate (timeline Sample.halfSecondLater) = Fin (inject_Z 60)
   /\ currentFrame Sample.halfSecondLater = Fin 0
   /\ performance_now (host Sample.halfSecondLater) = Fin (inject_Z 500)
   /\ lastFrameTime Sample.halfSecondLater = Fin 0)
  /\ exists s' c',
       animationFrame (run 8) 1 Sample.halfSecondLater = Normal s'
       /\ currentFrame s' = Fin c'
       /\ (0 <= c' < inject_Z 300)%Q.
Proof.
  assert (triggersObserved Sample.halfSecondLater = true) as H1
    by (vm_compute; reflexivity).
  assert (duration (timeline Sample.halfSecondLater) = Fin (inject_Z 300)) as H2
    by (vm_compute; reflexivity).
  assert (frameRate (timeline Sample.halfSecondLater) = Fin (inject_Z 60)) as H3
    by (vm_compute; reflexivity).
  assert (currentFrame Sample.halfSecondLater = Fin 0) as H4
    by (vm_compute; reflexivity).
  assert (performance_now (host Sample.halfSecondLater) = Fin (inject_Z 500)) as H5
    by (vm_compute; reflexivity).
  assert (lastFrameTime Sample.halfSecondLater = Fin 0) as H6
    by (vm_compute; reflexivity).
  split; [now repeat split|].
  apply (X20_tick_keeps_playhead_in_range 7 1 Sample.halfSecondLater
           (inject_Z 300) (inject_Z 60) 0 (inject_Z 500) 0 H1 H2);
    [ reflexivity | exact H3 | split; [reflexivity | discriminate] | exact H4
    | split; [discriminate | reflexivity] | exact H5 | exact H6 | discriminate ].
Defined.

Lemma rangeManager_sound : activeSound Example.rangeManager.
Proof.
  intros id Hid. exfalso.
  assert (activeRangeTriggers (eventManager Example.rangeManager) = ∅) as E
    by (vm_compute; reflexivity).
  rewrite E in Hid. set_solver.
Qed.

(** Property X22 at the manager of the event tests and frame 30. *)
Lemma X22_active_ranges_hold_current_frame_witness :
  (triggersObserved Example.rangeManager = true /\ activeSound Example.rangeManager)
  /\ exists s',
       updateFrame (run 8) (ofZ 30) Example.rangeManager = Normal s' /\ activeSound s'.
Proof.
  assert (triggersObserved Example.rangeManager = true) as H by (vm_compute; reflexivity).
  split; [split; [exact H | exact rangeManager_sound]|].
  destruct (X22_active_ranges_hold_current_frame 7 (ofZ 30) Example.rangeManager H
              rangeManager_sound) as (s' & H1 & H2 & _).
  exists s'. split; assumption.
Defined.

(** Property X23 at a sequence without steps that repeats for ever. *)
Lemma X23_endless_sequence_recurses_without_bound_witness :
  (sequences Sample.withEndless !! "endless" = Some Sample.endless
   /\ (repeat Sample.endless =? - fin 1)%num = true)
  /\ playSequence (run 100) "endless" Sample.withEndless = OutOfFuel.
Proof.
  assert (sequences Sample.withEndless !! "endless" = Some Sample.endless) as H1
    by (vm_compute; reflexivity).
  assert ((repeat Sample.endless =? - fin 1)%num = true) as H2 by (vm_compute; reflexivity).
  split; [now split|].
  apply (X23_endless_sequence_recurses_without_bound 100 "endless" Sample.endless
           Sample.withEndless H1 H2).
  intros step [].
Defined.

(** Property X25 at the circle and the group of the tests. *)
Lemma X25_group_animation_is_idempotent_witness :
  exists e',
    applyGroupAnimationToElement Example.circle Example.testGroup (ofZ 0) = Normal e'
    /\ properties e' = properties Example.circle
    /\ applyGroupAnimationToElement e' Example.testGroup (ofZ 0) = Normal e'.
Proof.
  eexists.
  assert (applyGroupAnimationToElement Example.circle Example.testGroup (ofZ 0)
          = Normal _) as H by (vm_compute; reflexivity).
  split; [exact H|].
  destruct (X25_group_animation_is_idempotent _ _ _ _ H) as ((_ & _ & Hp & _) & Hi).
  split; assumption.
Defined.

(** Property X27 at a cubic curve, before its start and beyond its end,
    and at a quadratic curve at its end. *)
Lemma X27_segment_ends_witness :
  (isBezier Sample.curve = true
   /\ forallb isFinite (segmentCoords Sample.curve) = true
   /\ isBezier Sample.arch = true
   /\ forallb isFinite (segmentCoords Sample.arch) = true)
  /\ samePoint (fst (getPointOnSegment Sample.curve (Fin (-1))))
       (segmentStart Sample.curve) = true
  /\ samePoint (fst (getPointOnSegment Sample.curve (Fin 2))) (segmentEnd Sample.curve)
     = true
  /\ samePoint (fst (getPointOnSegment Sample.arch (Fin 1))) (segmentEnd Sample.arch)
     = true.
Proof.
  assert (isBezier Sample.curve = true) as B by reflexivity.
  assert (forallb isFinite (segmentCoords Sample.curve) = true) as H by reflexivity.
  assert (isBezier Sample.arch = true) as B' by reflexivity.
  assert (forallb isFinite (segmentCoords Sample.arch) = true) as H' by reflexivity.
  refine (conj (conj B (conj H (conj B' H'))) (conj _ (conj _ _))).
  - apply (proj1 (X27_segment_ends Sample.curve (-1) B H)). discriminate.
  - apply (proj2 (X27_segment_ends Sample.curve 2 B H)). discriminate.
  - apply (proj2 (X27_segment_ends Sample.arch 1 B' H')). discriminate.
Defined.

(** Property X29 at the colours [#f0A] and [#ff00aa]. *)
Lemma X29_short_colors_witness :
  In ("f"%char, 15%Z) hexDigits /\ In ("0"%char, 0%Z) hexDigits
  /\ In ("A"%char, 10%Z) hexDigits
  /\ Interpolator.interpolateColor "#f0A" "#000000" (Fin (Qmake 1 2))
     = Interpolator.interpolateColor (rgb 255 0 170) "#000000" (Fin (Qmake 1 2)).
Proof.
  assert (In ("f"%char, 15%Z) hexDigits) as H1
    by (unfold hexDigits; repeat first [left; reflexivity | right]).
  assert (In ("0"%char, 0%Z) hexDigits) as H2
    by (unfold hexDigits; repeat first [left; reflexivity | right]).
  assert (In ("A"%char, 10%Z) hexDigits) as H3
    by (unfold hexDigits; repeat first [left; reflexivity | right]).
  refine (conj H1 (conj H2 (conj H3 _))).
  exact (proj1 (X29_short_colors _ _ _ _ _ _ "#000000" (Fin (Qmake 1 2)) H1 H2 H3)).
Defined.

(** Property X30 at a sequence of one step, played twice, whose group is
    missing. *)
Lemma X30_finite_sequence_completes_witness :
  (sequences Sample.withTwice !! "twice" = Some Sample.twice
   /\ repeat Sample.twice = Fin (inject_Z 2)
   /\ externalOnly "sequenceComplete" Sample.withTwice = true
   /\ triggersObserved Sample.withTwice = true)
  /\ exists n : nat,
       forall fuel : nat,
         (n <= fuel)%nat ->
         exists s',
           playSequence (run fuel) "twice" Sample.withTwice = Normal s'
           /\ activeSequences s' !! "twice" = None
           /\ isPlaying s' = true.
Proof.
  assert (sequences Sample.withTwice !! "twice" = Some Sample.twice) as H1
    by (vm_compute; reflexivity).
  assert (repeat Sample.twice = Fin (inject_Z 2)) as H2 by reflexivity.
  assert (externalOnly "sequenceComplete" Sample.withTwice = true) as H3
    by (vm_compute; reflexivity).
  assert (triggersObserved Sample.withTwice = true) as H4 by (vm_compute; reflexivity).
  split; [now repeat split|].
  apply (X30_finite_sequence_completes "twice" Sample.twice (inject_Z 2)
           Sample.withTwice H1 H2); [discriminate | discriminate | | exact H3 | exact H4].
  intros step [<-|[]]. vm_compute. reflexivity.
Defined.

End AtSamples.
